(** * The instruction-to-edit reconciliation pipeline of the AI edit service

    A shallow embedding of [src/llm.js] (the response normalizers
    [parseEditsFromLLM] and [parseKitPatchFromLLM] with their helpers
    [hasEditPayload], [resolveIdPath] and [filterByCapabilities]) and of
    [src/store.js] (the bounded list of recent requests, [addRequest] and
    [getRequests]), together with the parts of the JavaScript runtime these
    functions rely on: strings as sequences of UTF-16 code units,
    [String.prototype.trim], the anchored code-fence pattern, [JSON.parse],
    property reads, [String(v)], truthiness and strict equality. *)

From Stdlib Require Import Ascii String.
From stdpp Require Import base numbers option list gmap.

Local Open Scope N_scope.

(** ** Strings *)

(** A JavaScript string is a finite sequence of 16-bit code units. *)
Definition jsstring := list N.

(** The code units of a literal written in ASCII. *)
Fixpoint lit (s : string) : jsstring :=
  match s with
  | EmptyString => []
  | String a r => N_of_ascii a :: lit r
  end.
Arguments lit s%_string.

(** JSON source text is written below with an apostrophe standing for the
    double quote: [json "{'a':1}"] is the text [{"a":1}]. *)
Definition json (s : string) : jsstring :=
  List.map (fun c => if c =? 39 then 34 else c) (lit s).
Arguments json s%_string.

Fixpoint str_eqb (s t : jsstring) : bool :=
  match s, t with
  | [], [] => true
  | a :: s', b :: t' => (a =? b) && str_eqb s' t'
  | _, _ => false
  end.

(** [\s] of the pattern language and the characters removed by [trim]:
    WhiteSpace and LineTerminator of ECMA-262. *)
Definition is_ws (c : N) : bool :=
  (c =? 9) || (c =? 10) || (c =? 11) || (c =? 12) || (c =? 13) || (c =? 32)
  || (c =? 160) || (c =? 5760) || ((8192 <=? c) && (c <=? 8202))
  || (c =? 8232) || (c =? 8233) || (c =? 8239) || (c =? 8287)
  || (c =? 12288) || (c =? 65279).

Fixpoint trimStart (s : jsstring) : jsstring :=
  match s with
  | [] => []
  | c :: r => if is_ws c then trimStart r else s
  end.

Fixpoint trimEnd (s : jsstring) : jsstring :=
  match s with
  | [] => []
  | c :: r =>
      match trimEnd r with
      | [] => if is_ws c then [] else [c]
      | r' => c :: r'
      end
  end.

Definition trim (s : jsstring) : jsstring := trimEnd (trimStart s).

Fixpoint strip_prefix (p s : jsstring) : option jsstring :=
  match p, s with
  | [], _ => Some s
  | a :: p', b :: s' => if a =? b then strip_prefix p' s' else None
  | _ :: _, [] => None
  end.

(** ** The code-fence pattern

    [/^```(?:json)?\s*([\s\S]*?)```\s*$/], matched by backtracking in the
    order the pattern language prescribes. Each function is the match of a
    suffix of the pattern and returns the text captured by group 1. *)

(** ["```\s*$"]: the closing fence followed by white space up to the end. *)
Definition closes (u : jsstring) : bool :=
  match strip_prefix (lit "```") u with
  | Some w => forallb is_ws w
  | None => false
  end.

(** ["([\s\S]*?)```\s*$"]: the lazy group takes as few code units as it can. *)
Fixpoint lazy_body (u : jsstring) : option jsstring :=
  if closes u then Some []
  else match u with
       | [] => None
       | c :: r => match lazy_body r with
                   | Some cap => Some (c :: cap)
                   | None => None
                   end
       end.

(** ["\s*([\s\S]*?)```\s*$"]: the greedy star takes white space while it can
    and gives it back, one code unit at a time, when the rest fails. *)
Fixpoint greedy_ws (u : jsstring) : option jsstring :=
  match u with
  | c :: r =>
      if is_ws c
      then match greedy_ws r with
           | Some cap => Some cap
           | None => lazy_body u
           end
      else lazy_body u
  | [] => lazy_body u
  end.

(** The whole pattern; [(?:json)?] first tries to take the tag. *)
Definition codeBlock (text : jsstring) : option jsstring :=
  match strip_prefix (lit "```") text with
  | None => None
  | Some r1 =>
      match strip_prefix (lit "json") r1 with
      | Some r2 =>
          match greedy_ws r2 with
          | Some cap => Some cap
          | None => greedy_ws r1
          end
      | None => greedy_ws r1
      end
  end.

(** The first three statements shared by both normalizers:
    [let text = (raw || '').trim(); const match = text.match(codeBlock);
     if (match) text = match[1].trim();] *)
Definition unfence (raw : jsstring) : jsstring :=
  let text := trim raw in
  match codeBlock text with
  | Some cap => trim cap
  | None => text
  end.

(** ** Values *)

(** A JavaScript value as [JSON.parse] can build it, with [undefined] for
    absent properties. A number is kept as the numeric literal it was read
    from; what the runtime does with the literal (rounding to a double,
    printing it, comparing it) is left to [NumberSem] below. An object is
    the list of its own properties in creation order; names that are array
    indices, which the runtime enumerates first, stay where the text has
    them, as nothing here depends on their place. *)
#[warnings="-register-all"]
Inductive value :=
| VUndefined
| VNull
| VBool (b : bool)
| VNum (literal : jsstring)
| VStr (s : jsstring)
| VArr (elems : list value)
| VObj (props : list (jsstring * value)).

(** The three operations on numbers the code can reach. Every theorem about
    the normalizers holds for any choice of them. *)
Class NumberSem := {
  num_truthy : jsstring -> bool;
  num_eq : jsstring -> jsstring -> bool;
  num_toString : jsstring -> jsstring
}.

(** Induction on values that reaches the elements of arrays and the
    property values of objects. *)
Section ValueInduction.
Variable P : value -> Prop.
Hypothesis Hundefined : P VUndefined.
Hypothesis Hnull : P VNull.
Hypothesis Hbool : forall b, P (VBool b).
Hypothesis Hnum : forall n, P (VNum n).
Hypothesis Hstr : forall s, P (VStr s).
Hypothesis Harr : forall l, Forall P l -> P (VArr l).
Hypothesis Hobj : forall ps, Forall (fun kv => P (snd kv)) ps -> P (VObj ps).

Fixpoint value_nested_ind (v : value) : P v :=
  match v with
  | VUndefined => Hundefined
  | VNull => Hnull
  | VBool b => Hbool b
  | VNum n => Hnum n
  | VStr s => Hstr s
  | VArr l =>
      Harr l
        ((fix elems (l : list value) : Forall P l :=
            match l with
            | [] => List.Forall_nil P
            | x :: r => List.Forall_cons P x r (value_nested_ind x) (elems r)
            end) l)
  | VObj ps =>
      Hobj ps
        ((fix members (ps : list (jsstring * value))
            : Forall (fun kv => P (snd kv)) ps :=
            match ps with
            | [] => List.Forall_nil _
            | kv :: r =>
                List.Forall_cons (fun kv => P (snd kv)) kv r
                  (value_nested_ind (snd kv)) (members r)
            end) ps)
  end.
End ValueInduction.

(** ** JSON.parse *)

Inductive token :=
| TLBrace | TRBrace | TLBracket | TRBracket | TColon | TComma
| TStr (s : jsstring) | TNum (literal : jsstring)
| TTrue | TFalse | TNull.

(** States of the automaton for number literals: an optional minus sign,
    an integer part (a lone zero, or a non-zero digit followed by digits),
    an optional fraction (a dot and at least one digit), an optional
    exponent (e or E, an optional sign, at least one digit). *)
Inductive nstate := NMinus | NZero | NInt | NDot | NFrac | NE | NESign | NExp.

Inductive lstate :=
| LIdle
| LStr (acc : jsstring)
| LEsc (acc : jsstring)
| LHex (acc : jsstring) (k : nat) (cu : N)
| LNum (q : nstate) (acc : jsstring)
| LWord (rest : jsstring) (t : token).

Definition is_digit (c : N) : bool := (48 <=? c) && (c <=? 57).
Definition is_digit19 (c : N) : bool := (49 <=? c) && (c <=? 57).
Definition is_e (c : N) : bool := (c =? 101) || (c =? 69).

Definition hexval (c : N) : option N :=
  if is_digit c then Some (c - 48)
  else if (97 <=? c) && (c <=? 102) then Some (c - 87)
  else if (65 <=? c) && (c <=? 70) then Some (c - 55)
  else None.

(** White space of the JSON grammar: tab, line feed, carriage return, space. *)
Definition is_json_ws (c : N) : bool :=
  (c =? 9) || (c =? 10) || (c =? 13) || (c =? 32).

Definition idle (c : N) : option (lstate * list token) :=
  if is_json_ws c then Some (LIdle, [])
  else if c =? 123 then Some (LIdle, [TLBrace])
  else if c =? 125 then Some (LIdle, [TRBrace])
  else if c =? 91 then Some (LIdle, [TLBracket])
  else if c =? 93 then Some (LIdle, [TRBracket])
  else if c =? 58 then Some (LIdle, [TColon])
  else if c =? 44 then Some (LIdle, [TComma])
  else if c =? 34 then Some (LStr [], [])
  else if c =? 45 then Some (LNum NMinus [c], [])
  else if c =? 48 then Some (LNum NZero [c], [])
  else if is_digit19 c then Some (LNum NInt [c], [])
  else if c =? 116 then Some (LWord (lit "rue") TTrue, [])
  else if c =? 102 then Some (LWord (lit "alse") TFalse, [])
  else if c =? 110 then Some (LWord (lit "ull") TNull, [])
  else None.

Definition num_next (q : nstate) (c : N) : option nstate :=
  match q with
  | NMinus => if c =? 48 then Some NZero
              else if is_digit19 c then Some NInt else None
  | NZero => if c =? 46 then Some NDot else if is_e c then Some NE else None
  | NInt => if is_digit c then Some NInt
            else if c =? 46 then Some NDot
            else if is_e c then Some NE else None
  | NDot => if is_digit c then Some NFrac else None
  | NFrac => if is_digit c then Some NFrac
             else if is_e c then Some NE else None
  | NE => if (c =? 43) || (c =? 45) then Some NESign
          else if is_digit c then Some NExp else None
  | NESign => if is_digit c then Some NExp else None
  | NExp => if is_digit c then Some NExp else None
  end.

Definition num_final (q : nstate) : bool :=
  match q with
  | NZero | NInt | NFrac | NExp => true
  | _ => false
  end.

Definition unescape (c : N) : option N :=
  if (c =? 34) || (c =? 92) || (c =? 47) then Some c
  else if c =? 98 then Some 8
  else if c =? 102 then Some 12
  else if c =? 110 then Some 10
  else if c =? 114 then Some 13
  else if c =? 116 then Some 9
  else None.

Definition lstep (st : lstate) (c : N) : option (lstate * list token) :=
  match st with
  | LIdle => idle c
  | LStr acc =>
      if c =? 34 then Some (LIdle, [TStr (rev acc)])
      else if c =? 92 then Some (LEsc acc, [])
      else if c <? 32 then None
      else Some (LStr (c :: acc), [])
  | LEsc acc =>
      if c =? 117 then Some (LHex acc 3%nat 0, [])
      else match unescape c with
           | Some d => Some (LStr (d :: acc), [])
           | None => None
           end
  | LHex acc k cu =>
      match hexval c with
      | Some d =>
          match k with
          | O => Some (LStr (cu * 16 + d :: acc), [])
          | S k' => Some (LHex acc k' (cu * 16 + d), [])
          end
      | None => None
      end
  | LNum q acc =>
      match num_next q c with
      | Some q' => Some (LNum q' (c :: acc), [])
      | None =>
          if num_final q
          then match idle c with
               | Some (st', ts) => Some (st', TNum (rev acc) :: ts)
               | None => None
               end
          else None
      end
  | LWord rest t =>
      match rest with
      | [] => None
      | [x] => if c =? x then Some (LIdle, [t]) else None
      | x :: r => if c =? x then Some (LWord r t, []) else None
      end
  end.

Definition lex_end (st : lstate) : option (list token) :=
  match st with
  | LIdle => Some []
  | LNum q acc => if num_final q then Some [TNum (rev acc)] else None
  | _ => None
  end.

Fixpoint lex_from (st : lstate) (cs : jsstring) : option (list token) :=
  match cs with
  | [] => lex_end st
  | c :: r =>
      match lstep st c with
      | Some (st', ts) =>
          match lex_from st' r with
          | Some rest => Some (ts ++ rest)
          | None => None
          end
      | None => None
      end
  end.

(** Objects are built one property at a time: writing an existing name
    replaces its value in place, a new name goes last. *)
Fixpoint obj_set (ps : list (jsstring * value)) (k : jsstring) (v : value)
  : list (jsstring * value) :=
  match ps with
  | [] => [(k, v)]
  | (k', v') :: r =>
      if str_eqb k' k then (k', v) :: r else (k', v') :: obj_set r k v
  end.

(** The parser is a pushdown automaton over the tokens. A frame is an
    array or object under construction that waits for its next member. *)
Inductive frame :=
| FArr (done : list value)
| FObj (done : list (jsstring * value)) (key : jsstring).

Inductive pstate :=
| PVal (k : list frame)
| PArr0 (k : list frame)
| PArrN (done : list value) (k : list frame)
| PObj0 (k : list frame)
| PObjK (done : list (jsstring * value)) (k : list frame)
| PObjC (done : list (jsstring * value)) (key : jsstring) (k : list frame)
| PObjN (done : list (jsstring * value)) (k : list frame)
| PEnd (v : value).

(** A finished value goes to the frame that waits for it. *)
Definition deliver (v : value) (k : list frame) : pstate :=
  match k with
  | [] => PEnd v
  | FArr done :: k' => PArrN (v :: done) k'
  | FObj done key :: k' => PObjN (obj_set done key v) k'
  end.

Definition start_value (t : token) (k : list frame) : option pstate :=
  match t with
  | TStr s => Some (deliver (VStr s) k)
  | TNum n => Some (deliver (VNum n) k)
  | TTrue => Some (deliver (VBool true) k)
  | TFalse => Some (deliver (VBool false) k)
  | TNull => Some (deliver VNull k)
  | TLBracket => Some (PArr0 k)
  | TLBrace => Some (PObj0 k)
  | _ => None
  end.

Definition pstep (st : pstate) (t : token) : option pstate :=
  match st, t with
  | PVal k, _ => start_value t k
  | PArr0 k, TRBracket => Some (deliver (VArr []) k)
  | PArr0 k, _ => start_value t (FArr [] :: k)
  | PArrN done k, TComma => Some (PVal (FArr done :: k))
  | PArrN done k, TRBracket => Some (deliver (VArr (rev done)) k)
  | PObj0 k, TRBrace => Some (deliver (VObj []) k)
  | PObj0 k, TStr key => Some (PObjC [] key k)
  | PObjK done k, TStr key => Some (PObjC done key k)
  | PObjC done key k, TColon => Some (PVal (FObj done key :: k))
  | PObjN done k, TComma => Some (PObjK done k)
  | PObjN done k, TRBrace => Some (deliver (VObj done) k)
  | _, _ => None
  end.

Fixpoint parse_from (st : pstate) (ts : list token) : option value :=
  match ts with
  | [] => match st with PEnd v => Some v | _ => None end
  | t :: r =>
      match pstep st t with
      | Some st' => parse_from st' r
      | None => None
      end
  end.

(** [JSON.parse(text)]; [None] is the SyntaxError it throws. *)
Definition JSON_parse (text : jsstring) : option value :=
  match lex_from LIdle text with
  | Some ts => parse_from (PVal []) ts
  | None => None
  end.

(** ** Exceptions *)

Inductive exn :=
| Error (message : jsstring)
| TypeError.

Inductive result (A : Type) :=
| Ok (a : A)
| Throw (e : exn).
Arguments Ok {A} a.
Arguments Throw {A} e.

Definition bind {A B} (m : result A) (f : A -> result B) : result B :=
  match m with
  | Ok a => f a
  | Throw e => Throw e
  end.

Notation "'let*' x := m 'in' k" := (bind m (fun x => k))
  (at level 10, x name, m at level 100, k at level 200).

(** [array.map(f)] with a callback that may throw: elements are visited in
    order and the first exception ends the call. *)
Fixpoint mapM {A B} (f : A -> result B) (l : list A) : result (list B) :=
  match l with
  | [] => Ok []
  | x :: r => let* y := f x in let* ys := mapM f r in Ok (y :: ys)
  end.

(** [array.find(p)] with a callback that may throw. *)
Fixpoint findM (p : value -> result bool) (l : list value) : result value :=
  match l with
  | [] => Ok VUndefined
  | d :: r => let* b := p d in if b then Ok d else findM p r
  end.

(** ** Operators of the language *)

(** [v == null]. *)
Definition nullish (v : value) : bool :=
  match v with
  | VUndefined | VNull => true
  | _ => false
  end.

(** [a ?? b]. *)
Definition coalesce (a b : value) : value := if nullish a then b else a.

(** [typeof v === 'object']. *)
Definition typeof_object (v : value) : bool :=
  match v with
  | VNull | VArr _ | VObj _ => true
  | _ => false
  end.

(** [Array.isArray(v) ? v : dflt]. *)
Definition array_or (v : value) (dflt : list value) : list value :=
  match v with
  | VArr l => l
  | _ => dflt
  end.

Fixpoint lookup_prop (ps : list (jsstring * value)) (k : jsstring) : option value :=
  match ps with
  | [] => None
  | (k', v) :: r => if str_eqb k' k then Some v else lookup_prop r k
  end.

(** [k in o] for an object whose prototype does not define [k]. *)
Definition has_key (ps : list (jsstring * value)) (k : jsstring) : bool :=
  match lookup_prop ps k with
  | Some _ => true
  | None => false
  end.

(** [v.k] where [v] is not null or undefined and [k] is one of the property
    names this code reads (none of them is defined by a built-in
    prototype): the own property of an object, [undefined] otherwise. *)
Definition get (v : value) (k : jsstring) : value :=
  match v with
  | VObj ps => match lookup_prop ps k with Some x => x | None => VUndefined end
  | _ => VUndefined
  end.

(** [v.k] where [v] may be null or undefined. *)
Definition getM (v : value) (k : jsstring) : result value :=
  if nullish v then Throw TypeError else Ok (get v k).

(** [v?.k]. *)
Definition get_opt (v : value) (k : jsstring) : value :=
  if nullish v then VUndefined else get v k.

(** [v === s] for a string [s]. *)
Definition str_is (v : value) (s : jsstring) : bool :=
  match v with
  | VStr x => str_eqb x s
  | _ => false
  end.

(** [s.startsWith(p)]. *)
Definition startsWith (s p : jsstring) : bool :=
  match strip_prefix p s with Some _ => true | None => false end.

Section Runtime.
Context {NS : NumberSem}.

(** Truthiness, as tested by [&&], [||] and the conditional operator. *)
Definition truthy (v : value) : bool :=
  match v with
  | VUndefined | VNull => false
  | VBool b => b
  | VNum n => num_truthy n
  | VStr s => match s with [] => false | _ => true end
  | VArr _ | VObj _ => true
  end.

(** [a === b] where the operands come from two different parses, so that an
    object or array on one side is never the one on the other side. *)
Definition strict_eq (a b : value) : bool :=
  match a, b with
  | VUndefined, VUndefined => true
  | VNull, VNull => true
  | VBool x, VBool y => eqb x y
  | VNum x, VNum y => num_eq x y
  | VStr x, VStr y => str_eqb x y
  | _, _ => false
  end.

(** [elems.join(',')], given the conversion of one element. *)
Fixpoint join (conv : value -> result jsstring) (l : list value)
  : result jsstring :=
  match l with
  | [] => Ok []
  | x :: r =>
      let* s := conv x in
      match r with
      | [] => Ok s
      | _ => let* t := join conv r in Ok (s ++ lit "," ++ t)
      end
  end.

(** [String(v)]. An array prints its elements separated by commas, with
    nothing for null and undefined. A plain object prints as
    [[object Object]] through the inherited [toString]; an own property
    named [toString] hides that method, its value (parsed data, never a
    function) cannot be called, the inherited [valueOf] returns the object
    itself, and the conversion throws a TypeError. *)
Fixpoint ToString (v : value) : result jsstring :=
  match v with
  | VUndefined => Ok (lit "undefined")
  | VNull => Ok (lit "null")
  | VBool true => Ok (lit "true")
  | VBool false => Ok (lit "false")
  | VNum n => Ok (num_toString n)
  | VStr s => Ok s
  | VArr l => join (fun x => if nullish x then Ok [] else ToString x) l
  | VObj ps =>
      if has_key ps (lit "toString") then Throw TypeError
      else Ok (lit "[object Object]")
  end.

End Runtime.

(** ** src/llm.js *)

Section Normalizers.
Context {NS : NumberSem}.

Definition hasEditPayload (item : value) : bool :=
  negb (nullish (get item (lit "new_text")))
  || negb (nullish (get item (lit "new_url")))
  || negb (nullish (get item (lit "new_link")))
  || negb (nullish (get item (lit "new_image_url")))
  || negb (nullish (get item (lit "new_attachment_id")))
  || negb (nullish (get item (lit "new_image"))).

(** The callback of both searches of [resolveIdPath],
    [(d) => d.path === item.path || d.id === item.id]; reading a property
    of a null entry throws. *)
Definition same_slot (item d : value) : result bool :=
  let* dpath := getM d (lit "path") in
  if strict_eq dpath (get item (lit "path")) then Ok true
  else let* did := getM d (lit "id") in
       Ok (strict_eq did (get item (lit "id"))).

(** [image_slots] is the array that [parseEditsFromLLM] passes, hence
    truthy: [image_slots && image_slots.find(...)] is the search. *)
Definition resolveIdPath (item : value) (dictionary image_slots : list value)
  : result value :=
  let* fromDict := findM (same_slot item) dictionary in
  let* fromSlots := findM (same_slot item) image_slots in
  let source := if truthy fromDict then fromDict else fromSlots in
  Ok (VObj
        [ (lit "id",
           coalesce (coalesce (get item (lit "id")) (get_opt source (lit "id")))
                    (VStr []));
          (lit "path",
           coalesce (coalesce (get item (lit "path")) (get_opt source (lit "path")))
                    (VStr [])) ]).

(** [array.includes(s)] for a string [s]. *)
Definition includes (l : list value) (s : jsstring) : bool :=
  existsb (fun v => str_is v s) l.

(** [if (src.k != null) out.k = src.k;] *)
Definition copy_prop (src : value) (k : jsstring) (out : list (jsstring * value))
  : list (jsstring * value) :=
  if nullish (get src k) then out else obj_set out k (get src k).

Definition filterByCapabilities (edit : value) (edit_capabilities : list value)
  : value :=
  let out := [ (lit "id", get edit (lit "id")); (lit "path", get edit (lit "path")) ] in
  let out :=
    if includes edit_capabilities (lit "text")
       && negb (nullish (get edit (lit "new_text")))
    then copy_prop edit (lit "item_index")
           (copy_prop edit (lit "field")
              (obj_set out (lit "new_text") (get edit (lit "new_text"))))
    else out in
  let out :=
    if includes edit_capabilities (lit "url")
    then copy_prop edit (lit "new_link") (copy_prop edit (lit "new_url") out)
    else out in
  let out :=
    if includes edit_capabilities (lit "image")
    then copy_prop edit (lit "new_image")
           (copy_prop edit (lit "new_attachment_id")
              (copy_prop edit (lit "new_image_url") out))
    else out in
  let hasPayload :=
    has_key out (lit "new_text") || has_key out (lit "new_url")
    || has_key out (lit "new_link") || has_key out (lit "new_image_url")
    || has_key out (lit "new_attachment_id") || has_key out (lit "new_image") in
  if hasPayload then VObj out else VNull.

(** The first [filter] callback of [parseEditsFromLLM]. *)
Definition is_candidate (item : value) : bool :=
  truthy item
  && (negb (nullish (get item (lit "id"))) || negb (nullish (get item (lit "path"))))
  && hasEditPayload item.

(** The [map] callback of [parseEditsFromLLM]. *)
Definition to_edit (dictionary slots caps : list value) (item : value)
  : result value :=
  let* r := resolveIdPath item dictionary slots in
  let edit := [ (lit "id", get r (lit "id")); (lit "path", get r (lit "path")) ] in
  let* edit :=
    (if negb (nullish (get item (lit "new_text")))
     then let* s := ToString (get item (lit "new_text")) in
          Ok (copy_prop item (lit "item_index")
                (copy_prop item (lit "field")
                   (obj_set edit (lit "new_text") (VStr s))))
     else Ok edit) in
  let edit := copy_prop item (lit "new_url") edit in
  let edit := copy_prop item (lit "new_link") edit in
  let edit := copy_prop item (lit "new_image_url") edit in
  let edit := copy_prop item (lit "new_attachment_id") edit in
  let edit := copy_prop item (lit "new_image") edit in
  Ok (filterByCapabilities (VObj edit) caps).

(** The last [filter] callback, [(e) => e.id !== '' || e.path !== '']. *)
Definition identified (e : value) : bool :=
  negb (str_is (get e (lit "id")) []) || negb (str_is (get e (lit "path")) []).

(** The chain [arr.filter(...).map(...).filter(...).filter(...)]. *)
Definition edits_of (arr dictionary slots caps : list value)
  : result (list value) :=
  let* edits := mapM (to_edit dictionary slots caps) (List.filter is_candidate arr) in
  Ok (List.filter identified (List.filter (fun e => negb (nullish e)) edits)).

(** [dictionary] is an array (the caller checks it with [Array.isArray]);
    [image_slots] and [edit_capabilities] are any values, an absent one
    taking its default. *)
Definition parseEditsFromLLM (raw : jsstring) (dictionary : list value)
    (image_slots edit_capabilities : value) : result (list value) :=
  let text := unfence raw in
  match JSON_parse text with
  | None => Throw (Error (lit "Invalid LLM response"))
  | Some (VArr arr) =>
      let slots := array_or image_slots [] in
      let caps := array_or edit_capabilities [VStr (lit "text")] in
      edits_of arr dictionary slots caps
  | Some _ => Throw (Error (lit "Invalid LLM response"))
  end.

(** The first [filter] callback of both lists of [parseKitPatchFromLLM],
    [(c) => c && typeof c === 'object' && c._id != null]. *)
Definition has_id (c : value) : bool :=
  truthy c && typeof_object c && negb (nullish (get c (lit "_id"))).

(** The [map] callback of the colors. *)
Definition to_color (c : value) : result value :=
  let* _id := ToString (get c (lit "_id")) in
  let* title :=
    (if negb (nullish (get c (lit "title")))
     then ToString (get c (lit "title")) else Ok []) in
  let* value :=
    (match get c (lit "value") with
     | VStr s => Ok (trim s)
     | v => if negb (nullish v) then ToString v else Ok []
     end) in
  Ok (VObj [ (lit "_id", VStr _id); (lit "title", VStr title);
             (lit "value", VStr value) ]).

(** The body of [Object.keys(t).forEach((k) => ...)], for one key. *)
Definition copy_typography (t : value) (out : list (jsstring * value))
    (k : jsstring) : list (jsstring * value) :=
  if negb (str_eqb k (lit "_id")) && negb (str_eqb k (lit "title"))
     && startsWith k (lit "typography_")
     && negb (nullish (get t k))
  then obj_set out k (get t k)
  else out.

(** [Object.keys(t)] for an object [t]: its own property names in creation
    order (the callers never pass an array). *)
Definition keys (v : value) : list jsstring :=
  match v with
  | VObj ps => List.map fst ps
  | _ => []
  end.

(** The [map] callback of the typography entries. *)
Definition to_typography (t : value) : result value :=
  let* _id := ToString (get t (lit "_id")) in
  let out := [ (lit "_id", VStr _id) ] in
  let* out :=
    (if negb (nullish (get t (lit "title")))
     then let* title := ToString (get t (lit "title")) in
          Ok (obj_set out (lit "title") (VStr title))
     else Ok out) in
  Ok (VObj (fold_left (copy_typography t) (keys t) out)).

Definition parseKitPatchFromLLM (raw : jsstring) : result value :=
  let text := unfence raw in
  match JSON_parse text with
  | None => Throw (Error (lit "Invalid LLM response for kit"))
  | Some obj =>
      if nullish obj || negb (typeof_object obj)
      then Throw (Error (lit "Invalid LLM response for kit"))
      else
        let kit_patch := [] in
        let* kit_patch :=
          (match get obj (lit "colors") with
           | VArr (c :: cs) =>
               let* colors := mapM to_color (List.filter has_id (c :: cs)) in
               Ok (obj_set kit_patch (lit "colors")
                     (VArr (List.filter
                              (fun c => negb (str_is (get c (lit "value")) []))
                              colors)))
           | _ => Ok kit_patch
           end) in
        let* kit_patch :=
          (match get obj (lit "typography") with
           | VArr (t :: ts) =>
               let* typography :=
                 mapM to_typography (List.filter has_id (t :: ts)) in
               Ok (obj_set kit_patch (lit "typography")
                     (VArr (List.filter
                              (fun t => (1 <? length (keys t))%nat)
                              typography)))
           | _ => Ok kit_patch
           end) in
        let kit_patch :=
          if negb (nullish (get obj (lit "settings")))
             && typeof_object (get obj (lit "settings"))
          then obj_set kit_patch (lit "settings") (get obj (lit "settings"))
          else kit_patch in
        Ok (VObj kit_patch)
  end.

End Normalizers.

(** ** src/store.js *)

(** Arrays and records are objects of the heap, held by reference: the
    module keeps one array, callers receive other arrays, and the records
    are shared between them. *)
Definition loc := nat.

Record AuditRecord := {
  id_ : value;
  timestamp : jsstring;
  body : value;
  response : value;
  contextType : jsstring
}.

Inductive cell :=
| CArr (elems : list loc)
| CRec (r : AuditRecord).

Abbreviation heap := (gmap loc cell).

Definition MAX_REQUESTS : nat := 50.

(** [const requests = [];] is the first object the module creates. *)
Definition requests : loc := 0%nat.
Definition init : heap := {[ requests := CArr [] ]}.

Definition alloc (c : cell) (h : heap) : loc * heap :=
  let l := fresh (dom h) in (l, <[ l := c ]> h).

Definition array_at (h : heap) (l : loc) : list loc :=
  match h !! l with
  | Some (CArr a) => a
  | _ => []
  end.

Definition record_at (h : heap) (l : loc) : option AuditRecord :=
  match h !! l with
  | Some (CRec r) => Some r
  | _ => None
  end.

(** The record literal of [addRequest]; [now] is what
    [new Date().toISOString()] returns at the time of the call. *)
Definition new_record (id body response contextType : value) (now : jsstring)
  : AuditRecord :=
  {| id_ := id;
     timestamp := now;
     body := body;
     response := response;
     contextType := if str_is contextType (lit "kit") then lit "kit" else lit "page" |}.

Definition addRequest (id body response contextType : value) (now : jsstring)
    (h : heap) : heap :=
  let '(record, h) := alloc (CRec (new_record id body response contextType now)) h in
  let h := <[ requests := CArr (record :: array_at h requests) ]> h in
  if (MAX_REQUESTS <? length (array_at h requests))%nat
  then <[ requests := CArr (removelast (array_at h requests)) ]> h
  else h.

(** [return [...requests];] *)
Definition getRequests (h : heap) : loc * heap :=
  alloc (CArr (array_at h requests)) h.

(** What a caller can do to an array it holds: any sequence of writes,
    [push], [pop], [splice] and the like leaves some list of elements. *)
Definition array_write (l : loc) (elems : list loc) (h : heap) : heap :=
  <[ l := CArr elems ]> h.

(** What a caller can do to a record it reaches: assignments to its fields
    leave some record. *)
Definition record_write (l : loc) (r : AuditRecord) (h : heap) : heap :=
  <[ l := CRec r ]> h.

(** The records an array lists, in order. *)
Definition records_at (h : heap) (l : loc) : list AuditRecord :=
  omap (record_at h) (array_at h l).

(** One call of [addRequest] with the time at which it happens. *)
Record call := {
  c_id : value;
  c_body : value;
  c_response : value;
  c_contextType : value;
  c_now : jsstring
}.

Definition record_of (c : call) : AuditRecord :=
  new_record (c_id c) (c_body c) (c_response c) (c_contextType c) (c_now c).

Definition add (h : heap) (c : call) : heap :=
  addRequest (c_id c) (c_body c) (c_response c) (c_contextType c) (c_now c) h.

(** The heap after the calls of [cs], oldest first, since module load. *)
Definition run (cs : list call) : heap := fold_left add cs init.

(** A call to tell from the others: its time stamp is [n] digits long. *)
Definition numbered (n : nat) : call :=
  {| c_id := VNum (lit "0"); c_body := VNull; c_response := VNull;
     c_contextType := VStr (lit "page"); c_now := repeat 49 n |}.

(** A reading of number literals for running examples: exact on the
    integer literals written without sign, fraction or exponent. *)
Definition integer_literals : NumberSem :=
  {| num_truthy := existsb is_digit19;
     num_eq := str_eqb;
     num_toString := fun n => n |}.

(** A fence-wrapped form of a text: the opening fence tagged [json], the
    text, the closing fence, with white space [w1] and [w2] around the
    text. *)
Definition fenced_with (w1 w2 s : jsstring) : jsstring :=
  lit "```json" ++ w1 ++ s ++ w2 ++ lit "```".

(** The form with one line feed on each side of the text. *)
Definition fenced (s : jsstring) : jsstring := fenced_with [10] [10] s.

(** ** Vocabulary of the properties *)

(** The recognized payload fields of an edit. *)
Definition payload_fields : list jsstring :=
  [ lit "new_text"; lit "new_url"; lit "new_link"; lit "new_image_url";
    lit "new_attachment_id"; lit "new_image" ].

(** A record carries a payload when one of these fields is there with a
    value that is not null. *)
Definition carries_payload (e : value) : Prop :=
  Exists (fun k => nullish (get e k) = false) payload_fields.

(** Every payload field an object has holds a value. *)
Definition payload_valued (ps : list (jsstring * value)) : Prop :=
  forall k v, In k payload_fields -> lookup_prop ps k = Some v -> nullish v = false.

(** An object under construction that holds [a] as its id and [b] as its
    path, and a value in every payload field it has. *)
Definition stable (a b : value) (ps : list (jsstring * value)) : Prop :=
  payload_valued ps
  /\ lookup_prop ps (lit "id") = Some a
  /\ lookup_prop ps (lit "path") = Some b.

(** An identifier or path is non-empty: there is a value and it is not the
    empty string. *)
Definition nonempty (v : value) : Prop := nullish v = false /\ v <> VStr [].

Definition well_formed_edit (e : value) : Prop :=
  (nonempty (get e (lit "id")) \/ nonempty (get e (lit "path")))
  /\ carries_payload e.

(** No entry of a collection is null or undefined. *)
Definition entries_defined (l : list value) : Prop :=
  Forall (fun d => nullish d = false) l.

(** The value is an object, neither an array nor a primitive. *)
Definition is_object (v : value) : bool :=
  match v with VObj _ => true | _ => false end.

(** A string has no white space at either end. *)
Definition trimmed (s : jsstring) : Prop := trim s = s.

(** [k in v] for a value. *)
Definition has_prop (v : value) (k : jsstring) : bool :=
  match v with
  | VObj ps => has_key ps k
  | _ => false
  end.

Section Vocabulary.
Context {NS : NumberSem}.

(** [String(v)] returns. *)
Definition convertible (v : value) : Prop := exists s, ToString v = Ok s.

(** An element survives when it is a candidate and the record made from it
    keeps a payload after the capability filter and has an identifier or a
    path. *)
Definition survives (dictionary slots caps : list value) (item : value) : bool :=
  is_candidate item
  && match to_edit dictionary slots caps item with
     | Ok e => negb (nullish e) && identified e
     | Throw _ => false
     end.

(** An entry of a collection matches a candidate when its path equals the
    candidate's path or its id equals the candidate's id. *)
Definition matches (item d : value) : bool :=
  strict_eq (get d (lit "path")) (get item (lit "path"))
  || strict_eq (get d (lit "id")) (get item (lit "id")).

(** The color [c'] of a patch is the reading of the entry [c] of the model
    output: [_id] converted by [String]; [title] converted by [String], the
    empty string when the entry has none; [value] not empty, the trimmed
    text when the entry holds a string, its conversion by [String]
    otherwise. *)
Definition color_of (c c' : value) : Prop :=
  exists i t v,
    c' = VObj [ (lit "_id", VStr i); (lit "title", VStr t); (lit "value", VStr v) ]
    /\ ToString (get c (lit "_id")) = Ok i
    /\ (if nullish (get c (lit "title")) then t = []
        else ToString (get c (lit "title")) = Ok t)
    /\ v <> []
    /\ match get c (lit "value") with
       | VStr s => v = trim s
       | x => nullish x = false /\ ToString x = Ok v
       end.

End Vocabulary.

(** The module's array lists exactly the records [recs], each held by an
    allocated object, and is within capacity. *)
Definition holds (h : heap) (recs : list AuditRecord) : Prop :=
  exists arr,
    h !! requests = Some (CArr arr)
    /\ Forall2 (fun l r => h !! l = Some (CRec r)) arr recs
    /\ (length recs <= MAX_REQUESTS)%nat.

(** The two values a stored [contextType] can have. *)
Definition kit_or_page (r : AuditRecord) : Prop :=
  contextType r = lit "kit" \/ contextType r = lit "page".

(** ** Vocabulary of the record contents *)

(** The property names a returned edit can have. *)
Definition edit_fields : list jsstring :=
  [ lit "id"; lit "path"; lit "new_text"; lit "field"; lit "item_index";
    lit "new_url"; lit "new_link"; lit "new_image_url";
    lit "new_attachment_id"; lit "new_image" ].

(** What is read from a field that is copied only when [allowed] and when
    it holds a value. *)
Definition gated (allowed : bool) (v : value) : value :=
  if allowed && negb (nullish v) then v else VUndefined.

(** A capability list grants the edit type [tag]. *)
Definition grants (caps : list value) (tag : string) : bool :=
  includes caps (lit tag).

Section Contents.
Context {NS : NumberSem}.

(** The record [e] is the reading of the element [item] under the
    capabilities [caps]: the text fields are there when ["text"] is granted
    and the element has a [new_text], which is converted by [String]; the
    link fields when ["url"] is granted; the image fields when ["image"] is
    granted; each field other than [new_text] holds the element's value
    unchanged; an id and a path the element has are kept; and the record has
    no property beyond the ten of [edit_fields]. *)
Definition record_reads (caps : list value) (item e : value) : Prop :=
  let text := grants caps "text" && negb (nullish (get item (lit "new_text"))) in
  (if text
   then exists s, ToString (get item (lit "new_text")) = Ok s
                  /\ get e (lit "new_text") = VStr s
   else get e (lit "new_text") = VUndefined)
  /\ get e (lit "field") = gated text (get item (lit "field"))
  /\ get e (lit "item_index") = gated text (get item (lit "item_index"))
  /\ get e (lit "new_url") = gated (grants caps "url") (get item (lit "new_url"))
  /\ get e (lit "new_link") = gated (grants caps "url") (get item (lit "new_link"))
  /\ get e (lit "new_image_url")
     = gated (grants caps "image") (get item (lit "new_image_url"))
  /\ get e (lit "new_attachment_id")
     = gated (grants caps "image") (get item (lit "new_attachment_id"))
  /\ get e (lit "new_image")
     = gated (grants caps "image") (get item (lit "new_image"))
  /\ (nullish (get item (lit "id")) = false -> get e (lit "id") = get item (lit "id"))
  /\ (nullish (get item (lit "path")) = false
      -> get e (lit "path") = get item (lit "path"))
  /\ incl (keys e) edit_fields.

End Contents.

(** The edit type of each field a capability governs. *)
Definition field_capability : list (jsstring * string) :=
  [ (lit "new_text", "text"); (lit "field", "text"); (lit "item_index", "text");
    (lit "new_url", "url"); (lit "new_link", "url");
    (lit "new_image_url", "image"); (lit "new_attachment_id", "image");
    (lit "new_image", "image") ]%string.


(** ** Vocabulary of the kit patch *)

(** The property names a kit patch can have. *)
Definition patch_fields : list jsstring :=
  [ lit "colors"; lit "typography"; lit "settings" ].

(** A property name of a typography entry that is passed on. *)
Definition typography_key (k : jsstring) : bool :=
  startsWith k (lit "typography_").

Section KitContents.
Context {NS : NumberSem}.

(** The typography entry [t'] of a patch is the reading of the entry [t] of
    the model output: [_id] converted by [String]; [title] converted by
    [String] when the entry has one, absent otherwise; every property whose
    name starts with [typography_] and whose value is not null, with that
    value unchanged; and nothing else. *)
Definition typography_of (t t' : value) : Prop :=
  (exists i, ToString (get t (lit "_id")) = Ok i /\ get t' (lit "_id") = VStr i)
  /\ (if nullish (get t (lit "title")) then has_prop t' (lit "title") = false
      else exists s, ToString (get t (lit "title")) = Ok s
                     /\ get t' (lit "title") = VStr s)
  /\ (forall k, k <> lit "_id" -> k <> lit "title" ->
        get t' k = gated (typography_key k) (get t k))
  /\ (forall k, has_prop t' k = true ->
        k = lit "_id" \/ k = lit "title" \/ typography_key k = true).

(** The three parts of a kit patch, each read from its own member of the
    model output. *)
Definition colors_part (obj : value) : result (list (jsstring * value)) :=
  match get obj (lit "colors") with
  | VArr (c :: cs) =>
      let* colors := mapM to_color (List.filter has_id (c :: cs)) in
      Ok [ (lit "colors",
            VArr (List.filter (fun c => negb (str_is (get c (lit "value")) []))
                    colors)) ]
  | _ => Ok []
  end.

Definition typography_part (obj : value) : result (list (jsstring * value)) :=
  match get obj (lit "typography") with
  | VArr (t :: ts) =>
      let* typography := mapM to_typography (List.filter has_id (t :: ts)) in
      Ok [ (lit "typography",
            VArr (List.filter (fun t => (1 <? length (keys t))%nat) typography)) ]
  | _ => Ok []
  end.

Definition settings_part (obj : value) : list (jsstring * value) :=
  if negb (nullish (get obj (lit "settings")))
     && typeof_object (get obj (lit "settings"))
  then [ (lit "settings", get obj (lit "settings")) ]
  else [].

End KitContents.

(** A fence-wrapped form of a text whose opening fence has no tag. *)
Definition fenced_plain (w1 w2 s : jsstring) : jsstring :=
  lit "```" ++ w1 ++ s ++ w2 ++ lit "```".

(** ** Clients of the store *)

(** What the clients of the module do, one step at a time: call
    [addRequest]; call [getRequests] and keep the array it returns; write
    to the [n]-th array they were handed, leaving it with some elements. *)
Inductive action :=
| Add (c : call)
| Get
| WriteArray (n : nat) (elems : list loc).

(** The heap and the arrays handed out so far, oldest first. *)
Definition act (st : heap * list loc) (a : action) : heap * list loc :=
  let '(h, handed) := st in
  match a with
  | Add c => (add h c, handed)
  | Get => let '(l, h') := getRequests h in (h', handed ++ [l])
  | WriteArray n elems =>
      match handed !! n with
      | Some l => (array_write l elems h, handed)
      | None => (h, handed)
      end
  end.

Definition session (acts : list action) : heap * list loc :=
  fold_left act acts (init, []).

(** The calls of [addRequest] among the actions, oldest first. *)
Fixpoint added (acts : list action) : list call :=
  match acts with
  | [] => []
  | Add c :: rest => c :: added rest
  | _ :: rest => added rest
  end.

(** No action writes to the [n]-th array handed out. *)
Definition leaves (n : nat) (acts : list action) : Prop :=
  Forall (fun a => match a with WriteArray m _ => m <> n | _ => True end) acts.

(** The arrays handed out are distinct objects, none of them the module's
    array, and each still holds an array. *)
Definition handed_out (h : heap) (handed : list loc) : Prop :=
  NoDup handed
  /\ Forall (fun l => l <> requests /\ exists a, h !! l = Some (CArr a)) handed.

(** ** src/llm.js: the prompts and the model call *)

(** What the prompts are built from and the code does not define:
    [JSON.stringify], and the wording of the two system prompts, long
    constant texts on which nothing here depends. *)
Class Texts := {
  JSON_stringify : value -> jsstring;
  SYSTEM_PROMPT : jsstring;
  KIT_SYSTEM_PROMPT : jsstring
}.

(** [parts.join(sep)] for an array of strings. *)
Fixpoint join_parts (sep : jsstring) (parts : list jsstring) : jsstring :=
  match parts with
  | [] => []
  | [p] => p
  | p :: rest => p ++ sep ++ join_parts sep rest
  end.

(** [parts.splice(1, 0, x)]. *)
Definition splice_1 (x : jsstring) (parts : list jsstring) : list jsstring :=
  take 1 parts ++ x :: drop 1 parts.

Section Prompts.
Context {T : Texts}.

Definition buildPrompt (dictionary : list value) (instruction : jsstring)
    (image_slots edit_capabilities : list value) : jsstring :=
  let parts :=
    [ lit "Dictionary:" ++ [10] ++ JSON_stringify (VArr dictionary);
      lit "Edit capabilities (return only these types): "
        ++ JSON_stringify (VArr edit_capabilities);
      lit "User instruction: " ++ instruction ] in
  let parts :=
    match image_slots with
    | _ :: _ =>
        splice_1 (lit "Image slots:" ++ [10] ++ JSON_stringify (VArr image_slots))
          parts
    | [] => parts
    end in
  let userPart := join_parts [10; 10] parts in
  SYSTEM_PROMPT ++ [10; 10] ++ userPart.

Definition buildKitPrompt (kit_settings : value) (instruction : jsstring)
  : jsstring :=
  let userPart :=
    lit "kit_settings:" ++ [10] ++ JSON_stringify kit_settings
    ++ [10; 10] ++ lit "User instruction: " ++ instruction in
  KIT_SYSTEM_PROMPT ++ [10; 10] ++ userPart.

End Prompts.

(** The variables of the environment that the service reads; an unset one
    is [None]. *)
Record Env := {
  GOOGLE_API_KEY : option jsstring;
  GEMINI_API_KEY : option jsstring;
  GEMINI_MODEL : option jsstring;
  SERVICE_SECRET : option jsstring
}.

(** Truthiness of a variable of the environment: set and not empty. *)
Definition env_truthy (v : option jsstring) : bool :=
  match v with
  | Some (_ :: _) => true
  | _ => false
  end.

(** The provider's library, as far as [callGemini] uses it: for an API
    key, a model name and a prompt, [generateContent] throws or returns a
    result whose [response] is missing ([None]) or has a [text] method,
    which in turn throws or returns a string. *)
Definition provider :=
  jsstring -> jsstring -> jsstring -> result (option (result jsstring)).

Definition callGemini (env : Env) (generateContent : provider) (prompt : jsstring)
  : result jsstring :=
  let apiKey :=
    if env_truthy (GOOGLE_API_KEY env) then GOOGLE_API_KEY env
    else GEMINI_API_KEY env in
  match apiKey with
  | Some (c :: k) =>
      let modelName :=
        match GEMINI_MODEL env with
        | Some (m :: ms) => m :: ms
        | _ => lit "gemini-2.5-flash"
        end in
      let* response := generateContent (c :: k) modelName prompt in
      match response with
      | None => Throw (Error (lit "No response from Gemini"))
      | Some text =>
          let* t := text in
          Ok (match t with [] => lit "[]" | _ => t end)
      end
  | _ => Throw (Error (lit "GOOGLE_API_KEY or GEMINI_API_KEY is required"))
  end.

(** ** src/middleware/auth.js *)

(** Whether [requireAuth] calls [next()]; [key] is the [x-service-key]
    header of the request, [undefined] when it has none. Otherwise the
    middleware answers [{ error: 'Unauthorized' }]. *)
Definition requireAuth (env : Env) (key : value) : bool :=
  match SERVICE_SECRET env with
  | Some (c :: s) => str_is key (c :: s)
  | _ => true
  end.

(** ** src/index.js *)

(** What one request brings besides its headers: the parsed body, the
    identifier that [Math.random] yields for it, the time at which its
    record is made, and the text that the engine gives the TypeError, if
    one is thrown while the request is served. *)
Record request := {
  req_body : value;
  requestId : jsstring;
  now : jsstring;
  engine_text : jsstring
}.

(** [e.message]. *)
Definition message (req : request) (e : exn) : jsstring :=
  match e with
  | Error m => m
  | TypeError => engine_text req
  end.

(** [{ error: e.message || fallback }]. *)
Definition failure (req : request) (e : exn) (fallback : jsstring) : value :=
  VObj [ (lit "error",
          VStr (match message req e with [] => fallback | m => m end)) ].

(** [v !== null]. *)
Definition not_null (v : value) : bool :=
  match v with
  | VNull => false
  | _ => true
  end.

(** A destructuring default: [{ k = dflt } = body]. *)
Definition get_default (body : value) (k : jsstring) (dflt : value) : value :=
  match get body k with
  | VUndefined => dflt
  | v => v
  end.

(** [addRequest(requestId, body, response, contextType);
     return res.status(200).json(response);] *)
Definition reply (req : request) (body response : value) (contextType : string)
    (h : heap) : value * heap :=
  (response,
   addRequest (VStr (requestId req)) body response (VStr (lit contextType))
     (now req) h).

Section Service.
Context {NS : NumberSem} {T : Texts}.

(** The handler of [POST /edits]: the payload it answers with, always
    under status 200, and the heap it leaves. *)
Definition post_edits (env : Env) (generateContent : provider) (req : request)
    (h : heap) : value * heap :=
  let body := if truthy (req_body req) then req_body req else VObj [] in
  let context_type := get body (lit "context_type") in
  let instruction := get body (lit "instruction") in
  if str_is context_type (lit "kit") then
    let kit_settings := get_default body (lit "kit_settings") (VObj []) in
    let missing :=
      reply req body
        (VObj [ (lit "error", VStr (lit "Missing instruction for kit edit")) ])
        "kit" h in
    match instruction with
    | VStr s =>
        match trim s with
        | _ :: _ =>
            let ks :=
              if typeof_object kit_settings && not_null kit_settings
              then kit_settings else VObj [] in
            let colors := array_or (get ks (lit "colors")) [] in
            let typography := array_or (get ks (lit "typography")) [] in
            let normalizedKitSettings :=
              VObj [ (lit "colors", VArr colors);
                     (lit "typography", VArr typography) ] in
            match
              (let prompt := buildKitPrompt normalizedKitSettings (trim s) in
               let* raw := callGemini env generateContent prompt in
               parseKitPatchFromLLM raw)
            with
            | Ok kit_patch =>
                reply req body (VObj [ (lit "kit_patch", kit_patch) ]) "kit" h
            | Throw e =>
                reply req body (failure req e (lit "Kit LLM request failed"))
                  "kit" h
            end
        | [] => missing
        end
    | _ => missing
    end
  else
    let image_slots := get_default body (lit "image_slots") (VArr []) in
    let edit_capabilities :=
      get_default body (lit "edit_capabilities") (VArr [VStr (lit "text")]) in
    let missing :=
      reply req body
        (VObj [ (lit "error", VStr (lit "Missing dictionary or instruction")) ])
        "page" h in
    match get body (lit "dictionary"), instruction with
    | VArr dictionary, VStr s =>
        match trim s with
        | _ :: _ =>
            let imageSlots := array_or image_slots [] in
            let capabilities := array_or edit_capabilities [VStr (lit "text")] in
            match
              (let prompt := buildPrompt dictionary s imageSlots capabilities in
               let* raw := callGemini env generateContent prompt in
               parseEditsFromLLM raw dictionary (VArr imageSlots)
                 (VArr capabilities))
            with
            | Ok edits =>
                reply req body (VObj [ (lit "edits", VArr edits) ]) "page" h
            | Throw e =>
                reply req body (failure req e (lit "LLM request failed")) "page" h
            end
        | [] => missing
        end
    | _, _ => missing
    end.

(** [POST /edits] behind the middleware, which is mounted when
    [SERVICE_SECRET] is set; [key] is the [x-service-key] header. *)
Definition edits_route (env : Env) (generateContent : provider) (key : value)
    (req : request) (h : heap) : value * heap :=
  if env_truthy (SERVICE_SECRET env) && negb (requireAuth env key)
  then (VObj [ (lit "error", VStr (lit "Unauthorized")) ], h)
  else post_edits env generateContent req h.

End Service.

(** [GET /api/requests]: the records that [res.json(getRequests())] sends,
    and the heap with the array that the call made. *)
Definition api_requests (h : heap) : list AuditRecord * heap :=
  let '(l, h') := getRequests h in (records_at h' l, h').

(** ** Vocabulary of the service *)

(** The instruction of a request is a string with something other than
    white space in it. *)
Definition has_instruction (instruction : value) : bool :=
  match instruction with
  | VStr s => match trim s with [] => false | _ => true end
  | _ => false
  end.

Definition is_array (v : value) : bool :=
  match v with VArr _ => true | _ => false end.

Section ServiceVocabulary.
Context {NS : NumberSem}.

(** [req.body || {}]. *)
Definition body_of (req : request) : value :=
  if truthy (req_body req) then req_body req else VObj [].

(** The request asks for a kit edit. *)
Definition kit_request (req : request) : bool :=
  str_is (get (body_of req) (lit "context_type")) (lit "kit").

(** The request passes the validation of its branch. *)
Definition valid_request (req : request) : bool :=
  if kit_request req then has_instruction (get (body_of req) (lit "instruction"))
  else is_array (get (body_of req) (lit "dictionary"))
       && has_instruction (get (body_of req) (lit "instruction")).

End ServiceVocabulary.

(** An answer that reports an error. *)
Definition error_answer (m : jsstring) : value := VObj [ (lit "error", VStr m) ].

(** An environment with neither API key. *)
Definition keyless (env : Env) : bool :=
  negb (env_truthy (GOOGLE_API_KEY env)) && negb (env_truthy (GEMINI_API_KEY env)).

(** Texts for running examples, where the wording of the prompts is of no
    consequence. *)
Definition blank_texts : Texts :=
  {| JSON_stringify := fun _ => []; SYSTEM_PROMPT := []; KIT_SYSTEM_PROMPT := [] |}.

(** A request with the body [body], for running examples. *)
Definition sample_request (body : value) : request :=
  {| req_body := body; requestId := lit "k3x9q2ab";
     now := lit "2025-01-01T00:00:00.000Z"; engine_text := lit "TypeError" |}.

(** One arrival at [POST /edits]: the [x-service-key] header, what the
    provider does during the request, and the request itself. *)
Record arrival := {
  a_key : value;
  a_provider : provider;
  a_request : request
}.

Section Traffic.
Context {NS : NumberSem} {T : Texts}.

(** The heap after the arrivals, oldest first, since module load. *)
Definition serve (env : Env) (arrivals : list arrival) : heap :=
  fold_left
    (fun h a => (edits_route env (a_provider a) (a_key a) (a_request a) h).2)
    arrivals init.

(** The arrival passes the middleware, or there is none. *)
Definition admitted (env : Env) (a : arrival) : bool :=
  negb (env_truthy (SERVICE_SECRET env)) || requireAuth env (a_key a).

(** The record of an admitted arrival: the answer is the one the handler
    gives, which does not depend on the heap. *)
Definition record_for (env : Env) (a : arrival) : AuditRecord :=
  let req := a_request a in
  {| id_ := VStr (requestId req); timestamp := now req;
     body := body_of req;
     response := (post_edits env (a_provider a) req init).1;
     contextType := if kit_request req then lit "kit" else lit "page" |}.

End Traffic.

(** ** src/llm.js, as first written

    The first version of the edit normalizer: text edits only, no image
    slots and no capabilities. *)

Module Initial.
Section Normalizer.
Context {NS : NumberSem}.

(** The callbacks [(d) => d.path === item.path] and
    [(d) => d.id === item.id]. *)
Definition same_field (k : jsstring) (item d : value) : result bool :=
  let* v := getM d k in Ok (strict_eq v (get item k)).

(** The first [filter] callback. *)
Definition is_candidate (item : value) : bool :=
  truthy item
  && (negb (nullish (get item (lit "id"))) || negb (nullish (get item (lit "path"))))
  && negb (nullish (get item (lit "new_text"))).

(** The [map] callback; the dictionary is searched for an id only when
    the element has none, and likewise for a path. *)
Definition to_edit (dictionary : list value) (item : value) : result value :=
  let* id :=
    (if nullish (get item (lit "id"))
     then let* d := findM (same_field (lit "path") item) dictionary in
          Ok (coalesce (get_opt d (lit "id")) (VStr []))
     else Ok (get item (lit "id"))) in
  let* path :=
    (if nullish (get item (lit "path"))
     then let* d := findM (same_field (lit "id") item) dictionary in
          Ok (coalesce (get_opt d (lit "path")) (VStr []))
     else Ok (get item (lit "path"))) in
  let* new_text := ToString (get item (lit "new_text")) in
  Ok (VObj [ (lit "id", id); (lit "path", path); (lit "new_text", VStr new_text) ]).

Definition parseEditsFromLLM (raw : jsstring) (dictionary : list value)
  : result (list value) :=
  let text := unfence raw in
  match JSON_parse text with
  | None => Throw (Error (lit "Invalid LLM response"))
  | Some (VArr arr) =>
      let* edits := mapM (to_edit dictionary) (List.filter is_candidate arr) in
      Ok (List.filter identified edits)
  | Some _ => Throw (Error (lit "Invalid LLM response"))
  end.

End Normalizer.
End Initial.

(** An entry of the dictionary as the service's clients send it: an object
    whose [id] and [path] are strings. *)
Definition typed_entry (d : value) : Prop :=
  is_object d = true
  /\ (exists i, get d (lit "id") = VStr i)
  /\ (exists p, get d (lit "path") = VStr p).

(** An element of the model output that names no field and no item. *)
Definition plain_item (item : value) : Prop :=
  nullish (get item (lit "field")) = true
  /\ nullish (get item (lit "item_index")) = true.

(** * Properties *)

(** ** Strings and white space *)

Lemma str_eqb_eq s t : str_eqb s t = true <-> s = t.
Proof.
  revert t. induction s as [|a s IH]; intros [|b t]; simpl; try easy.
  rewrite andb_true_iff, N.eqb_eq, IH. split.
  - intros [-> ->]. reflexivity.
  - intros [= -> ->]. auto.
Qed.

Lemma str_eqb_refl s : str_eqb s s = true.
Proof. apply str_eqb_eq. reflexivity. Qed.

Lemma str_eqb_neq s t : str_eqb s t = false <-> s <> t.
Proof.
  rewrite <- str_eqb_eq. destruct (str_eqb s t); split; congruence.
Qed.

Lemma trimEnd_snoc_solid x c : is_ws c = false -> trimEnd (x ++ [c]) = x ++ [c].
Proof.
  intros Hc. induction x as [|a x IH]; simpl.
  - rewrite Hc. reflexivity.
  - rewrite IH. destruct x; reflexivity.
Qed.

Lemma trimEnd_snoc_ws x w : is_ws w = true -> trimEnd (x ++ [w]) = trimEnd x.
Proof.
  intros Hw. induction x as [|a x IH]; simpl.
  - rewrite Hw. reflexivity.
  - rewrite IH. reflexivity.
Qed.

Lemma trimEnd_head c r :
  is_ws c = false -> exists r', trimEnd (c :: r) = c :: r'.
Proof.
  intros Hc. simpl. destruct (trimEnd r) as [|a r'].
  - rewrite Hc. eauto.
  - eauto.
Qed.

(** ** The code-fence pattern *)

Lemma closes_inv u :
  closes u = true -> exists w, u = lit "```" ++ w /\ forallb is_ws w = true.
Proof.
  unfold closes. cbn [lit strip_prefix].
  destruct u as [|a [|b [|c w]]]; cbn; try discriminate;
    repeat (match goal with
            | |- context [N.eqb ?x ?y] => destruct (N.eqb_spec x y)
            end; try discriminate).
  intros Hw. exists w. subst. auto.
Qed.

Lemma lazy_body_fence p : lazy_body (p ++ lit "```") = Some p.
Proof.
  induction p as [|c p IH].
  - reflexivity.
  - cbn [app lazy_body]. rewrite IH.
    destruct (closes (c :: p ++ lit "```")) eqn:Hcl; [|reflexivity].
    exfalso. apply closes_inv in Hcl as (w & Heq & Hw).
    assert (Hlast : last (c :: p ++ lit "```") = Some 96).
    { replace (c :: p ++ lit "```") with ((c :: p ++ [96; 96]) ++ [96]).
      - apply last_snoc.
      - cbn. rewrite <- app_assoc. reflexivity. }
    rewrite Heq in Hlast.
    destruct w as [|x w] using rev_ind.
    + apply (f_equal length) in Heq. cbn in Heq.
      rewrite length_app in Heq. cbn in Heq. lia.
    + rewrite app_assoc, last_snoc in Hlast. injection Hlast as ->.
      rewrite forallb_app in Hw. cbn in Hw.
      rewrite andb_false_r in Hw. discriminate.
Qed.

Lemma greedy_ws_lazy u cap :
  lazy_body (trimStart u) = Some cap -> greedy_ws u = Some cap.
Proof.
  induction u as [|c r IH]; cbn [trimStart greedy_ws]; [easy|].
  destruct (is_ws c); [|easy].
  intros H. rewrite (IH H). reflexivity.
Qed.

Lemma trimStart_ws w x :
  forallb is_ws w = true -> trimStart (w ++ x) = trimStart x.
Proof.
  induction w as [|c w IH]; cbn [forallb app trimStart]; [reflexivity|].
  intros H. apply andb_prop in H as [-> H]. exact (IH H).
Qed.

Lemma trimEnd_ws w : forallb is_ws w = true -> trimEnd w = [].
Proof.
  induction w as [|c w IH]; cbn [forallb trimEnd]; [reflexivity|].
  intros H. apply andb_prop in H as [-> H]. rewrite (IH H). reflexivity.
Qed.

Lemma trimEnd_app_ws x w :
  forallb is_ws w = true -> trimEnd (x ++ w) = trimEnd x.
Proof.
  intros Hw. induction x as [|a x IH]; cbn [app trimEnd].
  - apply trimEnd_ws, Hw.
  - rewrite IH. reflexivity.
Qed.

Lemma trimStart_fence s w2 :
  forallb is_ws w2 = true ->
  exists cap, trimStart (s ++ w2 ++ lit "```") = cap ++ lit "```"
              /\ trim cap = trim s.
Proof.
  intros Hw. induction s as [|c r (cap & IH1 & IH2)].
  - exists []. split; [|reflexivity].
    cbn [app]. rewrite (trimStart_ws _ _ Hw). reflexivity.
  - cbn [app trimStart]. destruct (is_ws c) eqn:Hc.
    + exists cap. split; [exact IH1|].
      rewrite IH2. unfold trim. cbn [trimStart]. rewrite Hc. reflexivity.
    + exists (c :: r ++ w2). split.
      * cbn [app]. rewrite <- app_assoc. reflexivity.
      * unfold trim. cbn [trimStart app]. rewrite Hc.
        change (c :: r ++ w2) with ((c :: r) ++ w2).
        apply trimEnd_app_ws, Hw.
Qed.

Lemma fenced_with_eq w1 w2 s :
  fenced_with w1 w2 s
  = [96; 96; 96; 106; 115; 111; 110] ++ w1 ++ s ++ w2 ++ [96; 96; 96].
Proof. reflexivity. Qed.

Lemma codeBlock_tagged r :
  codeBlock ([96; 96; 96; 106; 115; 111; 110] ++ r) =
  match greedy_ws r with
  | Some cap => Some cap
  | None => greedy_ws ([106; 115; 111; 110] ++ r)
  end.
Proof. reflexivity. Qed.

Lemma trim_solid a x b :
  is_ws a = false -> is_ws b = false -> trim (a :: x ++ [b]) = a :: x ++ [b].
Proof.
  intros Ha Hb. unfold trim. cbn [trimStart]. rewrite Ha.
  apply (trimEnd_snoc_solid (a :: x) b Hb).
Qed.

(** Stripping the fence and trimming the interior leaves the trimmed text,
    whatever the text. *)
Lemma unfence_fenced_with w1 w2 s :
  forallb is_ws w1 = true -> forallb is_ws w2 = true ->
  unfence (fenced_with w1 w2 s) = trim s.
Proof.
  intros Hw1 Hw2. unfold unfence.
  assert (Htrim : trim (fenced_with w1 w2 s) = fenced_with w1 w2 s).
  { rewrite fenced_with_eq.
    replace ([96; 96; 96; 106; 115; 111; 110] ++ w1 ++ s ++ w2 ++ [96; 96; 96])
      with (96 :: ([96; 96; 106; 115; 111; 110] ++ w1 ++ s ++ w2 ++ [96; 96]) ++ [96]).
    - apply trim_solid; reflexivity.
    - cbn [app]. rewrite <- !app_assoc. reflexivity. }
  rewrite Htrim.
  destruct (trimStart_fence s w2 Hw2) as (cap & Hcap & Htr).
  assert (Hcb : codeBlock (fenced_with w1 w2 s) = Some cap).
  { rewrite fenced_with_eq, codeBlock_tagged.
    rewrite (greedy_ws_lazy (w1 ++ s ++ w2 ++ [96; 96; 96]) cap); [reflexivity|].
    rewrite (trimStart_ws _ _ Hw1).
    change [96; 96; 96] with (lit "```").
    rewrite Hcap. apply lazy_body_fence. }
  rewrite Hcb. exact Htr.
Qed.

(** ** The lexer *)

Ltac split_tests :=
  repeat match goal with
         | |- context [N.eqb ?x ?y] => destruct (N.eqb_spec x y); try lia
         | |- context [N.leb ?x ?y] => destruct (N.leb_spec x y); try lia
         | H : context [N.eqb ?x ?y] |- _ => destruct (N.eqb_spec x y); try lia
         | H : context [N.leb ?x ?y] |- _ => destruct (N.leb_spec x y); try lia
         end.

Lemma idle_ws c st ts :
  idle c = Some (st, ts) -> is_ws c = true -> st = LIdle /\ ts = [].
Proof.
  unfold idle. destruct (is_json_ws c) eqn:Hj.
  - intros [= <- <-]. auto.
  - intros H Hw. exfalso. revert H Hw.
    unfold is_ws, is_digit19. cbn.
    split_tests; cbn; try discriminate.
Qed.

Lemma idle_fence c st ts : idle c = Some (st, ts) -> c <> 96.
Proof. intros H ->. vm_compute in H. discriminate. Qed.

(** A text that lexes does not open with a fence once trimmed. *)
Lemma lex_codeBlock s ts :
  lex_from LIdle s = Some ts -> codeBlock (trim s) = None.
Proof.
  revert ts. induction s as [|c r IH]; intros ts; [reflexivity|].
  cbn [lex_from lstep].
  destruct (idle c) as [[st' ts']|] eqn:Hi; [|discriminate].
  destruct (lex_from st' r) as [rest|] eqn:Hr; [|discriminate].
  intros _. unfold trim. cbn [trimStart].
  destruct (is_ws c) eqn:Hw.
  - destruct (idle_ws _ _ _ Hi Hw) as [-> ->]. exact (IH _ Hr).
  - destruct (trimEnd_head c r Hw) as [r' ->].
    unfold codeBlock. cbn [lit strip_prefix].
    apply idle_fence in Hi.
    destruct (N.eqb_spec (N_of_ascii "`") c) as [E|E]; [|reflexivity].
    exfalso. apply Hi. rewrite <- E. reflexivity.
Qed.

Lemma JSON_parse_unfence s v : JSON_parse s = Some v -> unfence s = trim s.
Proof.
  unfold JSON_parse, unfence.
  destruct (lex_from LIdle s) as [ts|] eqn:Hl; [|discriminate].
  intros _. rewrite (lex_codeBlock _ _ Hl). reflexivity.
Qed.

Lemma unfence_fenced_text w1 w2 s v :
  forallb is_ws w1 = true -> forallb is_ws w2 = true ->
  JSON_parse s = Some v -> unfence (fenced_with w1 w2 s) = unfence s.
Proof.
  intros Hw1 Hw2 H.
  rewrite (unfence_fenced_with _ _ _ Hw1 Hw2), (JSON_parse_unfence _ _ H).
  reflexivity.
Qed.

(** ** The parser, on examples *)

Example JSON_parse_document :
  JSON_parse (json " {'a': [1, {'b': null}], 's': '\u0041\n', 'c': -0.5E-7, 'a': true} ")
  = Some (VObj [ (lit "a", VBool true); (lit "s", VStr [65; 10]);
                 (lit "c", VNum (lit "-0.5E-7")) ]).
Proof. vm_compute. reflexivity. Qed.

Example JSON_parse_scalars :
  List.map JSON_parse [ lit "null"; lit "false"; lit "0"; json "''"; lit "[]"; lit "{}" ]
  = [ Some VNull; Some (VBool false); Some (VNum (lit "0")); Some (VStr []);
      Some (VArr []); Some (VObj []) ].
Proof. vm_compute. reflexivity. Qed.

Example JSON_parse_rejects :
  Forall (fun text => JSON_parse text = None)
    [ lit ""; lit "[1,]"; json "{'a':1,}"; lit "01"; lit "1."; lit ".5"; lit "+1";
      lit "tru"; lit "[1 2]"; json "{'a' 1}"; json "'a"; lit "1 2"; lit "[1]]";
      json "{a:1}"; lit "NaN"; lit "undefined"; [11; 49]; [65279; 49] ].
Proof. repeat constructor. Qed.

(** ** Objects *)

Ltac lit_neq := let H := fresh in intro H; vm_compute in H; discriminate H.

Lemma lookup_obj_set ps k v k' :
  lookup_prop (obj_set ps k v) k' =
  if str_eqb k k' then Some v else lookup_prop ps k'.
Proof.
  induction ps as [|[k0 v0] ps IH]; cbn [obj_set lookup_prop].
  - reflexivity.
  - destruct (str_eqb k0 k) eqn:E0; cbn [lookup_prop].
    + apply str_eqb_eq in E0 as ->. destruct (str_eqb k k'); reflexivity.
    + rewrite IH. destruct (str_eqb k0 k') eqn:E1; [|reflexivity].
      apply str_eqb_eq in E1 as ->.
      destruct (str_eqb k k') eqn:E2; [|reflexivity].
      apply str_eqb_eq in E2 as ->. rewrite str_eqb_refl in E0. discriminate.
Qed.

Lemma lookup_obj_set_ne ps k v k' :
  k <> k' -> lookup_prop (obj_set ps k v) k' = lookup_prop ps k'.
Proof.
  intros H. rewrite lookup_obj_set.
  apply str_eqb_neq in H. rewrite H. reflexivity.
Qed.

Lemma lookup_obj_set_eq ps k v : lookup_prop (obj_set ps k v) k = Some v.
Proof. rewrite lookup_obj_set, str_eqb_refl. reflexivity. Qed.

Lemma lookup_copy_prop_ne src k out k' :
  k <> k' -> lookup_prop (copy_prop src k out) k' = lookup_prop out k'.
Proof.
  intros H. unfold copy_prop. destruct (nullish (get src k)); [reflexivity|].
  apply lookup_obj_set_ne, H.
Qed.

Lemma payload_valued_set ps k v :
  nullish v = false -> payload_valued ps -> payload_valued (obj_set ps k v).
Proof.
  intros Hv Hps k' v' Hk'. rewrite lookup_obj_set.
  destruct (str_eqb k k'); [congruence|]. apply Hps, Hk'.
Qed.

Lemma payload_valued_copy src k ps :
  payload_valued ps -> payload_valued (copy_prop src k ps).
Proof.
  intros Hps. unfold copy_prop. destruct (nullish (get src k)) eqn:E; [exact Hps|].
  apply payload_valued_set; assumption.
Qed.

Lemma payload_valued_ids a b :
  payload_valued [ (lit "id", a); (lit "path", b) ].
Proof.
  intros k v Hk. cbn in Hk.
  repeat (destruct Hk as [<-|Hk]; [vm_compute; discriminate|]). destruct Hk.
Qed.

Lemma has_key_payload ps :
  payload_valued ps ->
  has_key ps (lit "new_text") || has_key ps (lit "new_url")
  || has_key ps (lit "new_link") || has_key ps (lit "new_image_url")
  || has_key ps (lit "new_attachment_id") || has_key ps (lit "new_image") = true ->
  carries_payload (VObj ps).
Proof.
  intros Hps H. unfold carries_payload, payload_fields.
  rewrite !Exists_cons. unfold has_key in H. cbn [get].
  repeat (apply orb_prop in H as [H|H]);
    [ do 0 right | do 1 right | do 2 right | do 3 right | do 4 right | do 5 right ];
    left;
    match type of H with
    | context [lookup_prop ps ?k] =>
        destruct (lookup_prop ps k) as [v|] eqn:E; [|discriminate];
        apply (Hps k v); [cbn; tauto | exact E]
    end.
Qed.

Lemma stable_ids a b : stable a b [ (lit "id", a); (lit "path", b) ].
Proof. split; [apply payload_valued_ids|]. split; reflexivity. Qed.

Lemma stable_set a b ps k v :
  k <> lit "id" -> k <> lit "path" -> nullish v = false ->
  stable a b ps -> stable a b (obj_set ps k v).
Proof.
  intros Hi Hp Hv (H1 & H2 & H3). repeat split.
  - apply payload_valued_set; assumption.
  - rewrite lookup_obj_set_ne; assumption.
  - rewrite lookup_obj_set_ne; assumption.
Qed.

Lemma stable_copy a b ps src k :
  k <> lit "id" -> k <> lit "path" ->
  stable a b ps -> stable a b (copy_prop src k ps).
Proof.
  intros Hi Hp H. unfold copy_prop.
  destruct (nullish (get src k)) eqn:E; [exact H|].
  apply stable_set; assumption.
Qed.

Lemma stable_get a b ps :
  stable a b ps ->
  get (VObj ps) (lit "id") = a /\ get (VObj ps) (lit "path") = b.
Proof.
  intros (_ & H2 & H3). cbn [get]. rewrite H2, H3. auto.
Qed.

Ltac stable_tac :=
  lazymatch goal with
  | |- stable _ _ (if ?c then _ else _) =>
      let E := fresh "E" in destruct c eqn:E; stable_tac
  | |- stable _ _ (copy_prop _ _ _) =>
      apply stable_copy; [lit_neq | lit_neq | stable_tac]
  | |- stable _ _ (obj_set _ _ _) =>
      apply stable_set; [lit_neq | lit_neq | | stable_tac]
  | |- stable _ _ _ => first [apply stable_ids | assumption]
  end.

Lemma nullish_coalesce_str a s : nullish (coalesce a (VStr s)) = false.
Proof. destruct a; reflexivity. Qed.

(** ** Exceptions and list traversals *)

Lemma Ok_inj {A} (a b : A) : Ok a = Ok b -> a = b.
Proof. intros H. injection H. auto. Qed.

Lemma bind_Ok {A B} (m : result A) (k : A -> result B) r :
  (let* x := m in k x) = Ok r -> exists x, m = Ok x /\ k x = Ok r.
Proof. destruct m as [x|e]; cbn [bind]; [eauto|discriminate]. Qed.

Lemma mapM_Forall2 {A B} (f : A -> result B) l ys :
  mapM f l = Ok ys -> Forall2 (fun x y => f x = Ok y) l ys.
Proof.
  revert ys. induction l as [|x l IH]; intros ys; cbn.
  - intros [= <-]. constructor.
  - destruct (f x) as [y|] eqn:Ex; cbn; [|discriminate].
    destruct (mapM f l) as [ys'|]; cbn; [|discriminate].
    intros [= <-]. constructor; auto.
Qed.

Lemma mapM_total {A B} (f : A -> result B) l :
  Forall (fun x => exists y, f x = Ok y) l -> exists ys, mapM f l = Ok ys.
Proof.
  induction 1 as [|x l [y Hy] _ [ys IH]]; cbn.
  - eauto.
  - rewrite Hy, IH. cbn. eauto.
Qed.

Lemma mapM_throw {A B} (f : A -> result B) l e :
  mapM f l = Throw e -> exists x, In x l /\ f x = Throw e.
Proof.
  induction l as [|x l IH]; cbn; [discriminate|].
  destruct (f x) as [y|e'] eqn:Ex; cbn.
  - destruct (mapM f l) as [ys|e'']; cbn; [discriminate|].
    intros [= <-]. destruct (IH eq_refl) as (x' & Hin & Hx'). eauto.
  - intros [= <-]. eauto.
Qed.

Lemma mapM_app {A B} (f : A -> result B) l1 l2 :
  mapM f (l1 ++ l2) =
  let* ys1 := mapM f l1 in let* ys2 := mapM f l2 in Ok (ys1 ++ ys2).
Proof.
  induction l1 as [|x l1 IH]; cbn.
  - destruct (mapM f l2); reflexivity.
  - destruct (f x); cbn; [|reflexivity]. rewrite IH.
    destruct (mapM f l1); cbn; [|reflexivity].
    destruct (mapM f l2); reflexivity.
Qed.

Lemma Forall2_In_r {A B} (R : A -> B -> Prop) l ys y :
  Forall2 R l ys -> In y ys -> exists x, In x l /\ R x y.
Proof.
  induction 1 as [|x y' l ys Hxy _ IH]; cbn; [tauto|].
  intros [<-|Hy]; [eauto|]. destruct (IH Hy) as (x' & Hin & Hx'). eauto.
Qed.

Lemma Forall2_filter_Ok {A B} (f : A -> result B) (P : B -> bool) l ys :
  Forall2 (fun x y => f x = Ok y) l ys ->
  Forall2 (fun x y => f x = Ok y)
    (List.filter (fun x => match f x with Ok y => P y | Throw _ => false end) l)
    (List.filter P ys).
Proof.
  induction 1 as [|x y l ys Hxy _ IH]; cbn; [constructor|].
  rewrite Hxy. destruct (P y); [constructor|]; auto.
Qed.

Lemma filter_filter {A} (f g : A -> bool) l :
  List.filter f (List.filter g l) = List.filter (fun x => g x && f x) l.
Proof.
  induction l as [|x l IH]; cbn; [reflexivity|].
  destruct (g x); cbn; [destruct (f x)|]; rewrite IH; reflexivity.
Qed.

Section NormalizerFacts.
Context {NS : NumberSem}.

Lemma join_throw conv l e :
  Forall (fun x => forall e, conv x = Throw e -> e = TypeError) l ->
  join conv l = Throw e -> e = TypeError.
Proof.
  induction 1 as [|x r Hx _ IH]; cbn; [discriminate|].
  destruct (conv x) as [s|e'] eqn:Ex; cbn.
  - destruct r; [discriminate|].
    destruct (join conv (v :: r)) as [t|e'']; cbn; [discriminate|].
    intros [= <-]. apply IH. reflexivity.
  - intros [= <-]. apply Hx. reflexivity.
Qed.

Lemma ToString_throw v e : ToString v = Throw e -> e = TypeError.
Proof.
  revert e. induction v as [| |b|n|s|l IH|ps _] using value_nested_ind;
    intros e; cbn [ToString]; try discriminate.
  - destruct b; discriminate.
  - apply join_throw. eapply Forall_impl; [exact IH|].
    intros x Hx e'. cbn beta. destruct (nullish x); [discriminate|apply Hx].
  - destruct (has_key ps (lit "toString")); [|discriminate].
    intros [= <-]. reflexivity.
Qed.

Lemma same_slot_defined item d :
  nullish d = false -> same_slot item d = Ok (matches item d).
Proof.
  intros Hd. unfold same_slot, getM, matches. rewrite Hd. cbn [bind].
  destruct (strict_eq (get d (lit "path")) (get item (lit "path"))); reflexivity.
Qed.

Lemma same_slot_throw item d e : same_slot item d = Throw e -> e = TypeError.
Proof.
  unfold same_slot, getM. destruct (nullish d); cbn [bind].
  - intros [= <-]. reflexivity.
  - destruct (strict_eq _ _); discriminate.
Qed.

Lemma findM_find item l :
  entries_defined l ->
  findM (same_slot item) l =
  Ok (match List.find (matches item) l with Some d => d | None => VUndefined end).
Proof.
  induction 1 as [|d l Hd _ IH]; cbn; [reflexivity|].
  rewrite (same_slot_defined _ _ Hd). cbn.
  destruct (matches item d); [reflexivity|exact IH].
Qed.

Lemma findM_throw item l e : findM (same_slot item) l = Throw e -> e = TypeError.
Proof.
  induction l as [|d l IH]; cbn; [discriminate|].
  destruct (same_slot item d) as [b|e'] eqn:Ed; cbn.
  - destruct b; [discriminate|exact IH].
  - intros [= <-]. exact (same_slot_throw _ _ _ Ed).
Qed.

Lemma find_first {A} (p : A -> bool) pre d post :
  Forall (fun x => p x = false) pre -> p d = true ->
  List.find p (pre ++ d :: post) = Some d.
Proof.
  induction 1 as [|x pre Hx _ IH]; cbn; intros Hd.
  - rewrite Hd. reflexivity.
  - rewrite Hx. auto.
Qed.

Lemma find_none {A} (p : A -> bool) l :
  Forall (fun x => p x = false) l -> List.find p l = None.
Proof.
  induction 1 as [|x l Hx _ IH]; cbn; [reflexivity|]. rewrite Hx. exact IH.
Qed.

Lemma filterByCapabilities_cases edit caps :
  filterByCapabilities edit caps = VNull \/
  exists out, filterByCapabilities edit caps = VObj out
    /\ carries_payload (VObj out)
    /\ get (VObj out) (lit "id") = get edit (lit "id")
    /\ get (VObj out) (lit "path") = get edit (lit "path").
Proof.
  unfold filterByCapabilities. cbv zeta.
  match goal with
  | |- context [if ?c then VObj ?o else VNull] =>
      assert (Hst : stable (get edit (lit "id")) (get edit (lit "path")) o);
      [|destruct c eqn:Hc; [right; exists o|left; reflexivity]]
  end.
  - stable_tac.
    all: match goal with
         | E : (_ && negb (nullish ?v)) = true |- nullish ?v = false =>
             apply andb_prop in E as [_ E]; apply negb_true_iff in E; exact E
         end.
  - destruct (stable_get _ _ _ Hst) as [Hid Hpath].
    repeat split; try assumption.
    apply has_key_payload; [apply Hst | exact Hc].
Qed.

Lemma resolveIdPath_shape item d s r :
  resolveIdPath item d s = Ok r ->
  nullish (get r (lit "id")) = false /\ nullish (get r (lit "path")) = false.
Proof.
  unfold resolveIdPath.
  destruct (findM (same_slot item) d); cbn [bind]; [|discriminate].
  destruct (findM (same_slot item) s); cbn [bind]; [|discriminate].
  intros [= <-]. split; apply nullish_coalesce_str.
Qed.

Lemma to_edit_cases d s c item e :
  to_edit d s c item = Ok e ->
  e = VNull \/
  exists out, e = VObj out /\ carries_payload e
    /\ nullish (get e (lit "id")) = false
    /\ nullish (get e (lit "path")) = false.
Proof.
  unfold to_edit.
  destruct (resolveIdPath item d s) as [r|] eqn:Er; cbn [bind]; [|discriminate].
  destruct (resolveIdPath_shape _ _ _ _ Er) as [Hid Hpath].
  match goal with
  | |- (let* edit := ?m in _) = _ -> _ =>
      assert (Hm : forall ps, m = Ok ps ->
                stable (get r (lit "id")) (get r (lit "path")) ps)
  end.
  { intros ps. destruct (negb (nullish (get item (lit "new_text")))).
    - destruct (ToString (get item (lit "new_text"))); cbn [bind]; [|discriminate].
      intros H. apply Ok_inj in H. subst ps. stable_tac. reflexivity.
    - intros H. apply Ok_inj in H. subst ps. stable_tac. }
  match goal with
  | |- (let* edit := ?m in _) = _ -> _ =>
      destruct m as [ps|]; cbn [bind]; [|discriminate]
  end.
  specialize (Hm ps eq_refl). intros H. apply Ok_inj in H. subst e.
  match goal with
  | |- context [filterByCapabilities (VObj ?o) c] =>
      assert (Ho : stable (get r (lit "id")) (get r (lit "path")) o)
        by stable_tac;
      destruct (filterByCapabilities_cases (VObj o) c)
        as [->|(out & -> & Hp & Hi & Hq)]; [left; reflexivity|right]
  end.
  destruct (stable_get _ _ _ Ho) as [Ho1 Ho2].
  exists out. rewrite Hi, Hq, Ho1, Ho2. auto.
Qed.

Lemma to_edit_throw d s c item e : to_edit d s c item = Throw e -> e = TypeError.
Proof.
  unfold to_edit, resolveIdPath.
  destruct (findM (same_slot item) d) as [fd|e1] eqn:E1; cbn [bind];
    [|intros [= <-]; exact (findM_throw _ _ _ E1)].
  destruct (findM (same_slot item) s) as [fs|e2] eqn:E2; cbn [bind];
    [|intros [= <-]; exact (findM_throw _ _ _ E2)].
  destruct (negb (nullish (get item (lit "new_text")))); cbn [bind]; [|discriminate].
  destruct (ToString (get item (lit "new_text"))) as [t|e3] eqn:E3; cbn [bind];
    [discriminate|].
  intros [= <-]. exact (ToString_throw _ _ E3).
Qed.

Lemma to_edit_total d s c item :
  entries_defined d -> entries_defined s ->
  convertible (get item (lit "new_text")) ->
  exists e, to_edit d s c item = Ok e.
Proof.
  intros Hd Hs [t Ht]. unfold to_edit, resolveIdPath.
  rewrite (findM_find _ _ Hd), (findM_find _ _ Hs). cbn [bind].
  rewrite Ht. destruct (negb (nullish (get item (lit "new_text")))); cbn [bind]; eauto.
Qed.

Lemma identified_nonempty e :
  identified e = true ->
  nullish (get e (lit "id")) = false -> nullish (get e (lit "path")) = false ->
  nonempty (get e (lit "id")) \/ nonempty (get e (lit "path")).
Proof.
  unfold identified, nonempty. intros H Hi Hp.
  apply orb_prop in H as [H|H]; [left|right]; (split; [assumption|]);
    intros Heq; rewrite Heq in H; discriminate.
Qed.

Lemma well_formed_edit_survives e :
  (e = VNull \/ exists out, e = VObj out) ->
  well_formed_edit e -> negb (nullish e) && identified e = true.
Proof.
  intros He [Hid Hp]. destruct He as [->|[out ->]].
  - exfalso. unfold carries_payload in Hp.
    apply List.Exists_exists in Hp as (k & _ & Hk).
    discriminate.
  - cbn [nullish negb andb]. unfold identified.
    destruct Hid as [[_ H]|[_ H]].
    + destruct (get (VObj out) (lit "id")) as [| | | |s| |]; try reflexivity.
      destruct s; [congruence|reflexivity].
    + destruct (get (VObj out) (lit "path")) as [| | | |s| |];
        try apply orb_true_r.
      destruct s; [congruence|apply orb_true_r].
Qed.

Lemma edits_of_Ok d s c arr out :
  edits_of arr d s c = Ok out ->
  Forall2 (fun item e => to_edit d s c item = Ok e)
    (List.filter (survives d s c) arr) out
  /\ Forall well_formed_edit out.
Proof.
  unfold edits_of.
  destruct (mapM (to_edit d s c) (List.filter is_candidate arr)) as [edits|] eqn:Em;
    cbn [bind]; [|discriminate].
  intros H. apply Ok_inj in H. subst out.
  apply mapM_Forall2 in Em.
  rewrite filter_filter.
  assert (Hsel : Forall2 (fun item e => to_edit d s c item = Ok e)
            (List.filter (survives d s c) arr)
            (List.filter (fun e => negb (nullish e) && identified e) edits)).
  { unfold survives. rewrite <- filter_filter.
    apply (Forall2_filter_Ok (to_edit d s c)
             (fun e => negb (nullish e) && identified e)), Em. }
  split; [exact Hsel|].
  apply List.Forall_forall. intros e He.
  apply filter_In in He as [He Hk]. apply andb_prop in Hk as [Hn Hi].
  apply (Forall2_In_r _ _ _ _ Em) in He as (item & _ & Hitem).
  destruct (to_edit_cases _ _ _ _ _ Hitem) as [->|(o & -> & Hp & H1 & H2)];
    [discriminate|].
  split; [apply identified_nonempty; assumption|exact Hp].
Qed.

Lemma edits_of_throw d s c arr e :
  edits_of arr d s c = Throw e -> e = TypeError.
Proof.
  unfold edits_of.
  destruct (mapM (to_edit d s c) (List.filter is_candidate arr)) as [edits|e'] eqn:Em;
    cbn [bind]; [discriminate|].
  intros [= <-]. apply mapM_throw in Em as (x & _ & Hx).
  exact (to_edit_throw _ _ _ _ _ Hx).
Qed.

Lemma edits_of_total d s c arr :
  entries_defined d -> entries_defined s ->
  Forall (fun item => convertible (get item (lit "new_text"))) arr ->
  exists out, edits_of arr d s c = Ok out.
Proof.
  intros Hd Hs Harr. unfold edits_of.
  destruct (mapM_total (to_edit d s c) (List.filter is_candidate arr)) as [ys ->].
  - apply List.Forall_forall. intros x Hx. apply filter_In in Hx as [Hx _].
    apply to_edit_total; try assumption.
    rewrite List.Forall_forall in Harr. exact (Harr x Hx).
  - cbn [bind]. eauto.
Qed.

Lemma parseEditsFromLLM_array raw d slots caps arr :
  JSON_parse (unfence raw) = Some (VArr arr) ->
  parseEditsFromLLM raw d slots caps =
  edits_of arr d (array_or slots []) (array_or caps [VStr (lit "text")]).
Proof. intros H. unfold parseEditsFromLLM. rewrite H. reflexivity. Qed.

Lemma to_edit_text_only d s item e :
  nullish (get item (lit "new_text")) = true ->
  to_edit d s [VStr (lit "text")] item = Ok e -> e = VNull.
Proof.
  intros Hnt. unfold to_edit.
  destruct (resolveIdPath item d s) as [r|]; cbn [bind]; [|discriminate].
  rewrite Hnt. cbn [negb bind].
  intros H. apply Ok_inj in H. subst e.
  match goal with
  | |- filterByCapabilities (VObj ?o) _ = _ => set (edit := o)
  end.
  assert (Hl : get (VObj edit) (lit "new_text") = VUndefined).
  { subst edit. cbn [get].
    repeat (rewrite lookup_copy_prop_ne by lit_neq). reflexivity. }
  clearbody edit. unfold filterByCapabilities. rewrite Hl.
  reflexivity.
Qed.

Lemma filter_candidates_mid pre item post :
  List.filter is_candidate (pre ++ item :: post) =
  List.filter is_candidate pre
  ++ (if is_candidate item then [item] else [])
  ++ List.filter is_candidate post.
Proof.
  rewrite List.filter_app. cbn [List.filter].
  destruct (is_candidate item); reflexivity.
Qed.

Lemma edits_of_drop d s pre item post :
  (forall e, to_edit d s [VStr (lit "text")] item = Ok e -> e = VNull) ->
  (forall out, edits_of (pre ++ item :: post) d s [VStr (lit "text")] = Ok out ->
               edits_of (pre ++ post) d s [VStr (lit "text")] = Ok out)
  /\ ((exists e, to_edit d s [VStr (lit "text")] item = Ok e) ->
      edits_of (pre ++ item :: post) d s [VStr (lit "text")]
      = edits_of (pre ++ post) d s [VStr (lit "text")]).
Proof.
  intros Hnull. unfold edits_of.
  rewrite filter_candidates_mid, List.filter_app, !mapM_app.
  destruct (mapM _ (List.filter is_candidate pre)) as [ys1|e1]; cbn [bind];
    [|split; [discriminate|reflexivity]].
  destruct (is_candidate item); cbn [mapM bind];
    [|destruct (mapM _ (List.filter is_candidate post)); split; auto].
  destruct (to_edit d s [VStr (lit "text")] item) as [e|e2] eqn:Ee; cbn [bind].
  - rewrite (Hnull e eq_refl).
    destruct (mapM _ (List.filter is_candidate post)) as [ys2|e3]; cbn [bind];
      [|split; auto].
    assert (Heq : List.filter (fun e0 => negb (nullish e0)) (ys1 ++ [VNull] ++ ys2)
                  = List.filter (fun e0 => negb (nullish e0)) (ys1 ++ ys2)).
    { rewrite !List.filter_app. reflexivity. }
    rewrite Heq. split; auto.
  - split; [discriminate|]. intros [e He]. discriminate.
Qed.

Lemma strict_eq_str s v : strict_eq (VStr s) v = true <-> v = VStr s.
Proof.
  destruct v; cbn [strict_eq]; try (split; [discriminate|intros [=]]).
  rewrite str_eqb_eq. split; [intros ->|intros [= ->]]; reflexivity.
Qed.

(** For an entry whose id and path are strings, matching is equality of
    the path or of the id with the field the candidate has. *)
Lemma matches_strings item d i p :
  get d (lit "id") = VStr i -> get d (lit "path") = VStr p ->
  matches item d = true
  <-> get item (lit "path") = VStr p \/ get item (lit "id") = VStr i.
Proof.
  intros Hi Hp. unfold matches. rewrite Hi, Hp, orb_true_iff, !strict_eq_str.
  reflexivity.
Qed.

Lemma is_object_defined d : is_object d = true -> nullish d = false.
Proof. destruct d; cbn; congruence. Qed.

Lemma is_object_truthy d : is_object d = true -> truthy d = true.
Proof. destruct d; cbn; congruence. Qed.

Lemma objects_defined l :
  Forall (fun d => is_object d = true) l -> entries_defined l.
Proof.
  intros H. eapply Forall_impl; [exact H|]. exact is_object_defined.
Qed.

End NormalizerFacts.

(** ** The edit normalizer *)

Section EditNormalizer.
Context {NS : NumberSem}.

(** On a raw text that holds a JSON array, the only exception
    [parseEditsFromLLM] can let through is a TypeError: from reading a
    property of a null entry of the dictionary or of the image slots, or
    from [String] applied to a [new_text] it cannot convert. *)
Lemma parseEditsFromLLM_throws raw dictionary image_slots edit_capabilities arr e :
  JSON_parse (unfence raw) = Some (VArr arr) ->
  parseEditsFromLLM raw dictionary image_slots edit_capabilities = Throw e ->
  e = TypeError.
Proof.
  intros Hparse. rewrite (parseEditsFromLLM_array _ _ _ _ _ Hparse).
  apply edits_of_throw.
Qed.

(** What the edit normalizer returns, when it does. For a raw text that
    holds a JSON array, [parseEditsFromLLM] returns whenever no entry of the
    dictionary and of the image slots is null and [String] can convert the
    [new_text] of every element. What it returns is, in the order of the array, the record of
    each surviving element: the elements that carry an id or a path and a
    payload field, and whose record keeps a payload field after the
    capability filter and has a non-empty id or a non-empty path. Every
    returned record has a non-empty id or a non-empty path and carries a
    payload field; the records that fail either condition are discarded. *)
Theorem parseEditsFromLLM_records
    (raw : jsstring) (dictionary : list value)
    (image_slots edit_capabilities : value) (arr : list value) :
  JSON_parse (unfence raw) = Some (VArr arr) ->
  let slots := array_or image_slots [] in
  let caps := array_or edit_capabilities [VStr (lit "text")] in
  let returned := parseEditsFromLLM raw dictionary image_slots edit_capabilities in
  (entries_defined dictionary -> entries_defined slots ->
   Forall (fun item => convertible (get item (lit "new_text"))) arr ->
   exists out, returned = Ok out)
  /\ (forall out, returned = Ok out ->
      Forall2 (fun item e => to_edit dictionary slots caps item = Ok e)
        (List.filter (survives dictionary slots caps) arr) out
      /\ Forall well_formed_edit out)
  /\ (forall item e, to_edit dictionary slots caps item = Ok e ->
      (survives dictionary slots caps item = true
       <-> is_candidate item = true /\ well_formed_edit e)).
Proof.
  intros Hparse slots caps returned.
  assert (Hres : returned = edits_of arr dictionary slots caps)
    by exact (parseEditsFromLLM_array _ _ _ _ _ Hparse).
  rewrite Hres. split; [|split].
  - apply edits_of_total.
  - intros out Hout. exact (edits_of_Ok _ _ _ _ _ Hout).
  - intros item e He. unfold survives. rewrite He. split.
    + intros Hs. apply andb_prop in Hs as [Hc Hs].
      apply andb_prop in Hs as [Hn Hi]. split; [exact Hc|].
      destruct (to_edit_cases _ _ _ _ _ He) as [->|(o & -> & Hp & H1 & H2)];
        [discriminate|].
      split; [apply identified_nonempty; assumption|exact Hp].
    + intros [Hc Hw]. rewrite Hc. cbn [andb].
      apply well_formed_edit_survives; [|exact Hw].
      destruct (to_edit_cases _ _ _ _ _ He) as [->|(o & -> & _)]; eauto.
Qed.

(** [String] converts every value that is not an object or an array, and
    an object exactly when it has no member named [toString]. *)
Lemma convertible_plain v :
  match v with
  | VObj ps => convertible v <-> has_key ps (lit "toString") = false
  | VArr _ => True
  | _ => convertible v
  end.
Proof.
  unfold convertible. destruct v as [| |[|]| | | |ps]; cbn [ToString];
    try (eexists; reflexivity); try exact I.
  destruct (has_key ps (lit "toString")); split.
  - intros [s Hs]. discriminate.
  - discriminate.
  - reflexivity.
  - intros _. eexists. reflexivity.
Qed.

End EditNormalizer.

Lemma Forall2_In_l {A B} (R : A -> B -> Prop) l ys x :
  Forall2 R l ys -> In x l -> exists y, In y ys /\ R x y.
Proof.
  induction 1 as [|x' y l ys Hxy _ IH]; cbn; [tauto|].
  intros [<-|Hx]; [eauto|]. destruct (IH Hx) as (y' & Hin & Hy'). eauto.
Qed.

Section UnconvertibleText.
Context {NS : NumberSem}.

(** C1 fails on the code. [parseEditsFromLLM] applies [String] to the
    [new_text] of every candidate, inside the [map] callback and before the
    capability filter. When the array holds a candidate whose [new_text]
    [String] cannot convert, such as an object with a member named
    [toString], the call throws a TypeError, whatever the other elements,
    the dictionary, the image slots and the capabilities are: no record is
    returned, and the element is not dropped. *)
Theorem parseEditsFromLLM_unconvertible_text
    (raw : jsstring) (dictionary : list value)
    (image_slots edit_capabilities : value) (arr : list value) (item : value) :
  JSON_parse (unfence raw) = Some (VArr arr) ->
  In item arr ->
  is_candidate item = true ->
  ToString (get item (lit "new_text")) = Throw TypeError ->
  parseEditsFromLLM raw dictionary image_slots edit_capabilities = Throw TypeError.
Proof.
  intros Hparse Hin Hc Hs.
  rewrite (parseEditsFromLLM_array _ _ _ _ _ Hparse).
  destruct (edits_of arr dictionary (array_or image_slots [])
              (array_or edit_capabilities [VStr (lit "text")])) as [out|e] eqn:E;
    [|rewrite (edits_of_throw _ _ _ _ _ E); reflexivity].
  exfalso. unfold edits_of in E.
  apply bind_Ok in E as (edits & Hm & _). apply mapM_Forall2 in Hm.
  assert (Hf : In item (List.filter is_candidate arr))
    by (apply filter_In; split; assumption).
  destruct (Forall2_In_l _ _ _ _ Hm Hf) as (e & _ & He).
  unfold to_edit in He. apply bind_Ok in He as (r & _ & He).
  assert (Hn : nullish (get item (lit "new_text")) = false).
  { destruct (get item (lit "new_text")); try reflexivity; discriminate. }
  rewrite Hn, Hs in He. discriminate.
Qed.

End UnconvertibleText.

Lemma parseEditsFromLLM_unconvertible_text_witness :
  let raw := json "[{'id':'a','new_text':{'toString':'x'}}]" in
  let item := VObj [ (lit "id", VStr (lit "a"));
                     (lit "new_text", VObj [ (lit "toString", VStr (lit "x")) ]) ] in
  JSON_parse (unfence raw) = Some (VArr [item])
  /\ is_candidate (NS:=integer_literals) item = true
  /\ parseEditsFromLLM (NS:=integer_literals) raw [] VUndefined VUndefined
     = Throw TypeError.
Proof.
  intros raw item.
  assert (Hp : JSON_parse (unfence raw) = Some (VArr [item]))
    by (vm_compute; reflexivity).
  assert (Hc : is_candidate (NS:=integer_literals) item = true) by reflexivity.
  split; [exact Hp|]. split; [exact Hc|].
  apply (parseEditsFromLLM_unconvertible_text (NS:=integer_literals)
           raw [] VUndefined VUndefined [item] item Hp).
  - left. reflexivity.
  - exact Hc.
  - reflexivity.
Defined.

Lemma parseEditsFromLLM_records_witness :
  let raw := json "[{'id':'a','new_text':'Hi'},{'path':'','new_url':'u'}]" in
  let arr :=
    [ VObj [ (lit "id", VStr (lit "a")); (lit "new_text", VStr (lit "Hi")) ];
      VObj [ (lit "path", VStr []); (lit "new_url", VStr (lit "u")) ] ] in
  JSON_parse (unfence raw) = Some (VArr arr)
  /\ parseEditsFromLLM (NS:=integer_literals) raw [] VUndefined VUndefined
     = Ok [ VObj [ (lit "id", VStr (lit "a")); (lit "path", VStr []);
                   (lit "new_text", VStr (lit "Hi")) ] ]
  /\ Forall well_formed_edit
       [ VObj [ (lit "id", VStr (lit "a")); (lit "path", VStr []);
                (lit "new_text", VStr (lit "Hi")) ] ].
Proof.
  intros raw arr.
  assert (Hp : JSON_parse (unfence raw) = Some (VArr arr))
    by (vm_compute; reflexivity).
  assert (Hr : parseEditsFromLLM (NS:=integer_literals) raw [] VUndefined VUndefined
               = Ok [ VObj [ (lit "id", VStr (lit "a")); (lit "path", VStr []);
                             (lit "new_text", VStr (lit "Hi")) ] ])
    by (vm_compute; reflexivity).
  split; [exact Hp|]. split; [exact Hr|].
  exact (proj2 (proj1 (proj2
    (parseEditsFromLLM_records (NS:=integer_literals)
       raw [] VUndefined VUndefined arr Hp)) _ Hr)).
Defined.

Section Resolution.
Context {NS : NumberSem}.

(** C4. With the capability set exactly [["text"]], an element that has no
    [new_text] (whether it carries [new_url] or anything else) leaves no
    trace in the output: the capability filter makes no record of it, and
    whatever the call returns is what it returns for the array without that
    element. The element does not make the call fail either, as long as no
    entry of the dictionary and of the image slots is null. *)
Theorem text_only_drops_element
    (raw : jsstring) (dictionary : list value) (image_slots : value)
    (pre post : list value) (item : value) :
  JSON_parse (unfence raw) = Some (VArr (pre ++ item :: post)) ->
  nullish (get item (lit "new_text")) = true ->
  let slots := array_or image_slots [] in
  let caps := [VStr (lit "text")] in
  let returned := parseEditsFromLLM raw dictionary image_slots (VArr caps) in
  (forall e, to_edit dictionary slots caps item = Ok e -> e = VNull)
  /\ survives dictionary slots caps item = false
  /\ (forall out, returned = Ok out ->
      edits_of (pre ++ post) dictionary slots caps = Ok out)
  /\ (entries_defined dictionary -> entries_defined slots ->
      returned = edits_of (pre ++ post) dictionary slots caps).
Proof.
  intros Hparse Hnt slots caps returned.
  assert (Hres : returned = edits_of (pre ++ item :: post) dictionary slots caps)
    by exact (parseEditsFromLLM_array _ _ _ _ _ Hparse).
  assert (Hnull : forall e, to_edit dictionary slots caps item = Ok e -> e = VNull)
    by (intros e; apply to_edit_text_only, Hnt).
  destruct (edits_of_drop dictionary slots pre item post Hnull) as [Hout Heq].
  rewrite Hres. split; [exact Hnull|]. split; [|split].
  - unfold survives.
    destruct (to_edit dictionary slots caps item) as [e|] eqn:Ee;
      [|apply andb_false_r].
    rewrite (Hnull e eq_refl). apply andb_false_r.
  - exact Hout.
  - intros Hd Hs. apply Heq. apply to_edit_total; try assumption.
    destruct (get item (lit "new_text")); try discriminate; eexists; reflexivity.
Qed.

(** The search among objects. Dictionary and image slots being collections
    of objects, [resolveIdPath] keeps the fields the candidate has and fills
    a missing one from the entry that wins the search: the earliest entry of
    the dictionary that [matches], its path being strictly equal to the
    candidate's path or its id to the candidate's id, two absent fields
    being equal; failing that, the earliest such entry of the image
    slots; failing that, nothing, and the missing field is the empty
    string. For an entry whose id and path are strings, to match is to have
    the candidate's path or the candidate's id. With the dictionary [[{id:"a",path:"/a",widgetType:"t",text:""}]]
    the model output [[{"path":"/a","new_text":"Hi"}]] normalizes to
    [[{id:"a",path:"/a",new_text:"Hi"}]]. *)
Theorem resolveIdPath_first_match
    (item : value) (dictionary image_slots : list value) :
  Forall (fun d => is_object d = true) dictionary ->
  Forall (fun d => is_object d = true) image_slots ->
  let filled (r source : value) (k : jsstring) :=
    get r k = if nullish (get item k)
              then coalesce (get source k) (VStr [])
              else get item k in
  (forall pre d post,
      dictionary = pre ++ d :: post ->
      Forall (fun x => matches item x = false) pre ->
      matches item d = true ->
      exists r, resolveIdPath item dictionary image_slots = Ok r
                /\ filled r d (lit "id") /\ filled r d (lit "path"))
  /\ (forall pre d post,
      Forall (fun x => matches item x = false) dictionary ->
      image_slots = pre ++ d :: post ->
      Forall (fun x => matches item x = false) pre ->
      matches item d = true ->
      exists r, resolveIdPath item dictionary image_slots = Ok r
                /\ filled r d (lit "id") /\ filled r d (lit "path"))
  /\ (Forall (fun x => matches item x = false) dictionary ->
      Forall (fun x => matches item x = false) image_slots ->
      exists r, resolveIdPath item dictionary image_slots = Ok r
                /\ get r (lit "id") = coalesce (get item (lit "id")) (VStr [])
                /\ get r (lit "path") = coalesce (get item (lit "path")) (VStr []))
  /\ (forall d i p,
      get d (lit "id") = VStr i -> get d (lit "path") = VStr p ->
      matches item d = true
      <-> get item (lit "path") = VStr p \/ get item (lit "id") = VStr i)
  /\ parseEditsFromLLM (json "[{'path':'/a','new_text':'Hi'}]")
       [ VObj [ (lit "id", VStr (lit "a")); (lit "path", VStr (lit "/a"));
                (lit "widgetType", VStr (lit "t")); (lit "text", VStr []) ] ]
       VUndefined VUndefined
     = Ok [ VObj [ (lit "id", VStr (lit "a")); (lit "path", VStr (lit "/a"));
                   (lit "new_text", VStr (lit "Hi")) ] ].
Proof.
  intros Hdict Hslots filled.
  assert (Hres : resolveIdPath item dictionary image_slots =
    let fromDict := match List.find (matches item) dictionary with
                    | Some d => d | None => VUndefined end in
    let fromSlots := match List.find (matches item) image_slots with
                     | Some d => d | None => VUndefined end in
    let source := if truthy fromDict then fromDict else fromSlots in
    Ok (VObj
          [ (lit "id",
             coalesce (coalesce (get item (lit "id")) (get_opt source (lit "id")))
                      (VStr []));
            (lit "path",
             coalesce (coalesce (get item (lit "path")) (get_opt source (lit "path")))
                      (VStr [])) ])).
  { unfold resolveIdPath.
    rewrite (findM_find _ _ (objects_defined _ Hdict)).
    rewrite (findM_find _ _ (objects_defined _ Hslots)). reflexivity. }
  assert (Hfill : forall d, is_object d = true ->
    forall k, coalesce (coalesce (get item k) (get_opt d k)) (VStr [])
              = if nullish (get item k)
                then coalesce (get d k) (VStr []) else get item k).
  { intros d Hd k. unfold get_opt. rewrite (is_object_defined _ Hd).
    unfold coalesce at 2. destruct (nullish (get item k)) eqn:E; [reflexivity|].
    unfold coalesce. rewrite E. reflexivity. }
  rewrite Hres. clear Hres. split; [|split; [|split; [|split]]].
  - intros pre d post -> Hpre Hd.
    rewrite (find_first _ _ _ _ Hpre Hd).
    assert (Hobj : is_object d = true).
    { rewrite List.Forall_forall in Hdict. apply Hdict, in_elt. }
    cbv zeta. rewrite (is_object_truthy _ Hobj).
    eexists. split; [reflexivity|]. split; apply (Hfill d Hobj).
  - intros pre d post Hnone -> Hpre Hd.
    rewrite (find_none _ _ Hnone), (find_first _ _ _ _ Hpre Hd).
    assert (Hobj : is_object d = true).
    { rewrite List.Forall_forall in Hslots. apply Hslots, in_elt. }
    cbv zeta. cbn [truthy].
    eexists. split; [reflexivity|]. split; apply (Hfill d Hobj).
  - intros Hnone1 Hnone2.
    rewrite (find_none _ _ Hnone1), (find_none _ _ Hnone2).
    cbv zeta. cbn [truthy get_opt nullish].
    eexists. split; [reflexivity|]. split; cbn [get lookup_prop].
    + destruct (get item (lit "id")); reflexivity.
    + destruct (get item (lit "path")); reflexivity.
  - intros d i p. apply matches_strings.
  - vm_compute. reflexivity.
Qed.

End Resolution.

(** ** The kit normalizer *)

Section KitNormalizer.
Context {NS : NumberSem}.

Lemma to_color_spec c c' :
  to_color c = Ok c' ->
  exists i t v,
    c' = VObj [ (lit "_id", VStr i); (lit "title", VStr t); (lit "value", VStr v) ]
    /\ ToString (get c (lit "_id")) = Ok i
    /\ (if nullish (get c (lit "title")) then t = []
        else ToString (get c (lit "title")) = Ok t)
    /\ match get c (lit "value") with
       | VStr s => v = trim s
       | x => if nullish x then v = [] else ToString x = Ok v
       end.
Proof.
  unfold to_color. intros H.
  apply bind_Ok in H as (i & Hi & H).
  apply bind_Ok in H as (t & Ht & H).
  apply bind_Ok in H as (v & Hv & H).
  apply Ok_inj in H. subst c'. exists i, t, v.
  split; [reflexivity|]. split; [exact Hi|]. split.
  - destruct (nullish (get c (lit "title"))); cbn [negb] in Ht;
      [apply Ok_inj in Ht; auto|exact Ht].
  - destruct (get c (lit "value")); cbn [nullish negb] in *;
      solve [apply Ok_inj in Hv; auto | exact Hv].
Qed.

Lemma emitted_colors input colors :
  mapM to_color (List.filter has_id input) = Ok colors ->
  Forall (fun c' => exists c, In c input /\ color_of c c')
    (List.filter (fun c => negb (str_is (get c (lit "value")) [])) colors).
Proof.
  intros Hm. apply mapM_Forall2 in Hm.
  apply List.Forall_forall. intros c' Hc'.
  apply filter_In in Hc' as [Hin Hv].
  apply (Forall2_In_r _ _ _ _ Hm) in Hin as (c & Hc & Hcc').
  apply filter_In in Hc as [Hc _].
  exists c. split; [exact Hc|].
  apply to_color_spec in Hcc' as (i & t & v & -> & Hi & Ht & Hval).
  exists i, t, v. repeat split; try assumption.
  - intros ->. discriminate.
  - destruct (get c (lit "value")) as [| | | | | |] eqn:E; cbn [nullish] in *;
      try exact Hval; try (split; [reflexivity|exact Hval]);
      subst v; discriminate.
Qed.

(** The colors of a returned patch, read off the parsed model output. *)
Lemma parseKitPatchFromLLM_Ok raw obj patch :
  JSON_parse (unfence raw) = Some obj ->
  parseKitPatchFromLLM raw = Ok patch ->
  exists kp, patch = VObj kp /\
    match get obj (lit "colors") with
    | VArr (c :: cs) =>
        exists colors,
          mapM to_color (List.filter has_id (c :: cs)) = Ok colors
          /\ lookup_prop kp (lit "colors") =
             Some (VArr (List.filter
                           (fun c => negb (str_is (get c (lit "value")) []))
                           colors))
    | _ => lookup_prop kp (lit "colors") = None
    end.
Proof.
  intros Hp H. unfold parseKitPatchFromLLM in H. rewrite Hp in H.
  destruct (nullish obj || negb (typeof_object obj)); [discriminate|].
  cbv zeta in H.
  apply bind_Ok in H as (kp1 & H1 & H).
  apply bind_Ok in H as (kp2 & H2 & H).
  apply Ok_inj in H. eexists. split; [symmetry; exact H|].
  assert (H12 : lookup_prop kp2 (lit "colors") = lookup_prop kp1 (lit "colors")).
  { destruct (get obj (lit "typography")) as [| | | | |[|t ts]|];
      try (apply Ok_inj in H2; subst kp2; reflexivity).
    apply bind_Ok in H2 as (ty & _ & H2). apply Ok_inj in H2. subst kp2.
    apply lookup_obj_set_ne. lit_neq. }
  assert (H23 : forall kp3,
    kp3 = (if negb (nullish (get obj (lit "settings")))
              && typeof_object (get obj (lit "settings"))
           then obj_set kp2 (lit "settings") (get obj (lit "settings"))
           else kp2) ->
    lookup_prop kp3 (lit "colors") = lookup_prop kp1 (lit "colors")).
  { intros kp3 ->. rewrite <- H12.
    destruct (negb _ && _); [|reflexivity].
    apply lookup_obj_set_ne. lit_neq. }
  rewrite (H23 _ eq_refl).
  destruct (get obj (lit "colors")) as [| | | | |[|c cs]|];
    try (apply Ok_inj in H1; subst kp1; reflexivity).
  apply bind_Ok in H1 as (colors & Hc & H1). apply Ok_inj in H1. subst kp1.
  exists colors. split; [exact Hc|reflexivity].
Qed.

(** The colors of a patch. A patch that [parseKitPatchFromLLM] emits has
    the [colors] key if and only if the [colors] of the model output is a
    non-empty array, whatever becomes of its entries. Every emitted color
    comes from an entry of that array and holds its [_id] converted to a
    string, its [title] converted to a string (the empty string when the
    entry has none) and a value that is not empty: the trimmed text when
    the entry's value is a string, its conversion by [String], not trimmed,
    otherwise. For [{"colors":[{"_id":"primary","value":"  #112233  "}]}]
    the patch is [{colors:[{_id:"primary",title:"",value:"#112233"}]}]. *)
Theorem parseKitPatchFromLLM_colors (raw : jsstring) (obj patch : value) :
  JSON_parse (unfence raw) = Some obj ->
  parseKitPatchFromLLM raw = Ok patch ->
  (has_prop patch (lit "colors") = true
   <-> exists c cs, get obj (lit "colors") = VArr (c :: cs))
  /\ (forall input, get obj (lit "colors") = VArr input -> input <> [] ->
      exists emitted,
        get patch (lit "colors") = VArr emitted
        /\ Forall (fun c' => exists c, In c input /\ color_of c c') emitted)
  /\ parseKitPatchFromLLM
       (json "{'colors':[{'_id':'primary','value':'  #112233  '}]}")
     = Ok (VObj [ (lit "colors",
                   VArr [ VObj [ (lit "_id", VStr (lit "primary"));
                                 (lit "title", VStr []);
                                 (lit "value", VStr (lit "#112233")) ] ]) ]).
Proof.
  intros Hp H.
  destruct (parseKitPatchFromLLM_Ok _ _ _ Hp H) as (kp & -> & Hkp).
  split; [|split].
  - cbn [has_prop]. unfold has_key.
    destruct (get obj (lit "colors")) as [| | | | |[|c cs]|];
      try (rewrite Hkp; split; [discriminate|intros (c & cs & [=])]).
    destruct Hkp as (colors & _ & ->). split; eauto.
  - intros input Hin Hne. rewrite Hin in Hkp.
    destruct input as [|c cs]; [congruence|].
    destruct Hkp as (colors & Hm & Hl).
    eexists. split.
    + cbn [get]. rewrite Hl. reflexivity.
    + exact (emitted_colors _ _ Hm).
  - vm_compute. reflexivity.
Qed.

End KitNormalizer.

(** ** Both normalizers: fences and top-level shapes *)

Section Shapes.
Context {NS : NumberSem}.

(** A raw text that holds an array passes the shape test of the kit
    normalizer, since [typeof] of an array is ['object']; an array has no
    [colors], [typography] or [settings], and the patch is empty. *)
Lemma parseKitPatchFromLLM_array raw arr :
  JSON_parse (unfence raw) = Some (VArr arr) ->
  parseKitPatchFromLLM raw = Ok (VObj []).
Proof. intros H. unfold parseKitPatchFromLLM. rewrite H. reflexivity. Qed.

(** The shapes the kit normalizer does reject: null and every value whose
    [typeof] is not ['object']. *)
Lemma parseKitPatchFromLLM_primitive raw v :
  JSON_parse (unfence raw) = Some v ->
  typeof_object v = false \/ v = VNull ->
  parseKitPatchFromLLM raw = Throw (Error (lit "Invalid LLM response for kit")).
Proof.
  intros H Hv. unfold parseKitPatchFromLLM. rewrite H.
  destruct Hv as [Hv| ->]; [|reflexivity].
  rewrite Hv, orb_true_r. reflexivity.
Qed.

(** C2 fails on the code: for the raw text [[]], which parses to a JSON
    array, [parseKitPatchFromLLM] returns the empty patch instead of
    raising the error. *)
Theorem parseKitPatchFromLLM_accepts_array :
  JSON_parse (unfence (json "[]")) = Some (VArr [])
  /\ parseKitPatchFromLLM (json "[]") = Ok (VObj []).
Proof. split; vm_compute; reflexivity. Qed.

(** C3, as amended. For [{"typography":[{"_id":"x"}]}] the patch is
    [{typography: []}]: the entry, which has nothing but its identifier, is
    dropped, and the [typography] key stays, with an empty array, because
    the array of the model output was not empty. *)
Theorem parseKitPatchFromLLM_typography_id_only :
  parseKitPatchFromLLM (json "{'typography':[{'_id':'x'}]}")
  = Ok (VObj [ (lit "typography", VArr []) ]).
Proof. vm_compute. reflexivity. Qed.

(** C6. For a JSON text [s], stripping the fence of the fence-wrapped form
    (the fence tagged [json], a line feed, [s], a line feed, the closing
    fence) and trimming the interior gives the trimmed text [s], which is
    also what is left of the bare form, and both normalizers give the same
    result on the two forms. The same holds with any white space, or none,
    in place of the line feeds. *)
Theorem fenced_same_result
    (s : jsstring) (dictionary : list value)
    (image_slots edit_capabilities : value) :
  (exists v, JSON_parse s = Some v) ->
  unfence (fenced s) = trim s
  /\ unfence s = trim s
  /\ parseEditsFromLLM (fenced s) dictionary image_slots edit_capabilities
     = parseEditsFromLLM s dictionary image_slots edit_capabilities
  /\ parseKitPatchFromLLM (fenced s) = parseKitPatchFromLLM s
  /\ (forall w1 w2,
      forallb is_ws w1 = true -> forallb is_ws w2 = true ->
      parseEditsFromLLM (fenced_with w1 w2 s) dictionary image_slots
        edit_capabilities
      = parseEditsFromLLM s dictionary image_slots edit_capabilities
      /\ parseKitPatchFromLLM (fenced_with w1 w2 s) = parseKitPatchFromLLM s).
Proof.
  intros [v Hv].
  assert (H : forall w1 w2,
             forallb is_ws w1 = true -> forallb is_ws w2 = true ->
             unfence (fenced_with w1 w2 s) = unfence s).
  { intros w1 w2 Hw1 Hw2. exact (unfence_fenced_text _ _ _ _ Hw1 Hw2 Hv). }
  assert (Hboth : forall w1 w2,
             forallb is_ws w1 = true -> forallb is_ws w2 = true ->
             parseEditsFromLLM (fenced_with w1 w2 s) dictionary image_slots
               edit_capabilities
             = parseEditsFromLLM s dictionary image_slots edit_capabilities
             /\ parseKitPatchFromLLM (fenced_with w1 w2 s)
                = parseKitPatchFromLLM s).
  { intros w1 w2 Hw1 Hw2. unfold parseEditsFromLLM, parseKitPatchFromLLM.
    rewrite (H w1 w2 Hw1 Hw2). auto. }
  split; [apply (unfence_fenced_with [10] [10]); reflexivity|].
  split; [exact (JSON_parse_unfence _ _ Hv)|].
  split; [apply (Hboth [10] [10]); reflexivity|].
  split; [apply (Hboth [10] [10]); reflexivity|exact Hboth].
Qed.

(** C8. The raw texts [not json], which is not JSON, and [42], which is a
    JSON number, make both normalizers raise their invalid-response error,
    whatever the dictionary, the image slots and the capabilities. *)
Theorem invalid_responses_rejected
    (dictionary : list value) (image_slots edit_capabilities : value) :
  parseEditsFromLLM (lit "not json") dictionary image_slots edit_capabilities
  = Throw (Error (lit "Invalid LLM response"))
  /\ parseEditsFromLLM (lit "42") dictionary image_slots edit_capabilities
     = Throw (Error (lit "Invalid LLM response"))
  /\ parseKitPatchFromLLM (lit "not json")
     = Throw (Error (lit "Invalid LLM response for kit"))
  /\ parseKitPatchFromLLM (lit "42")
     = Throw (Error (lit "Invalid LLM response for kit"))
  /\ JSON_parse (unfence (lit "not json")) = None
  /\ JSON_parse (unfence (lit "42")) = Some (VNum (lit "42")).
Proof. repeat split; vm_compute; reflexivity. Qed.

End Shapes.

(** C3 as stated fails: the patch is not the empty patch. *)
Lemma parseKitPatchFromLLM_typography_not_omitted :
  parseKitPatchFromLLM (NS:=integer_literals) (json "{'typography':[{'_id':'x'}]}")
  <> Ok (VObj []).
Proof. vm_compute. discriminate. Qed.

Section UntrimmedValue.
Context {NS : NumberSem}.

(** C7 fails on the code. The value of a color is trimmed only when it is
    a string; a value of another type is converted by [String] and kept as
    it comes. The entry [{_id:'p', value:[' x ']}] is emitted with the value
    [' x '], which is not trimmed, and the entry [{_id:'p', value:[' ']}]
    with the value [' '], which is blank and yet passes the filter that
    drops the empty values. *)
Theorem parseKitPatchFromLLM_value_not_trimmed :
  parseKitPatchFromLLM (json "{'colors':[{'_id':'p','value':[' x ']}]}")
  = Ok (VObj [ (lit "colors",
                VArr [ VObj [ (lit "_id", VStr (lit "p"));
                              (lit "title", VStr []);
                              (lit "value", VStr (lit " x ")) ] ]) ])
  /\ ~ trimmed (lit " x ")
  /\ parseKitPatchFromLLM (json "{'colors':[{'_id':'p','value':[' ']}]}")
     = Ok (VObj [ (lit "colors",
                   VArr [ VObj [ (lit "_id", VStr (lit "p"));
                                 (lit "title", VStr []);
                                 (lit "value", VStr (lit " ")) ] ]) ])
  /\ trim (lit " ") = [].
Proof.
  split; [vm_compute; reflexivity|]. split; [|split].
  - unfold trimmed. vm_compute. discriminate.
  - vm_compute. reflexivity.
  - reflexivity.
Qed.

End UntrimmedValue.

Lemma text_only_drops_element_witness :
  let raw := json "[{'id':'a','new_text':'Hi'},{'id':'b','new_url':'u'}]" in
  let pre := [ VObj [ (lit "id", VStr (lit "a")); (lit "new_text", VStr (lit "Hi")) ] ] in
  let item := VObj [ (lit "id", VStr (lit "b")); (lit "new_url", VStr (lit "u")) ] in
  JSON_parse (unfence raw) = Some (VArr (pre ++ item :: []))
  /\ nullish (get item (lit "new_text")) = true
  /\ survives (NS:=integer_literals) [] [] [VStr (lit "text")] item = false.
Proof.
  intros raw pre item.
  assert (Hp : JSON_parse (unfence raw) = Some (VArr (pre ++ item :: [])))
    by (vm_compute; reflexivity).
  assert (Hn : nullish (get item (lit "new_text")) = true) by reflexivity.
  split; [exact Hp|]. split; [exact Hn|].
  exact (proj1 (proj2
    (text_only_drops_element (NS:=integer_literals)
       raw [] VUndefined pre [] item Hp Hn))).
Defined.

Lemma resolveIdPath_first_match_witness :
  let item := VObj [ (lit "path", VStr (lit "/a")); (lit "new_text", VStr (lit "Hi")) ] in
  let d := VObj [ (lit "id", VStr (lit "a")); (lit "path", VStr (lit "/a")) ] in
  exists r, resolveIdPath (NS:=integer_literals) item [d] [] = Ok r
            /\ get r (lit "id") = VStr (lit "a")
            /\ get r (lit "path") = VStr (lit "/a").
Proof.
  intros item d.
  assert (Hd : Forall (fun x => is_object x = true) [d])
    by (constructor; [reflexivity|constructor]).
  assert (Hs : Forall (fun x : value => is_object x = true) [])
    by constructor.
  destruct (proj1 (resolveIdPath_first_match (NS:=integer_literals)
                     item [d] [] Hd Hs)
              [] d [] eq_refl (List.Forall_nil _) eq_refl)
    as (r & Hr & Hid & Hpath).
  exists r. split; [exact Hr|]. split; [exact Hid|exact Hpath].
Defined.

Lemma fenced_same_result_witness :
  let s := json "[{'path':'/a','new_text':'Hi'}]" in
  (exists v, JSON_parse s = Some v)
  /\ parseEditsFromLLM (NS:=integer_literals) (fenced s) [] VUndefined VUndefined
     = parseEditsFromLLM (NS:=integer_literals) s [] VUndefined VUndefined
  /\ parseKitPatchFromLLM (NS:=integer_literals) (fenced s)
     = parseKitPatchFromLLM (NS:=integer_literals) s.
Proof.
  intros s.
  assert (Hs : exists v, JSON_parse s = Some v)
    by (eexists; vm_compute; reflexivity).
  split; [exact Hs|].
  destruct (fenced_same_result (NS:=integer_literals) s []
              VUndefined VUndefined Hs)
    as (_ & _ & He & Hk & _).
  split; [exact He|exact Hk].
Defined.

Lemma parseKitPatchFromLLM_colors_witness :
  let raw := json "{'colors':[{'_id':'primary','value':'  #112233  '}]}" in
  let obj := VObj [ (lit "colors",
                     VArr [ VObj [ (lit "_id", VStr (lit "primary"));
                                   (lit "value", VStr (lit "  #112233  ")) ] ]) ] in
  let patch := VObj [ (lit "colors",
                       VArr [ VObj [ (lit "_id", VStr (lit "primary"));
                                     (lit "title", VStr []);
                                     (lit "value", VStr (lit "#112233")) ] ]) ] in
  JSON_parse (unfence raw) = Some obj
  /\ parseKitPatchFromLLM (NS:=integer_literals) raw = Ok patch
  /\ (has_prop patch (lit "colors") = true
      <-> exists c cs, get obj (lit "colors") = VArr (c :: cs)).
Proof.
  intros raw obj patch.
  assert (Hp : JSON_parse (unfence raw) = Some obj) by (vm_compute; reflexivity).
  assert (Hr : parseKitPatchFromLLM (NS:=integer_literals) raw = Ok patch)
    by (vm_compute; reflexivity).
  split; [exact Hp|]. split; [exact Hr|].
  exact (proj1 (parseKitPatchFromLLM_colors (NS:=integer_literals)
                  raw obj patch Hp Hr)).
Defined.

(** ** The store of recent requests *)

Lemma holds_records h recs : holds h recs -> records_at h requests = recs.
Proof.
  intros (arr & Harr & Hrecs & _). unfold records_at, array_at. rewrite Harr.
  clear Harr. induction Hrecs as [|l r arr recs Hl _ IH]; [reflexivity|].
  cbn. unfold record_at at 1. rewrite Hl. cbn. f_equal. exact IH.
Qed.

Lemma holds_init : holds init [].
Proof.
  exists []. split; [apply lookup_singleton_eq|]. split; [constructor|].
  unfold MAX_REQUESTS. cbn [length]. lia.
Qed.

Lemma take_app_take {A} (n : nat) (a b : list A) :
  take n (a ++ take n b) = take n (a ++ b).
Proof.
  rewrite !take_app, take_take. do 2 f_equal. lia.
Qed.

Lemma holds_add h recs c :
  holds h recs -> holds (add h c) (take MAX_REQUESTS (record_of c :: recs)).
Proof.
  intros (arr & Harr & Hrecs & Hlen).
  unfold add, addRequest, alloc.
  set (l := fresh (dom h)).
  assert (Hl : h !! l = None) by (apply not_elem_of_dom, is_fresh).
  assert (Hlr : l <> requests) by (intros E; rewrite E in Hl; congruence).
  fold (record_of c).
  set (h1 := <[l := CRec (record_of c)]> h).
  assert (H1 : array_at h1 requests = arr).
  { unfold array_at, h1. rewrite lookup_insert_ne by exact Hlr.
    rewrite Harr. reflexivity. }
  rewrite H1.
  set (h2 := <[requests := CArr (l :: arr)]> h1).
  assert (H2 : array_at h2 requests = l :: arr).
  { unfold array_at, h2. rewrite lookup_insert_eq. reflexivity. }
  rewrite H2.
  assert (Hall : Forall2 (fun l r => h2 !! l = Some (CRec r))
                   (l :: arr) (record_of c :: recs)).
  { constructor.
    - unfold h2, h1. rewrite lookup_insert_ne by (intros E; apply Hlr; auto).
      apply lookup_insert_eq.
    - eapply Forall2_impl; [exact Hrecs|]. intros x r Hx. cbn beta in Hx.
      unfold h2, h1.
      rewrite lookup_insert_ne by (intros E; rewrite <- E in Hx; congruence).
      rewrite lookup_insert_ne by (intros E; rewrite <- E in Hx; congruence).
      exact Hx. }
  pose proof (Forall2_length _ _ _ Hrecs) as Hlen2.
  destruct (MAX_REQUESTS <? length (l :: arr))%nat eqn:Hfull.
  - apply Nat.ltb_lt in Hfull.
    exists (removelast (l :: arr)). split; [apply lookup_insert_eq|]. split.
    + rewrite removelast_firstn_len.
      replace (Init.Nat.pred (length (l :: arr))) with MAX_REQUESTS
        by (cbn [length] in *; unfold MAX_REQUESTS in *; lia).
      apply Forall2_take.
      eapply Forall2_impl; [exact Hall|]. intros x r Hx. cbn beta in Hx.
      rewrite lookup_insert_ne; [exact Hx|].
      intros E. rewrite <- E in Hx. unfold h2 in Hx.
      rewrite lookup_insert_eq in Hx. discriminate.
    + rewrite length_take. lia.
  - apply Nat.ltb_ge in Hfull.
    exists (l :: arr). split; [apply lookup_insert_eq|].
    rewrite take_ge by (cbn [length] in *; lia).
    split; [exact Hall|]. cbn [length] in *. lia.
Qed.

Lemma holds_fold cs h recs :
  holds h recs ->
  holds (fold_left add cs h)
        (take MAX_REQUESTS (rev (List.map record_of cs) ++ recs)).
Proof.
  revert h recs. induction cs as [|c cs IH]; intros h recs Hh.
  - cbn. rewrite take_ge; [exact Hh|]. destruct Hh as (_ & _ & _ & Hlen). exact Hlen.
  - cbn [fold_left List.map rev].
    rewrite <- app_assoc. cbn [app].
    rewrite <- take_app_take. apply IH, holds_add, Hh.
Qed.

Lemma holds_run cs :
  holds (run cs) (take MAX_REQUESTS (rev (List.map record_of cs))).
Proof.
  unfold run. rewrite <- (app_nil_r (rev _)). apply holds_fold, holds_init.
Qed.

Lemma run_records cs :
  records_at (run cs) requests = take MAX_REQUESTS (rev (List.map record_of cs)).
Proof. apply holds_records, holds_run. Qed.

Lemma record_of_kit_or_page c : kit_or_page (record_of c).
Proof.
  unfold kit_or_page, record_of, new_record. cbn [contextType].
  destruct (str_is (c_contextType c) (lit "kit")); auto.
Qed.

Lemma omap_ext_all {A B} (f g : A -> option B) (l : list A) :
  (forall x, f x = g x) -> omap f l = omap g l.
Proof.
  intros H. induction l as [|x xs IH]; [reflexivity|].
  cbn. rewrite H, IH. reflexivity.
Qed.

(** Writing an array into a cell that holds no record changes neither the
    records nor what the other arrays list. *)
Lemma record_at_array_write h l elems x :
  record_at h l = None -> record_at (<[l := CArr elems]> h) x = record_at h x.
Proof.
  intros Hl. unfold record_at in *. destruct (decide (l = x)) as [<-|Hx].
  - rewrite lookup_insert_eq. symmetry. exact Hl.
  - rewrite lookup_insert_ne by exact Hx. reflexivity.
Qed.

Lemma records_at_array_write h l elems k :
  record_at h l = None -> l <> k ->
  array_at (<[l := CArr elems]> h) k = array_at h k
  /\ records_at (<[l := CArr elems]> h) k = records_at h k.
Proof.
  intros Hl Hk.
  assert (Ha : array_at (<[l := CArr elems]> h) k = array_at h k).
  { unfold array_at. rewrite lookup_insert_ne by exact Hk. reflexivity. }
  split; [exact Ha|]. unfold records_at. rewrite Ha.
  apply omap_ext_all. intros x. apply record_at_array_write, Hl.
Qed.

Lemma getRequests_copy h recs :
  holds h recs ->
  let '(l, h') := getRequests h in
  l <> requests
  /\ array_at h' l = array_at h requests
  /\ records_at h' l = recs
  /\ records_at h' requests = recs
  /\ forall elems,
       array_at (array_write l elems h') requests = array_at h requests
       /\ records_at (array_write l elems h') requests = recs.
Proof.
  intros Hh. pose proof (holds_records _ _ Hh) as Hrecs.
  destruct Hh as (arr & Harr & _ & _).
  unfold getRequests, alloc, array_write.
  set (l := fresh (dom h)).
  assert (Hl : h !! l = None) by (apply not_elem_of_dom, is_fresh).
  assert (Hlr : l <> requests) by (intros E; rewrite E in Hl; congruence).
  assert (Hrl : record_at h l = None) by (unfold record_at; rewrite Hl; reflexivity).
  set (h' := <[l := CArr (array_at h requests)]> h).
  assert (Hrl' : record_at h' l = None).
  { unfold record_at, h'. rewrite lookup_insert_eq. reflexivity. }
  destruct (records_at_array_write h l (array_at h requests) requests Hrl Hlr)
    as [Ha Hr]. fold h' in Ha, Hr.
  split; [exact Hlr|]. split; [|split; [|split]].
  - unfold array_at at 1. unfold h'. rewrite lookup_insert_eq. reflexivity.
  - unfold records_at. unfold array_at at 1. unfold h' at 2.
    rewrite lookup_insert_eq. rewrite <- Hrecs. unfold records_at.
    apply omap_ext_all. intros x. apply record_at_array_write, Hrl.
  - rewrite Hr. exact Hrecs.
  - intros elems.
    destruct (records_at_array_write h' l elems requests Hrl' Hlr) as [Ha' Hr'].
    rewrite Ha', Hr', Ha, Hr. auto.
Qed.

(** The copy is shallow: the returned array lists the records of the
    module's array themselves, and a write to the newest of them through
    the copy shows in the module's array. *)
Lemma getRequests_shares_records h r recs :
  holds h (r :: recs) ->
  let '(l, h') := getRequests h in
  exists lr rest,
    array_at h' l = lr :: rest
    /\ forall r', head (records_at (record_write lr r' h') requests) = Some r'.
Proof.
  intros (arr & Harr & Hrecs & _).
  unfold getRequests, alloc, record_write.
  set (l := fresh (dom h)).
  assert (Hl : h !! l = None) by (apply not_elem_of_dom, is_fresh).
  assert (Hlr : l <> requests) by (intros E; rewrite E in Hl; congruence).
  inversion Hrecs as [|lr r0 rest recs0 Hr _ E1 E2]. subst.
  assert (Hne : lr <> requests) by (intros E; rewrite E in Hr; congruence).
  assert (Hnl : lr <> l) by (intros E; rewrite E in Hr; congruence).
  exists lr, rest. split.
  - unfold array_at. rewrite lookup_insert_eq, Harr. reflexivity.
  - intros r'. unfold records_at, array_at.
    rewrite lookup_insert_ne by exact Hne.
    rewrite lookup_insert_ne by exact Hlr.
    rewrite Harr. cbn. unfold record_at at 1.
    rewrite lookup_insert_eq. reflexivity.
Qed.

(** C9. After any calls of [addRequest], the array of the module lists the
    records of the most recent calls, newest first and at most 50 of them.
    One more call puts its record in front and, when that makes 51, removes
    the one at the back, the oldest. After 60 calls exactly 50 records
    remain, those of the last 50 calls, the first 10 being gone.
    [getRequests] returns another array that lists the same records in the
    same order, and no write to the returned array changes what the array
    of the module lists. *)
Theorem audit_buffer (cs : list call) :
  let h := run cs in
  records_at h requests = take MAX_REQUESTS (rev (List.map record_of cs))
  /\ (length (records_at h requests) <= 50)%nat
  /\ (forall c,
       records_at (add h c) requests
       = take MAX_REQUESTS (record_of c :: records_at h requests))
  /\ (length cs = 60%nat ->
      length (records_at h requests) = 50%nat
      /\ records_at h requests = rev (List.map record_of (drop 10 cs)))
  /\ (let '(l, h') := getRequests h in
      l <> requests
      /\ array_at h' l = array_at h requests
      /\ records_at h' l = records_at h requests
      /\ records_at h' requests = records_at h requests
      /\ forall elems,
           array_at (array_write l elems h') requests = array_at h requests
           /\ records_at (array_write l elems h') requests
              = records_at h requests).
Proof.
  intros h. pose proof (holds_run cs) as Hh. fold h in Hh.
  pose proof (holds_records _ _ Hh) as Hrecs.
  split; [exact Hrecs|]. split; [|split; [|split]].
  - rewrite Hrecs, length_take. unfold MAX_REQUESTS. lia.
  - intros c. rewrite Hrecs. apply holds_records, holds_add, Hh.
  - intros Hlen. rewrite Hrecs. unfold MAX_REQUESTS.
    rewrite firstn_rev, length_map, Hlen, skipn_map.
    split; [|reflexivity].
    rewrite length_rev, length_map, length_drop, Hlen. reflexivity.
  - rewrite Hrecs. apply getRequests_copy, Hh.
Qed.

(** C10. After any calls of [addRequest], with any values as their
    [contextType], every record the array of the module lists has the
    [contextType] ['kit'] or ['page']; the record made for a call has
    ['kit'] exactly when the argument is the string ['kit']. *)
Theorem contextType_kit_or_page (cs : list call) :
  Forall kit_or_page (records_at (run cs) requests)
  /\ (forall id body response ctx now,
      let r := new_record id body response ctx now in
      (ctx = VStr (lit "kit") -> contextType r = lit "kit")
      /\ (ctx <> VStr (lit "kit") -> contextType r = lit "page")).
Proof.
  split.
  - rewrite run_records. apply Forall_take, Forall_rev, Forall_map.
    apply List.Forall_forall. intros c _. apply record_of_kit_or_page.
  - intros id body response ctx now r. subst r. cbn [contextType new_record].
    split.
    + intros ->. reflexivity.
    + intros Hne. destruct (str_is ctx (lit "kit")) eqn:E; [|reflexivity].
      exfalso. apply Hne. destruct ctx; try discriminate.
      cbn [str_is] in E. apply str_eqb_eq in E. rewrite E. reflexivity.
Qed.

Lemma audit_buffer_witness :
  let cs := List.map numbered (seq 0 60) in
  length cs = 60%nat
  /\ length (records_at (run cs) requests) = 50%nat
  /\ records_at (run cs) requests = rev (List.map record_of (drop 10 cs)).
Proof.
  intros cs.
  assert (Hlen : length cs = 60%nat) by reflexivity.
  split; [exact Hlen|].
  exact (proj1 (proj2 (proj2 (proj2 (audit_buffer cs)))) Hlen).
Defined.

(** * Further properties of the normalizers *)

(** ** Reading the fields of a record under construction *)

Lemma get_obj_set ps k v k' :
  get (VObj (obj_set ps k v)) k' = if str_eqb k k' then v else get (VObj ps) k'.
Proof.
  cbn [get]. rewrite lookup_obj_set. destruct (str_eqb k k'); reflexivity.
Qed.

Lemma get_copy_prop src k ps k' :
  get (VObj (copy_prop src k ps)) k' =
  if str_eqb k k' && negb (nullish (get src k)) then get src k
  else get (VObj ps) k'.
Proof.
  unfold copy_prop. destruct (nullish (get src k)).
  - rewrite andb_false_r. reflexivity.
  - rewrite get_obj_set, andb_true_r. reflexivity.
Qed.

Lemma keys_obj_set ps k v allowed :
  In k allowed -> incl (List.map fst ps) allowed ->
  incl (List.map fst (obj_set ps k v)) allowed.
Proof.
  intros Hk. induction ps as [|[k0 v0] ps IH]; cbn [obj_set List.map fst].
  - intros _ x [<-|[]]. exact Hk.
  - intros Hps. destruct (str_eqb k0 k) eqn:E; cbn [List.map fst].
    + apply str_eqb_eq in E as <-. exact Hps.
    + apply incl_cons; [apply Hps; left; reflexivity|].
      apply IH. intros x Hx. apply Hps. right. exact Hx.
Qed.

Lemma keys_copy_prop src k ps allowed :
  In k allowed -> incl (List.map fst ps) allowed ->
  incl (List.map fst (copy_prop src k ps)) allowed.
Proof.
  intros Hk Hps. unfold copy_prop. destruct (nullish (get src k)); [exact Hps|].
  apply keys_obj_set; assumption.
Qed.

Lemma In_edit_fields k : existsb (str_eqb k) edit_fields = true -> In k edit_fields.
Proof.
  intros H. apply existsb_exists in H as (x & Hx & E).
  apply str_eqb_eq in E as ->. exact Hx.
Qed.

(** Comparisons of two literal names are decided by evaluation. *)
Ltac eval_names :=
  repeat match goal with
         | |- context [str_eqb (lit ?a) (lit ?b)] =>
             let r := eval vm_compute in (str_eqb (lit a) (lit b)) in
             change (str_eqb (lit a) (lit b)) with r
         end.

Ltac keys_tac :=
  lazymatch goal with
  | |- incl (List.map fst (if ?c then _ else _)) _ =>
      destruct c; keys_tac
  | |- incl (List.map fst (copy_prop _ _ _)) _ =>
      apply keys_copy_prop; [apply In_edit_fields; reflexivity | keys_tac]
  | |- incl (List.map fst (obj_set _ _ _)) _ =>
      apply keys_obj_set; [apply In_edit_fields; reflexivity | keys_tac]
  | |- incl _ _ =>
      intros ? [<-|[<-|[]]]; apply In_edit_fields; reflexivity
  end.

Lemma get_ids k1 a k2 b k :
  get (VObj [ (k1, a); (k2, b) ]) k =
  if str_eqb k1 k then a else if str_eqb k2 k then b else VUndefined.
Proof.
  cbn [get lookup_prop]. destruct (str_eqb k1 k); [reflexivity|].
  destruct (str_eqb k2 k); reflexivity.
Qed.

Ltac read_fields :=
  rewrite ?get_copy_prop, ?get_obj_set, ?get_ids; eval_names;
  cbn [andb negb].

Lemma VObj_inj a b : VObj a = VObj b -> a = b.
Proof. intros H. injection H. auto. Qed.

Ltac settle_fields :=
  unfold gated, grants; cbn [nullish negb andb];
  repeat match goal with
         | E : nullish ?x = _ |- context [nullish ?x] =>
             rewrite E; cbn [nullish negb andb]
         | |- context [nullish (get ?item ?k)] =>
             let E := fresh "E" in
             destruct (nullish (get item k)) eqn:E; cbn [nullish negb andb]
         | |- context [includes ?c ?k] =>
             destruct (includes c k); cbn [nullish negb andb]
         end;
  try reflexivity.

Section RecordContents.
Context {NS : NumberSem}.

Lemma filterByCapabilities_reads edit caps out :
  filterByCapabilities edit caps = VObj out ->
  let text := grants caps "text" && negb (nullish (get edit (lit "new_text"))) in
  get (VObj out) (lit "id") = get edit (lit "id")
  /\ get (VObj out) (lit "path") = get edit (lit "path")
  /\ get (VObj out) (lit "new_text")
     = gated (grants caps "text") (get edit (lit "new_text"))
  /\ get (VObj out) (lit "field") = gated text (get edit (lit "field"))
  /\ get (VObj out) (lit "item_index") = gated text (get edit (lit "item_index"))
  /\ get (VObj out) (lit "new_url")
     = gated (grants caps "url") (get edit (lit "new_url"))
  /\ get (VObj out) (lit "new_link")
     = gated (grants caps "url") (get edit (lit "new_link"))
  /\ get (VObj out) (lit "new_image_url")
     = gated (grants caps "image") (get edit (lit "new_image_url"))
  /\ get (VObj out) (lit "new_attachment_id")
     = gated (grants caps "image") (get edit (lit "new_attachment_id"))
  /\ get (VObj out) (lit "new_image")
     = gated (grants caps "image") (get edit (lit "new_image"))
  /\ incl (List.map fst out) edit_fields.
Proof.
  unfold filterByCapabilities, grants, gated. cbv zeta.
  match goal with
  | |- (if ?c then VObj ?o else VNull) = _ -> _ =>
      destruct c; [|discriminate]; intros H; apply VObj_inj in H; subst out
  end.
  destruct (includes caps (lit "text")), (includes caps (lit "url")),
    (includes caps (lit "image")); cbn [andb];
    destruct (nullish (get edit (lit "new_text"))) eqn:Ent; cbn [negb].
  all: repeat split; try keys_tac; read_fields.
  all: try reflexivity.
  all: try (rewrite Ent; reflexivity).
Qed.

Lemma resolveIdPath_keeps item d s r :
  resolveIdPath item d s = Ok r ->
  (nullish (get item (lit "id")) = false -> get r (lit "id") = get item (lit "id"))
  /\ (nullish (get item (lit "path")) = false
      -> get r (lit "path") = get item (lit "path")).
Proof.
  unfold resolveIdPath.
  destruct (findM (same_slot item) d); cbn [bind]; [|discriminate].
  destruct (findM (same_slot item) s); cbn [bind]; [|discriminate].
  intros H. apply Ok_inj in H. subst r. rewrite !get_ids. eval_names.
  split; intros Hn.
  - destruct (get item (lit "id")); try discriminate; reflexivity.
  - destruct (get item (lit "path")); try discriminate; reflexivity.
Qed.

Lemma to_edit_reads d s c item out :
  to_edit d s c item = Ok (VObj out) -> record_reads c item (VObj out).
Proof.
  unfold to_edit.
  destruct (resolveIdPath item d s) as [r|] eqn:Er; cbn [bind]; [|discriminate].
  destruct (resolveIdPath_keeps _ _ _ _ Er) as [Kid Kpath].
  destruct (nullish (get item (lit "new_text"))) eqn:Ent; cbn [negb bind].
  - intros H. apply Ok_inj in H. apply filterByCapabilities_reads in H.
    destruct H as (H1 & H2 & H3 & H4 & H5 & H6 & H7 & H8 & H9 & H10 & H11).
    unfold record_reads. rewrite Ent, andb_false_r.
    rewrite H1, H2, H3, H4, H5, H6, H7, H8, H9, H10. read_fields.
    clear H1 H2 H3 H4 H5 H6 H7 H8 H9 H10.
    repeat split; try exact H11; try settle_fields; auto.
  - destruct (ToString (get item (lit "new_text"))) as [t|] eqn:Et; cbn [bind];
      [|discriminate].
    intros H. apply Ok_inj in H. apply filterByCapabilities_reads in H.
    destruct H as (H1 & H2 & H3 & H4 & H5 & H6 & H7 & H8 & H9 & H10 & H11).
    unfold record_reads. rewrite Ent, andb_true_r.
    rewrite H1, H2, H3, H4, H5, H6, H7, H8, H9, H10. read_fields.
    clear H1 H2 H3 H4 H5 H6 H7 H8 H9 H10.
    split; [|repeat split; try exact H11; try settle_fields; auto].
    unfold grants, gated. destruct (includes c (lit "text")); cbn [andb negb nullish].
    + exists t. split; [exact Et|reflexivity].
    + reflexivity.
Qed.

End RecordContents.

Lemma has_key_obj_set ps k v k' :
  has_key (obj_set ps k v) k' = str_eqb k k' || has_key ps k'.
Proof.
  unfold has_key. rewrite lookup_obj_set. destruct (str_eqb k k'); reflexivity.
Qed.

Lemma has_key_copy_prop src k ps k' :
  has_key (copy_prop src k ps) k' =
  str_eqb k k' && negb (nullish (get src k)) || has_key ps k'.
Proof.
  unfold copy_prop. destruct (nullish (get src k)).
  - rewrite andb_false_r. reflexivity.
  - rewrite has_key_obj_set, andb_true_r. reflexivity.
Qed.

Lemma has_key_ids k1 (a : value) k2 (b : value) k :
  has_key [ (k1, a); (k2, b) ] k = str_eqb k1 k || str_eqb k2 k.
Proof.
  unfold has_key. cbn [lookup_prop]. destruct (str_eqb k1 k); [reflexivity|].
  destruct (str_eqb k2 k); reflexivity.
Qed.

Ltac read_keys :=
  rewrite ?has_key_copy_prop, ?has_key_obj_set, ?has_key_ids; eval_names;
  cbn [andb orb negb].

Lemma Forall2_Forall_r {A B} (R : A -> B -> Prop) (P : B -> Prop) l ys :
  Forall2 R l ys -> Forall P ys -> Forall2 (fun x y => R x y /\ P y) l ys.
Proof.
  induction 1 as [|x y l ys Hxy _ IH]; intros Hp; [constructor|].
  apply List.Forall_cons_iff in Hp as [Hy Hp]. constructor; auto.
Qed.

Lemma mapM_ext {A B} (f g : A -> result B) l :
  (forall x, f x = g x) -> mapM f l = mapM g l.
Proof.
  intros H. induction l as [|x l IH]; cbn; [reflexivity|].
  rewrite H, IH. reflexivity.
Qed.

Section EditContents.
Context {NS : NumberSem}.

Lemma filterByCapabilities_keys edit caps out k tag :
  filterByCapabilities edit caps = VObj out ->
  In (k, tag) field_capability -> has_key out k = true -> grants caps tag = true.
Proof.
  unfold filterByCapabilities, grants. cbv zeta.
  match goal with
  | |- (if ?c then VObj ?o else VNull) = _ -> _ =>
      destruct c; [|discriminate]; intros H; apply VObj_inj in H; subst out
  end.
  intros Hin. unfold field_capability in Hin; cbn [In] in Hin.
  repeat (destruct Hin as [Hin|Hin];
          [apply pair_equal_spec in Hin as [<- <-]|]); try destruct Hin.
  all: destruct (includes caps (lit "text")), (includes caps (lit "url")),
    (includes caps (lit "image")); cbn [andb]; try (intros _; reflexivity).
  all: destruct (nullish (get edit (lit "new_text"))); cbn [negb].
  all: read_keys; discriminate.
Qed.



(** X1. For a raw text that holds a JSON array, the records
    [parseEditsFromLLM] returns are, in the order of the array, the
    readings of the surviving elements: each payload field of the element
    whose edit type is granted is in the record with the element's value,
    [new_text] converted by [String]; [field] and [item_index] follow
    [new_text]; a field whose type is not granted, or that the element lacks,
    is absent; an id and a path the element has are kept; and the record
    has no other property. *)
Theorem parseEditsFromLLM_reads
    (raw : jsstring) (dictionary : list value)
    (image_slots edit_capabilities : value) (arr out : list value) :
  JSON_parse (unfence raw) = Some (VArr arr) ->
  parseEditsFromLLM raw dictionary image_slots edit_capabilities = Ok out ->
  let slots := array_or image_slots [] in
  let caps := array_or edit_capabilities [VStr (lit "text")] in
  Forall2 (record_reads caps) (List.filter (survives dictionary slots caps) arr) out.
Proof.
  intros Hparse Hout slots caps.
  rewrite (parseEditsFromLLM_array _ _ _ _ _ Hparse) in Hout.
  destruct (edits_of_Ok _ _ _ _ _ Hout) as [H2 Hw].
  eapply Forall2_impl; [exact (Forall2_Forall_r _ _ _ _ H2 Hw)|].
  intros item e [He [_ Hp]]. cbn beta in He.
  destruct (to_edit_cases _ _ _ _ _ He) as [->|(o & -> & _)].
  - exfalso. apply List.Exists_exists in Hp as (k & _ & Hk). discriminate.
  - apply (to_edit_reads _ _ _ _ _ He).
Qed.

Lemma to_edit_filtered d s c item e :
  to_edit d s c item = Ok e -> exists edit, e = filterByCapabilities edit c.
Proof.
  unfold to_edit.
  destruct (resolveIdPath item d s) as [r|]; cbn [bind]; [|discriminate].
  match goal with
  | |- (let* edit := ?m in _) = _ -> _ =>
      destruct m as [ps|]; cbn [bind]; [|discriminate]
  end.
  intros H. apply Ok_inj in H. subst e. eauto.
Qed.

(** X2. A record that [parseEditsFromLLM] returns has a field only when the
    edit type of that field is granted: [new_text], [field] and
    [item_index] only with ["text"], [new_url] and [new_link] only with
    ["url"], the three image fields only with ["image"]. *)
Theorem ungranted_fields_absent
    (raw : jsstring) (dictionary : list value)
    (image_slots edit_capabilities : value) (arr out : list value) :
  JSON_parse (unfence raw) = Some (VArr arr) ->
  parseEditsFromLLM raw dictionary image_slots edit_capabilities = Ok out ->
  let caps := array_or edit_capabilities [VStr (lit "text")] in
  forall e k tag,
    In e out -> In (k, tag) field_capability ->
    has_prop e k = true -> grants caps tag = true.
Proof.
  intros Hparse Hout caps e k tag He Hk Hhas.
  rewrite (parseEditsFromLLM_array _ _ _ _ _ Hparse) in Hout.
  destruct (edits_of_Ok _ _ _ _ _ Hout) as [H2 _].
  destruct (Forall2_In_r _ _ _ _ H2 He) as (item & _ & Hitem).
  destruct (to_edit_filtered _ _ _ _ _ Hitem) as [edit Hedit].
  destruct e as [| | | | | |o]; try discriminate.
  exact (filterByCapabilities_keys _ _ _ _ _ (eq_sym Hedit) Hk Hhas).
Qed.



Lemma filterByCapabilities_membership edit caps caps' :
  (forall tag, In tag ["text"; "url"; "image"]%string ->
               grants caps tag = grants caps' tag) ->
  filterByCapabilities edit caps = filterByCapabilities edit caps'.
Proof.
  intros H. unfold filterByCapabilities.
  assert (H1 := H "text"%string). assert (H2 := H "url"%string).
  assert (H3 := H "image"%string). unfold grants in H1, H2, H3.
  rewrite H1, H2, H3 by (cbn; tauto). reflexivity.
Qed.

(** X4. The capability list acts only through which of ["text"], ["url"]
    and ["image"] it contains: two lists that agree on these three give the
    same result, so that order, repetitions and other entries are of no
    effect. *)
Theorem capabilities_by_membership
    (raw : jsstring) (dictionary : list value) (image_slots : value)
    (caps caps' : list value) :
  (forall tag, In tag ["text"; "url"; "image"]%string ->
               grants caps tag = grants caps' tag) ->
  parseEditsFromLLM raw dictionary image_slots (VArr caps)
  = parseEditsFromLLM raw dictionary image_slots (VArr caps').
Proof.
  intros H. unfold parseEditsFromLLM.
  destruct (JSON_parse (unfence raw)) as [[| | | | |arr|]|]; try reflexivity.
  cbn [array_or]. unfold edits_of.
  rewrite (mapM_ext (to_edit dictionary (array_or image_slots []) caps)
             (to_edit dictionary (array_or image_slots []) caps')); [reflexivity|].
  intros item. unfold to_edit.
  destruct (resolveIdPath item dictionary (array_or image_slots [])); cbn [bind];
    [|reflexivity].
  match goal with
  | |- (let* edit := ?m in _) = _ => destruct m; cbn [bind]; [|reflexivity]
  end.
  rewrite (filterByCapabilities_membership _ _ _ H). reflexivity.
Qed.

Lemma candidates_are_objects item : is_candidate item = true -> is_object item = true.
Proof.
  destruct item; try reflexivity; unfold is_candidate; cbn [get nullish negb orb];
    rewrite andb_false_r; discriminate.
Qed.

(** X5. An element that is not a candidate, for lack of an id and a path or
    of a payload field, is skipped before anything is read from the
    dictionary: the result is that of the array without it, exceptions
    included. Null, the primitives and the arrays are never candidates. *)
Theorem non_candidates_skipped
    (raw raw' : jsstring) (dictionary : list value)
    (image_slots edit_capabilities : value) (pre post : list value) (item : value) :
  JSON_parse (unfence raw) = Some (VArr (pre ++ item :: post)) ->
  JSON_parse (unfence raw') = Some (VArr (pre ++ post)) ->
  (is_object item = false -> is_candidate item = false)
  /\ (is_candidate item = false ->
      parseEditsFromLLM raw dictionary image_slots edit_capabilities
      = parseEditsFromLLM raw' dictionary image_slots edit_capabilities).
Proof.
  intros Hp Hp'. split.
  - intros Ho. destruct (is_candidate item) eqn:E; [|reflexivity].
    apply candidates_are_objects in E. congruence.
  - intros Hc.
    rewrite (parseEditsFromLLM_array _ _ _ _ _ Hp),
      (parseEditsFromLLM_array _ _ _ _ _ Hp').
    unfold edits_of. rewrite filter_candidates_mid, Hc, List.filter_app.
    reflexivity.
Qed.

(** X6. [parseEditsFromLLM] raises its invalid-response error exactly when
    the text left after trimming and unfencing is not JSON or is JSON other
    than an array, and the only other exception it can let through is a
    TypeError. *)
Theorem parseEditsFromLLM_errors
    (raw : jsstring) (dictionary : list value)
    (image_slots edit_capabilities : value) :
  let returned := parseEditsFromLLM raw dictionary image_slots edit_capabilities in
  (returned = Throw (Error (lit "Invalid LLM response"))
   <-> forall arr, JSON_parse (unfence raw) <> Some (VArr arr))
  /\ (forall e, returned = Throw e ->
      e = Error (lit "Invalid LLM response") \/ e = TypeError).
Proof.
  intros returned. subst returned. unfold parseEditsFromLLM.
  destruct (JSON_parse (unfence raw)) as [[| | | | |arr|]|];
    try (split; [split; [intros _ arr; discriminate|reflexivity]
                |intros e H; left; congruence]).
  split; [split|].
  - intros H. apply edits_of_throw in H. discriminate.
  - intros H. destruct (H arr eq_refl).
  - intros e H. right. exact (edits_of_throw _ _ _ _ _ H).
Qed.

End EditContents.

Lemma parseEditsFromLLM_reads_witness :
  let raw := json "[{'id':'a','new_text':5,'new_url':'u'},{'path':'/p','new_link':{}}]" in
  let arr :=
    [ VObj [ (lit "id", VStr (lit "a")); (lit "new_text", VNum (lit "5"));
             (lit "new_url", VStr (lit "u")) ];
      VObj [ (lit "path", VStr (lit "/p")); (lit "new_link", VObj []) ] ] in
  let out :=
    [ VObj [ (lit "id", VStr (lit "a")); (lit "path", VStr []);
             (lit "new_text", VStr (lit "5")) ] ] in
  JSON_parse (unfence raw) = Some (VArr arr)
  /\ parseEditsFromLLM (NS:=integer_literals) raw [] VUndefined VUndefined = Ok out
  /\ Forall2 (record_reads (NS:=integer_literals) [VStr (lit "text")])
       (List.filter (survives (NS:=integer_literals) [] [] [VStr (lit "text")]) arr)
       out.
Proof.
  intros raw arr out.
  assert (Hp : JSON_parse (unfence raw) = Some (VArr arr))
    by (vm_compute; reflexivity).
  assert (Hr : parseEditsFromLLM (NS:=integer_literals) raw [] VUndefined VUndefined
               = Ok out) by (vm_compute; reflexivity).
  split; [exact Hp|]. split; [exact Hr|].
  exact (parseEditsFromLLM_reads (NS:=integer_literals)
           raw [] VUndefined VUndefined arr out Hp Hr).
Defined.

Lemma ungranted_fields_absent_witness :
  let raw := json "[{'id':'a','new_text':'Hi','new_url':'u'}]" in
  let e := VObj [ (lit "id", VStr (lit "a")); (lit "path", VStr []);
                  (lit "new_url", VStr (lit "u")) ] in
  parseEditsFromLLM (NS:=integer_literals) raw [] VUndefined
    (VArr [VStr (lit "url")]) = Ok [e]
  /\ grants [VStr (lit "url")] "url" = true.
Proof.
  intros raw e.
  assert (Hr : parseEditsFromLLM (NS:=integer_literals) raw [] VUndefined
                 (VArr [VStr (lit "url")]) = Ok [e])
    by (vm_compute; reflexivity).
  split; [exact Hr|].
  refine (ungranted_fields_absent (NS:=integer_literals) raw [] VUndefined
            (VArr [VStr (lit "url")]) _ [e] _ Hr e (lit "new_url") "url"%string
            _ _ _).
  - vm_compute. reflexivity.
  - left. reflexivity.
  - cbn. do 3 right. left. reflexivity.
  - reflexivity.
Defined.


Lemma capabilities_by_membership_witness :
  let raw := json "[{'id':'a','new_text':'Hi','new_image':{}}]" in
  let caps := [ VStr (lit "image"); VStr (lit "text") ] in
  let caps' := [ VStr (lit "text"); VNull; VStr (lit "video"); VStr (lit "image");
                 VStr (lit "text") ] in
  parseEditsFromLLM (NS:=integer_literals) raw [] VUndefined (VArr caps)
  = parseEditsFromLLM (NS:=integer_literals) raw [] VUndefined (VArr caps').
Proof.
  intros raw caps caps'.
  apply (capabilities_by_membership (NS:=integer_literals)).
  intros tag [<-|[<-|[<-|[]]]]; vm_compute; reflexivity.
Defined.

Lemma non_candidates_skipped_witness :
  let raw := json "[null,{'id':'a','new_text':'Hi'}]" in
  let raw' := json "[{'id':'a','new_text':'Hi'}]" in
  parseEditsFromLLM (NS:=integer_literals) raw [VNull] VUndefined VUndefined
  = parseEditsFromLLM (NS:=integer_literals) raw' [VNull] VUndefined VUndefined.
Proof.
  intros raw raw'.
  refine (proj2 (non_candidates_skipped (NS:=integer_literals) raw raw' [VNull]
                   VUndefined VUndefined []
                   [ VObj [ (lit "id", VStr (lit "a"));
                            (lit "new_text", VStr (lit "Hi")) ] ]
                   VNull _ _) _); vm_compute; reflexivity.
Defined.

(** ** The kit patch *)

Lemma lookup_prop_key ps k v :
  lookup_prop ps k = Some v -> existsb (str_eqb k) (List.map fst ps) = true.
Proof.
  induction ps as [|[k0 v0] ps IH]; cbn [lookup_prop List.map fst existsb];
    [discriminate|].
  destruct (str_eqb k0 k) eqn:E.
  - apply str_eqb_eq in E as ->. rewrite str_eqb_refl. reflexivity.
  - intros H. rewrite (IH H). apply orb_true_r.
Qed.

Lemma get_key t k :
  nullish (get t k) = false -> existsb (str_eqb k) (keys t) = true.
Proof.
  destruct t as [| | | | | |ps]; try discriminate. cbn [get keys].
  destruct (lookup_prop ps k) as [v|] eqn:E; [|discriminate].
  intros _. exact (lookup_prop_key _ _ _ E).
Qed.

Section KitFacts.
Context {NS : NumberSem}.

Lemma fold_copy_typography t ks out k :
  lookup_prop (fold_left (copy_typography t) ks out) k =
  if existsb (str_eqb k) ks
     && (negb (str_eqb k (lit "_id")) && negb (str_eqb k (lit "title"))
         && startsWith k (lit "typography_") && negb (nullish (get t k)))
  then Some (get t k) else lookup_prop out k.
Proof.
  revert out. induction ks as [|k0 ks IH]; intros out; cbn [fold_left existsb];
    [reflexivity|].
  rewrite IH. unfold copy_typography.
  destruct (str_eqb k k0) eqn:E; cbn [orb].
  - apply str_eqb_eq in E as <-.
    destruct (negb (str_eqb k (lit "_id")) && negb (str_eqb k (lit "title"))
              && startsWith k (lit "typography_") && negb (nullish (get t k)));
      [|rewrite !andb_false_r; reflexivity].
    rewrite lookup_obj_set_eq, !andb_true_r.
    destruct (existsb (str_eqb k) ks); reflexivity.
  - assert (Hne : k0 <> k).
    { intros ->. rewrite str_eqb_refl in E. discriminate. }
    destruct (existsb (str_eqb k) ks && _); [reflexivity|].
    destruct (negb (str_eqb k0 (lit "_id")) && _ && _ && _); [|reflexivity].
    apply lookup_obj_set_ne, Hne.
Qed.

Lemma to_typography_spec t t' :
  to_typography t = Ok t' -> typography_of t t'.
Proof.
  unfold to_typography.
  destruct (ToString (get t (lit "_id"))) as [i|] eqn:Ei; cbn [bind];
    [|discriminate].
  intros H. apply bind_Ok in H as (out & Hout & H). apply Ok_inj in H. subst t'.
  assert (Hbase :
    lookup_prop out (lit "_id") = Some (VStr i)
    /\ (if nullish (get t (lit "title")) then lookup_prop out (lit "title") = None
        else exists s, ToString (get t (lit "title")) = Ok s
                       /\ lookup_prop out (lit "title") = Some (VStr s))
    /\ (forall k, k <> lit "_id" -> k <> lit "title" -> lookup_prop out k = None)).
  { destruct (nullish (get t (lit "title"))); cbn [negb] in Hout.
    - apply Ok_inj in Hout. subst out. split; [reflexivity|].
      split; [reflexivity|].
      intros k Hk _. cbn [lookup_prop]. apply str_eqb_neq in Hk.
      rewrite str_eqb_neq in Hk. apply not_eq_sym, str_eqb_neq in Hk.
      rewrite Hk. reflexivity.
    - apply bind_Ok in Hout as (s & Hs & Hout). apply Ok_inj in Hout. subst out.
      split; [rewrite lookup_obj_set_ne by lit_neq; reflexivity|].
      split; [exists s; split; [exact Hs|apply lookup_obj_set_eq]|].
      intros k Hk Hk'. rewrite lookup_obj_set_ne by (apply not_eq_sym, Hk').
      cbn [lookup_prop]. apply not_eq_sym, str_eqb_neq in Hk.
      rewrite Hk. reflexivity. }
  destruct Hbase as (Hid & Htitle & Hother).
  unfold typography_of. cbn [get has_prop]. unfold has_key.
  split; [|split; [|split]].
  - exists i. split; [exact Ei|]. rewrite fold_copy_typography.
    eval_names. cbn [negb andb]. rewrite andb_false_r, Hid. reflexivity.
  - rewrite fold_copy_typography. eval_names. cbn [negb andb].
    rewrite andb_false_r.
    destruct (nullish (get t (lit "title"))).
    + rewrite Htitle. reflexivity.
    + destruct Htitle as (s & Hs & ->). eauto.
  - intros k Hk Hk'. rewrite fold_copy_typography, (Hother k Hk Hk').
    apply str_eqb_neq in Hk, Hk'. rewrite Hk, Hk'. cbn [negb andb].
    unfold gated, typography_key.
    destruct (startsWith k (lit "typography_")); cbn [andb];
      [|rewrite andb_false_r; reflexivity].
    destruct (nullish (get t k)) eqn:En; cbn [negb];
      [rewrite andb_false_r; reflexivity|].
    rewrite (get_key _ _ En). reflexivity.
  - intros k. rewrite fold_copy_typography.
    destruct (str_eqb k (lit "_id")) eqn:E1; [apply str_eqb_eq in E1; auto|].
    destruct (str_eqb k (lit "title")) eqn:E2; [apply str_eqb_eq in E2; auto|].
    cbn [negb andb]. unfold typography_key.
    destruct (startsWith k (lit "typography_")); [auto|].
    rewrite andb_false_r. apply str_eqb_neq in E1, E2.
    rewrite (Hother k E1 E2). discriminate.
Qed.

Lemma to_color_throw c e : to_color c = Throw e -> e = TypeError.
Proof.
  unfold to_color.
  destruct (ToString (get c (lit "_id"))) as [i|e1] eqn:E1; cbn [bind];
    [|intros [= <-]; exact (ToString_throw _ _ E1)].
  match goal with
  | |- (let* title := ?m in _) = _ -> _ =>
      destruct m as [ti|e2] eqn:E2; cbn [bind]
  end.
  - match goal with
    | |- (let* value := ?m in _) = _ -> _ =>
        destruct m as [va|e3] eqn:E3; cbn [bind]; [discriminate|]
    end.
    intros [= <-].
    destruct (get c (lit "value")); cbn [nullish negb] in E3;
      solve [discriminate | exact (ToString_throw _ _ E3)].
  - intros [= <-].
    destruct (negb (nullish (get c (lit "title"))));
      [exact (ToString_throw _ _ E2)|discriminate].
Qed.

Lemma to_typography_throw t e : to_typography t = Throw e -> e = TypeError.
Proof.
  unfold to_typography.
  destruct (ToString (get t (lit "_id"))) as [i|e1] eqn:E1; cbn [bind];
    [|intros [= <-]; exact (ToString_throw _ _ E1)].
  destruct (negb (nullish (get t (lit "title")))); cbn [bind]; [|discriminate].
  destruct (ToString (get t (lit "title"))) as [s|e2] eqn:E2; cbn [bind];
    [discriminate|].
  intros [= <-]. exact (ToString_throw _ _ E2).
Qed.

(** The kit normalizer builds its patch from three parts that do not
    depend on one another. *)
Lemma parseKitPatchFromLLM_parts raw :
  parseKitPatchFromLLM raw =
  match JSON_parse (unfence raw) with
  | None => Throw (Error (lit "Invalid LLM response for kit"))
  | Some obj =>
      if nullish obj || negb (typeof_object obj)
      then Throw (Error (lit "Invalid LLM response for kit"))
      else let* c := colors_part obj in
           let* t := typography_part obj in
           Ok (VObj (c ++ t ++ settings_part obj))
  end.
Proof.
  unfold parseKitPatchFromLLM.
  destruct (JSON_parse (unfence raw)) as [obj|]; [|reflexivity].
  destruct (nullish obj || negb (typeof_object obj)); [reflexivity|].
  unfold colors_part, typography_part, settings_part. cbv zeta.
  destruct (negb (nullish (get obj (lit "settings")))
            && typeof_object (get obj (lit "settings"))).
  all: destruct (get obj (lit "colors")) as [| | | | |[|c cs]|]; cbn [bind].
  all: try (destruct (mapM to_color (List.filter has_id (c :: cs))); cbn [bind];
            [|reflexivity]).
  all: destruct (get obj (lit "typography")) as [| | | | |[|t ts]|]; cbn [bind].
  all: try (destruct (mapM to_typography (List.filter has_id (t :: ts)));
            cbn [bind]; [|reflexivity]).
  all: cbn [obj_set app]; eval_names; reflexivity.
Qed.

Lemma colors_part_cases obj c :
  colors_part obj = Ok c -> c = [] \/ exists x, c = [ (lit "colors", x) ].
Proof.
  unfold colors_part.
  destruct (get obj (lit "colors")) as [| | | | |[|c0 cs]|];
    try (intros H; apply Ok_inj in H; auto).
  intros H. apply bind_Ok in H as (colors & _ & H). apply Ok_inj in H. eauto.
Qed.

Lemma typography_part_cases obj t :
  typography_part obj = Ok t ->
  (t = [] /\ forall t0 ts, get obj (lit "typography") <> VArr (t0 :: ts))
  \/ exists t0 ts typography,
       get obj (lit "typography") = VArr (t0 :: ts)
       /\ mapM to_typography (List.filter has_id (t0 :: ts)) = Ok typography
       /\ t = [ (lit "typography",
                 VArr (List.filter (fun t => (1 <? length (keys t))%nat)
                         typography)) ].
Proof.
  unfold typography_part.
  destruct (get obj (lit "typography")) as [| | | | |[|t0 ts]|];
    try (intros H; apply Ok_inj in H; left; split; [auto|discriminate]).
  intros H. apply bind_Ok in H as (typography & Hm & H). apply Ok_inj in H.
  right. exists t0, ts, typography. auto.
Qed.

Lemma parseKitPatchFromLLM_returns raw obj patch :
  JSON_parse (unfence raw) = Some obj ->
  parseKitPatchFromLLM raw = Ok patch ->
  exists c t, colors_part obj = Ok c /\ typography_part obj = Ok t
              /\ patch = VObj (c ++ t ++ settings_part obj).
Proof.
  intros Hp. rewrite parseKitPatchFromLLM_parts, Hp.
  destruct (nullish obj || negb (typeof_object obj)); [discriminate|].
  intros H. apply bind_Ok in H as (c & Hc & H).
  apply bind_Ok in H as (t & Ht & H). apply Ok_inj in H. eauto.
Qed.

(** X7. A kit patch is an object with no property other than [colors],
    [typography] and [settings]. It has [typography] exactly when the
    [typography] of the model output is a non-empty array, and [settings]
    exactly when the [settings] of the model output is an object or an
    array, which it then holds unchanged and unchecked. *)
Theorem parseKitPatchFromLLM_shape (raw : jsstring) (obj patch : value) :
  JSON_parse (unfence raw) = Some obj ->
  parseKitPatchFromLLM raw = Ok patch ->
  is_object patch = true
  /\ incl (keys patch) patch_fields
  /\ (has_prop patch (lit "typography") = true
      <-> exists t ts, get obj (lit "typography") = VArr (t :: ts))
  /\ (has_prop patch (lit "settings") = true
      <-> nullish (get obj (lit "settings")) = false
          /\ typeof_object (get obj (lit "settings")) = true)
  /\ (has_prop patch (lit "settings") = true
      -> get patch (lit "settings") = get obj (lit "settings")).
Proof.
  intros Hp H.
  destruct (parseKitPatchFromLLM_returns _ _ _ Hp H) as (c & t & Hc & Ht & ->).
  apply colors_part_cases in Hc. apply typography_part_cases in Ht.
  unfold settings_part.
  assert (Hs : negb (nullish (get obj (lit "settings")))
               && typeof_object (get obj (lit "settings")) = true
               <-> nullish (get obj (lit "settings")) = false
                   /\ typeof_object (get obj (lit "settings")) = true).
  { rewrite andb_true_iff, negb_true_iff. reflexivity. }
  destruct (negb (nullish (get obj (lit "settings")))
            && typeof_object (get obj (lit "settings"))).
  all: destruct Hc as [->|(x & ->)];
    destruct Ht as [[-> Hno]|(t0 & ts & ty & Hty & _ & ->)].
  all: cbn [app is_object keys List.map fst has_prop get].
  all: unfold has_key; cbn [lookup_prop]; eval_names.
  all: split; [reflexivity|].
  all: split; [unfold patch_fields; intros k Hk; cbn [In] in *; tauto|].
  all: split; [split; [try discriminate; eauto
                      |try reflexivity; intros (a & b & Hab); destruct (Hno _ _ Hab)]|].
  all: split; [rewrite <- Hs; split; congruence|].
  all: try discriminate; reflexivity.
Qed.

(** X8. When the [typography] of the model output is a non-empty array, the
    patch holds under [typography] an array whose entries each come from an
    entry of the model output that is an object with an [_id]; the emitted
    entry holds that [_id] converted to a string, the [title] converted to
    a string when there is one, every property whose name starts with
    [typography_] and whose value is not null, unchanged, and nothing
    else; and it has more than one property. *)
Theorem parseKitPatchFromLLM_typography
    (raw : jsstring) (obj patch : value) (input : list value) :
  JSON_parse (unfence raw) = Some obj ->
  parseKitPatchFromLLM raw = Ok patch ->
  get obj (lit "typography") = VArr input -> input <> [] ->
  exists emitted,
    get patch (lit "typography") = VArr emitted
    /\ Forall (fun t' => (exists t, In t input /\ has_id t = true
                                    /\ typography_of t t')
                         /\ (1 < length (keys t'))%nat) emitted.
Proof.
  intros Hp H Hin Hne.
  destruct (parseKitPatchFromLLM_returns _ _ _ Hp H) as (c & t & Hc & Ht & ->).
  apply colors_part_cases in Hc. apply typography_part_cases in Ht.
  destruct Ht as [[_ Hno]|(t0 & ts & ty & Hty & Hm & ->)].
  { destruct input as [|t0 ts]; [congruence|]. destruct (Hno _ _ Hin). }
  rewrite Hty in Hin. apply (f_equal (fun v => match v with VArr l => l | _ => [] end)) in Hin.
  cbn beta iota in Hin. subst input.
  eexists. split.
  - destruct Hc as [->|(x & ->)]; cbn [app get lookup_prop]; eval_names; reflexivity.
  - apply mapM_Forall2 in Hm. apply List.Forall_forall. intros t' Ht'.
    apply filter_In in Ht' as [Ht' Hlen].
    apply (Forall2_In_r _ _ _ _ Hm) in Ht' as (t & Hin & Htt').
    apply filter_In in Hin as [Hin Hid].
    split; [exists t; split; [exact Hin|split; [exact Hid|]]|].
    + exact (to_typography_spec _ _ Htt').
    + apply Nat.ltb_lt, Hlen.
Qed.

(** X9. [parseKitPatchFromLLM] raises its invalid-response error exactly
    when the text left after trimming and unfencing is not JSON, or is the
    JSON of null or of a value whose [typeof] is not ['object'], and the
    only other exception it can let through is a TypeError. *)
Theorem parseKitPatchFromLLM_errors (raw : jsstring) :
  (parseKitPatchFromLLM raw = Throw (Error (lit "Invalid LLM response for kit"))
   <-> match JSON_parse (unfence raw) with
       | None => True
       | Some obj => nullish obj = true \/ typeof_object obj = false
       end)
  /\ (forall e, parseKitPatchFromLLM raw = Throw e ->
      e = Error (lit "Invalid LLM response for kit") \/ e = TypeError).
Proof.
  rewrite parseKitPatchFromLLM_parts.
  destruct (JSON_parse (unfence raw)) as [obj|];
    [|split; [tauto|intros e H; left; congruence]].
  assert (Hbad : nullish obj || negb (typeof_object obj) = true
                 <-> nullish obj = true \/ typeof_object obj = false).
  { rewrite orb_true_iff, negb_true_iff. reflexivity. }
  assert (Hrest : forall e,
    (let* c := colors_part obj in
     let* t := typography_part obj in
     Ok (VObj (c ++ t ++ settings_part obj))) = Throw e -> e = TypeError).
  { intros e. unfold colors_part, typography_part.
    destruct (get obj (lit "colors")) as [| | | | |[|c0 cs]|]; cbn [bind].
    all: try (destruct (mapM to_color (List.filter has_id (c0 :: cs)))
                as [colors|e1] eqn:Ec; cbn [bind];
              [|intros [= <-]; apply mapM_throw in Ec as (x & _ & Hx);
                exact (to_color_throw _ _ Hx)]).
    all: destruct (get obj (lit "typography")) as [| | | | |[|t0 ts]|];
      cbn [bind]; try discriminate.
    all: destruct (mapM to_typography (List.filter has_id (t0 :: ts)))
           as [ty|e2] eqn:Et; cbn [bind]; [discriminate|].
    all: intros [= <-]; apply mapM_throw in Et as (x & _ & Hx);
      exact (to_typography_throw _ _ Hx). }
  destruct (nullish obj || negb (typeof_object obj)).
  - split; [split; [intros _; apply Hbad; reflexivity|reflexivity]
           |intros e H; left; congruence].
  - split; [split|].
    + intros H. apply Hrest in H. discriminate.
    + intros H. apply Hbad in H. discriminate.
    + intros e H. right. exact (Hrest e H).
Qed.

End KitFacts.

Lemma parseKitPatchFromLLM_shape_witness :
  let raw := json "{'settings':[1],'colors':7,'typography':[{'_id':1}],'extra':true}" in
  let obj := VObj [ (lit "settings", VArr [VNum (lit "1")]);
                    (lit "colors", VNum (lit "7"));
                    (lit "typography", VArr [ VObj [ (lit "_id", VNum (lit "1")) ] ]);
                    (lit "extra", VBool true) ] in
  let patch := VObj [ (lit "typography", VArr []);
                      (lit "settings", VArr [VNum (lit "1")]) ] in
  JSON_parse (unfence raw) = Some obj
  /\ parseKitPatchFromLLM (NS:=integer_literals) raw = Ok patch
  /\ incl (keys patch) patch_fields.
Proof.
  intros raw obj patch.
  assert (Hp : JSON_parse (unfence raw) = Some obj) by (vm_compute; reflexivity).
  assert (Hr : parseKitPatchFromLLM (NS:=integer_literals) raw = Ok patch)
    by (vm_compute; reflexivity).
  split; [exact Hp|]. split; [exact Hr|].
  exact (proj1 (proj2 (parseKitPatchFromLLM_shape (NS:=integer_literals)
                         raw obj patch Hp Hr))).
Defined.

Lemma parseKitPatchFromLLM_typography_witness :
  let raw :=
    json "{'typography':[{'_id':1,'typography_font_family':'Roboto','size':2,'typography_x':null}]}" in
  let entry := VObj [ (lit "_id", VNum (lit "1"));
                      (lit "typography_font_family", VStr (lit "Roboto"));
                      (lit "size", VNum (lit "2"));
                      (lit "typography_x", VNull) ] in
  let obj := VObj [ (lit "typography", VArr [entry]) ] in
  let patch :=
    VObj [ (lit "typography",
            VArr [ VObj [ (lit "_id", VStr (lit "1"));
                          (lit "typography_font_family", VStr (lit "Roboto")) ] ]) ] in
  JSON_parse (unfence raw) = Some obj
  /\ parseKitPatchFromLLM (NS:=integer_literals) raw = Ok patch
  /\ exists emitted,
       get patch (lit "typography") = VArr emitted
       /\ Forall (fun t' => (exists t, In t [entry]
                                       /\ has_id (NS:=integer_literals) t = true
                                       /\ typography_of (NS:=integer_literals) t t')
                            /\ (1 < length (keys t'))%nat) emitted.
Proof.
  intros raw entry obj patch.
  assert (Hp : JSON_parse (unfence raw) = Some obj) by (vm_compute; reflexivity).
  assert (Hr : parseKitPatchFromLLM (NS:=integer_literals) raw = Ok patch)
    by (vm_compute; reflexivity).
  split; [exact Hp|]. split; [exact Hr|].
  apply (parseKitPatchFromLLM_typography (NS:=integer_literals)
           raw obj patch [entry] Hp Hr); [reflexivity|discriminate].
Defined.

(** ** More forms of the raw text *)

Lemma trimStart_all_ws w : forallb is_ws w = true -> trimStart w = [].
Proof.
  induction w as [|c w IH]; cbn [forallb trimStart]; [reflexivity|].
  intros H. apply andb_prop in H as [-> H]. exact (IH H).
Qed.

Lemma trim_app_ws x w : forallb is_ws w = true -> trim (x ++ w) = trim x.
Proof.
  intros Hw. unfold trim. induction x as [|c r IH]; cbn [app trimStart].
  - rewrite (trimStart_all_ws _ Hw). reflexivity.
  - destruct (is_ws c); [exact IH|].
    change (c :: r ++ w) with ((c :: r) ++ w). apply trimEnd_app_ws, Hw.
Qed.

Lemma trim_padded p x q :
  forallb is_ws p = true -> forallb is_ws q = true -> trim (p ++ x ++ q) = trim x.
Proof.
  intros Hp Hq. rewrite <- (trim_app_ws x q Hq). unfold trim.
  rewrite (trimStart_ws _ _ Hp). reflexivity.
Qed.

Lemma unfence_padded p raw q :
  forallb is_ws p = true -> forallb is_ws q = true ->
  unfence (p ++ raw ++ q) = unfence raw.
Proof.
  intros Hp Hq. unfold unfence. rewrite (trim_padded _ _ _ Hp Hq). reflexivity.
Qed.

Lemma strip_json_head r :
  head r <> Some 106 -> strip_prefix (lit "json") r = None.
Proof.
  destruct r as [|c r]; [reflexivity|]. cbn [head]. intros H.
  cbn [lit strip_prefix].
  destruct (N.eqb_spec (N_of_ascii "j") c) as [E|E]; [|reflexivity].
  exfalso. apply H. rewrite <- E. reflexivity.
Qed.

Lemma JSON_parse_head s v :
  JSON_parse s = Some v -> exists c r, s = c :: r /\ c <> 106.
Proof.
  destruct s as [|c r]; [vm_compute; discriminate|].
  unfold JSON_parse. cbn [lex_from lstep].
  destruct (idle c) as [[st ts]|] eqn:Hi; [|discriminate].
  intros _. exists c, r. split; [reflexivity|].
  intros ->. vm_compute in Hi. discriminate.
Qed.

Lemma codeBlock_plain r :
  strip_prefix (lit "json") r = None ->
  codeBlock ([96; 96; 96] ++ r) = greedy_ws r.
Proof.
  intros H. unfold codeBlock.
  assert (Hs : strip_prefix (lit "```") ([96; 96; 96] ++ r) = Some r)
    by reflexivity.
  rewrite Hs, H. reflexivity.
Qed.

Lemma fenced_plain_eq w1 w2 s :
  fenced_plain w1 w2 s = [96; 96; 96] ++ w1 ++ s ++ w2 ++ [96; 96; 96].
Proof. reflexivity. Qed.

Lemma unfence_fenced_plain w1 w2 s :
  forallb is_ws w1 = true -> forallb is_ws w2 = true ->
  head (w1 ++ s ++ w2 ++ [96; 96; 96]) <> Some 106 ->
  unfence (fenced_plain w1 w2 s) = trim s.
Proof.
  intros Hw1 Hw2 Hh. unfold unfence.
  assert (Htrim : trim (fenced_plain w1 w2 s) = fenced_plain w1 w2 s).
  { rewrite fenced_plain_eq.
    replace ([96; 96; 96] ++ w1 ++ s ++ w2 ++ [96; 96; 96])
      with (96 :: ([96; 96] ++ w1 ++ s ++ w2 ++ [96; 96]) ++ [96]).
    - apply trim_solid; reflexivity.
    - cbn [app]. rewrite <- !app_assoc. reflexivity. }
  rewrite Htrim.
  destruct (trimStart_fence s w2 Hw2) as (cap & Hcap & Htr).
  assert (Hcb : codeBlock (fenced_plain w1 w2 s) = Some cap).
  { rewrite fenced_plain_eq, codeBlock_plain by (apply strip_json_head, Hh).
    apply greedy_ws_lazy. rewrite (trimStart_ws _ _ Hw1).
    change [96; 96; 96] with (lit "```").
    rewrite Hcap. apply lazy_body_fence. }
  rewrite Hcb. exact Htr.
Qed.

Lemma head_fenced_text w1 w2 s v :
  forallb is_ws w1 = true -> JSON_parse s = Some v ->
  head (w1 ++ s ++ w2 ++ [96; 96; 96]) <> Some 106.
Proof.
  intros Hw1 Hs. destruct w1 as [|c w1]; cbn [app head].
  - destruct (JSON_parse_head _ _ Hs) as (c & r & -> & Hc).
    cbn [app head]. congruence.
  - cbn [forallb] in Hw1. apply andb_prop in Hw1 as [Hc _].
    intros [= ->]. vm_compute in Hc. discriminate.
Qed.

Section RawForms.
Context {NS : NumberSem}.

(** X10. White space around the raw text is of no effect: both normalizers
    give on the padded text the result, value or exception, that they give
    on the text itself, whatever the text is. *)
Theorem surrounding_space_ignored
    (raw p q : jsstring) (dictionary : list value)
    (image_slots edit_capabilities : value) :
  forallb is_ws p = true -> forallb is_ws q = true ->
  parseEditsFromLLM (p ++ raw ++ q) dictionary image_slots edit_capabilities
  = parseEditsFromLLM raw dictionary image_slots edit_capabilities
  /\ parseKitPatchFromLLM (p ++ raw ++ q) = parseKitPatchFromLLM raw.
Proof.
  intros Hp Hq. unfold parseEditsFromLLM, parseKitPatchFromLLM.
  rewrite (unfence_padded _ _ _ Hp Hq). auto.
Qed.

(** X11. A fence without the [json] tag is stripped like a tagged one: for
    a JSON text [s], with any white space or none between the fences and
    the text, what is parsed is the trimmed text [s], and both normalizers
    give the result they give on [s]. *)
Theorem plain_fence_same_result
    (s w1 w2 : jsstring) (dictionary : list value)
    (image_slots edit_capabilities : value) :
  (exists v, JSON_parse s = Some v) ->
  forallb is_ws w1 = true -> forallb is_ws w2 = true ->
  unfence (fenced_plain w1 w2 s) = trim s
  /\ parseEditsFromLLM (fenced_plain w1 w2 s) dictionary image_slots
       edit_capabilities
     = parseEditsFromLLM s dictionary image_slots edit_capabilities
  /\ parseKitPatchFromLLM (fenced_plain w1 w2 s) = parseKitPatchFromLLM s.
Proof.
  intros [v Hv] Hw1 Hw2.
  assert (H : unfence (fenced_plain w1 w2 s) = trim s).
  { apply unfence_fenced_plain; try assumption.
    exact (head_fenced_text _ _ _ _ Hw1 Hv). }
  split; [exact H|].
  unfold parseEditsFromLLM, parseKitPatchFromLLM.
  rewrite H, (JSON_parse_unfence _ _ Hv). auto.
Qed.

End RawForms.

Lemma surrounding_space_ignored_witness :
  let raw := json "[{'id':'a','new_text':'Hi'}]" in
  parseEditsFromLLM (NS:=integer_literals) ([32; 10] ++ raw ++ [9]) []
    VUndefined VUndefined
  = parseEditsFromLLM (NS:=integer_literals) raw [] VUndefined VUndefined.
Proof.
  intros raw.
  refine (proj1 (surrounding_space_ignored (NS:=integer_literals) raw [32; 10] [9]
                   [] VUndefined VUndefined _ _)); reflexivity.
Defined.

Lemma plain_fence_same_result_witness :
  let s := json "{'colors':[{'_id':'p','value':'#fff'}]}" in
  (exists v, JSON_parse s = Some v)
  /\ parseKitPatchFromLLM (NS:=integer_literals) (fenced_plain [] [10] s)
     = parseKitPatchFromLLM (NS:=integer_literals) s.
Proof.
  intros s.
  assert (Hs : exists v, JSON_parse s = Some v)
    by (eexists; vm_compute; reflexivity).
  split; [exact Hs|].
  refine (proj2 (proj2 (plain_fence_same_result (NS:=integer_literals) s [] [10]
                          [] VUndefined VUndefined Hs _ _))); reflexivity.
Defined.

(** * Further properties of the store *)

Lemma add_lookup h c x v :
  h !! x = Some v -> x <> requests -> add h c !! x = Some v.
Proof.
  intros Hx Hr. unfold add, addRequest, alloc.
  set (l := fresh (dom h)).
  assert (Hl : h !! l = None) by (apply not_elem_of_dom, is_fresh).
  assert (Hlx : l <> x) by (intros E; rewrite E in Hl; congruence).
  destruct (MAX_REQUESTS <? _)%nat.
  - rewrite lookup_insert_ne by auto. rewrite lookup_insert_ne by auto.
    rewrite lookup_insert_ne by auto. exact Hx.
  - rewrite lookup_insert_ne by auto. rewrite lookup_insert_ne by auto.
    exact Hx.
Qed.

Lemma holds_array_cell h recs l elems :
  holds h recs -> l <> requests -> record_at h l = None ->
  holds (<[l := CArr elems]> h) recs.
Proof.
  intros (arr & Harr & Hrecs & Hlen) Hl Hrec.
  exists arr. split; [rewrite lookup_insert_ne by exact Hl; exact Harr|].
  split; [|exact Hlen].
  eapply Forall2_impl; [exact Hrecs|]. intros x r Hx. cbn beta in Hx.
  rewrite lookup_insert_ne; [exact Hx|].
  intros <-. unfold record_at in Hrec. rewrite Hx in Hrec. discriminate.
Qed.

Lemma handed_out_cell h handed l elems :
  handed_out h handed -> handed_out (<[l := CArr elems]> h) handed.
Proof.
  intros [Hnd Hall]. split; [exact Hnd|].
  eapply Forall_impl; [exact Hall|]. intros x [Hx [a Ha]]. cbn beta.
  split; [exact Hx|]. destruct (decide (l = x)) as [<-|Hne].
  - rewrite lookup_insert_eq. eauto.
  - rewrite lookup_insert_ne by exact Hne. eauto.
Qed.

(** Every action keeps the module's array in order: it lists the records
    of the most recent calls of [addRequest], and the arrays handed out
    stay apart from it. *)
Lemma act_keeps h handed recs a :
  holds h recs -> handed_out h handed ->
  let '(h', handed') := act (h, handed) a in
  holds h' (match a with
            | Add c => take MAX_REQUESTS (record_of c :: recs)
            | _ => recs
            end)
  /\ handed_out h' handed'
  /\ (exists more, handed' = handed ++ more).
Proof.
  intros Hh [Hnd Hall]. destruct a as [c| |n elems]; cbn [act].
  - split; [apply holds_add, Hh|]. split; [|exists []; rewrite app_nil_r; reflexivity].
    split; [exact Hnd|].
    eapply Forall_impl; [exact Hall|]. intros x [Hx [a Ha]]. cbn beta.
    split; [exact Hx|]. exists a. apply add_lookup; assumption.
  - unfold getRequests, alloc. set (l := fresh (dom h)).
    assert (Hl : h !! l = None) by (apply not_elem_of_dom, is_fresh).
    assert (Hlr : l <> requests).
    { destruct Hh as (arr & Harr & _). intros E. rewrite E in Hl. congruence. }
    split; [|split; [|eauto]].
    + apply holds_array_cell; [exact Hh|exact Hlr|].
      unfold record_at. rewrite Hl. reflexivity.
    + destruct (handed_out_cell h handed l (array_at h requests) (conj Hnd Hall))
        as [_ Hall'].
      split.
      * apply NoDup_app. split; [exact Hnd|]. split; [|apply NoDup_singleton].
        intros x Hx Hxl. apply list_elem_of_singleton in Hxl. subst x.
        rewrite Forall_forall in Hall. destruct (Hall l Hx) as [_ [a Ha]].
        congruence.
      * apply Forall_app. split; [exact Hall'|].
        apply Forall_singleton. split; [exact Hlr|].
        rewrite lookup_insert_eq. eauto.
  - destruct (handed !! n) as [l|] eqn:En.
    + assert (Hin : l ∈ handed) by (eapply list_elem_of_lookup_2; exact En).
      rewrite Forall_forall in Hall. destruct (Hall l Hin) as [Hlr [a Ha]].
      split; [|split; [|exists []; rewrite app_nil_r; reflexivity]].
      * apply holds_array_cell; [exact Hh|exact Hlr|].
        unfold record_at. rewrite Ha. reflexivity.
      * apply handed_out_cell. split; [exact Hnd|].
        apply Forall_forall. exact Hall.
    + split; [exact Hh|]. split; [split; assumption|].
      exists []. rewrite app_nil_r. reflexivity.
Qed.

Lemma session_keeps acts :
  let '(h, handed) := session acts in
  holds h (take MAX_REQUESTS (rev (List.map record_of (added acts))))
  /\ handed_out h handed.
Proof.
  unfold session.
  assert (Hgen : forall h handed recs,
    holds h recs -> handed_out h handed ->
    let '(h', handed') := fold_left act acts (h, handed) in
    holds h' (take MAX_REQUESTS (rev (List.map record_of (added acts)) ++ recs))
    /\ handed_out h' handed').
  { induction acts as [|a acts IH]; intros h handed recs Hh Hho.
    - cbn. rewrite take_ge; [auto|]. destruct Hh as (_ & _ & _ & Hlen). exact Hlen.
    - cbn [fold_left].
      pose proof (act_keeps h handed recs a Hh Hho) as Ha.
      destruct (act (h, handed) a) as [h1 handed1].
      destruct Ha as (Hh1 & Hho1 & _).
      specialize (IH h1 handed1 _ Hh1 Hho1).
      destruct (fold_left act acts (h1, handed1)) as [h2 handed2].
      destruct IH as [IH1 IH2]. split; [|exact IH2].
      destruct a as [c| |n elems]; cbn [added] in *.
      + cbn [List.map rev]. rewrite <- app_assoc. cbn [app].
        rewrite <- take_app_take. exact IH1.
      + exact IH1.
      + exact IH1. }
  specialize (Hgen init [] [] holds_init).
  rewrite app_nil_r in Hgen. apply Hgen.
  split; [apply NoDup_nil_2|apply Forall_nil_2].
Qed.

Lemma act_lookup h handed recs a x v :
  holds h recs -> handed_out h handed ->
  h !! x = Some v -> x <> requests ->
  (forall n elems, a = WriteArray n elems -> handed !! n <> Some x) ->
  (act (h, handed) a).1 !! x = Some v.
Proof.
  intros Hh [Hnd Hall] Hx Hr Hw. destruct a as [c| |n elems]; cbn [act].
  - apply add_lookup; assumption.
  - unfold getRequests, alloc. cbn [fst].
    rewrite lookup_insert_ne; [exact Hx|].
    intros E. pose proof (is_fresh (dom h)) as Hf. rewrite E in Hf.
    apply Hf. apply elem_of_dom. eauto.
  - destruct (handed !! n) as [l|] eqn:En; cbn [fst]; [|exact Hx].
    unfold array_write. rewrite lookup_insert_ne; [exact Hx|].
    intros ->. exact (Hw n elems eq_refl En).
Qed.

Lemma listing_records h l arr recs :
  h !! l = Some (CArr arr) ->
  Forall2 (fun x r => h !! x = Some (CRec r)) arr recs ->
  records_at h l = recs.
Proof.
  intros Hl Hrecs. unfold records_at, array_at. rewrite Hl.
  clear Hl. induction Hrecs as [|x r arr recs Hx _ IH]; [reflexivity|].
  cbn. unfold record_at at 1. rewrite Hx. cbn. f_equal. exact IH.
Qed.

Lemma snapshot_stable acts h handed recs n l arr0 recs0 :
  holds h recs -> handed_out h handed ->
  handed !! n = Some l -> h !! l = Some (CArr arr0) ->
  Forall2 (fun x r => h !! x = Some (CRec r)) arr0 recs0 ->
  leaves n acts ->
  records_at (fold_left act acts (h, handed)).1 l = recs0.
Proof.
  revert h handed recs. induction acts as [|a acts IH];
    intros h handed recs Hh Hho Hn Hl Hrecs Hlv.
  - cbn. exact (listing_records _ _ _ _ Hl Hrecs).
  - cbn [fold_left]. apply List.Forall_cons_iff in Hlv as [Ha Hlv].
    pose proof (act_keeps h handed recs a Hh Hho) as Hk.
    assert (Hl1 : (act (h, handed) a).1 !! l = Some (CArr arr0)).
    { apply (act_lookup h handed recs); try assumption.
      - destruct Hho as [_ Hall]. rewrite Forall_forall in Hall.
        apply (Hall l). eapply list_elem_of_lookup_2. exact Hn.
      - intros m elems -> Hm. apply Ha.
        destruct Hho as [Hnd _]. exact (NoDup_lookup _ _ _ _ Hnd Hm Hn). }
    assert (Hrecs1 : Forall2 (fun x r => (act (h, handed) a).1 !! x = Some (CRec r))
                       arr0 recs0).
    { eapply Forall2_impl; [exact Hrecs|]. intros x r Hx. cbn beta in Hx.
      apply (act_lookup h handed recs); try assumption.
      - destruct Hh as (arr & Harr & _). intros ->. congruence.
      - intros m elems _ Hm. destruct Hho as [_ Hall].
        rewrite Forall_forall in Hall.
        destruct (Hall x) as [_ [a' Ha']]; [|congruence].
        eapply list_elem_of_lookup_2. exact Hm. }
    destruct (act (h, handed) a) as [h1 handed1]. cbn [fst] in *.
    destruct Hk as (Hh1 & Hho1 & more & ->).
    eapply IH; try eassumption.
    apply lookup_app_l_Some. exact Hn.
Qed.

(** X12. Whatever the clients do, calls of [addRequest] and of [getRequests]
    and writes to the arrays that [getRequests] handed them, in any order,
    the array of the module lists the records of the most recent calls of
    [addRequest], newest first and at most 50. *)
Theorem buffer_kept_by_clients (acts : list action) :
  let h := (session acts).1 in
  records_at h requests
  = take MAX_REQUESTS (rev (List.map record_of (added acts)))
  /\ (length (records_at h requests) <= 50)%nat.
Proof.
  intros h. subst h. pose proof (session_keeps acts) as H.
  destruct (session acts) as [h handed]. cbn [fst]. destruct H as [Hh _].
  rewrite (holds_records _ _ Hh). split; [reflexivity|].
  rewrite length_take. unfold MAX_REQUESTS. lia.
Qed.

(** X13. The array that a call of [getRequests] returns keeps listing the
    records it listed when it was returned, those the module held then,
    through every later call of [addRequest] and [getRequests] and every
    write to the other arrays handed out. *)
Theorem snapshot_kept (acts later : list action) :
  let before := session acts in
  leaves (length before.2) later ->
  exists l,
    (session (acts ++ [Get])).2 !! length before.2 = Some l
    /\ records_at (session (acts ++ Get :: later)).1 l
       = records_at before.1 requests.
Proof.
  intros before Hlv. subst before. unfold session in *.
  rewrite !fold_left_app. cbn [fold_left].
  pose proof (session_keeps acts) as Hk. unfold session in Hk.
  destruct (fold_left act acts (init, [])) as [h handed]. cbn [fst snd] in *.
  destruct Hk as [Hh Hho]. set (recs := take _ _) in Hh.
  pose proof (act_keeps h handed recs Get Hh Hho) as Hg.
  cbn [act] in *. unfold getRequests, alloc in *.
  set (l := fresh (dom h)) in *. destruct Hg as (Hh1 & Hho1 & _).
  exists l. cbn [snd]. split.
  - rewrite lookup_app_r by reflexivity. rewrite Nat.sub_diag. reflexivity.
  - rewrite (holds_records _ _ Hh).
    destruct Hh1 as (arr & Harr & Hrecs & _).
    assert (Hl : h !! l = None) by (apply not_elem_of_dom, is_fresh).
    assert (Hlr : l <> requests).
    { destruct Hh as (arr' & Harr' & _). intros E. rewrite E in Hl. congruence. }
    assert (Harr0 : array_at h requests = arr).
    { unfold array_at. rewrite lookup_insert_ne in Harr by exact Hlr.
      rewrite Harr. reflexivity. }
    eapply (snapshot_stable later _ _ recs (length handed) l arr recs).
    + exists arr. split; [exact Harr|]. split; [exact Hrecs|].
      destruct Hh as (_ & _ & _ & Hlen). exact Hlen.
    + exact Hho1.
    + rewrite lookup_app_r by reflexivity. rewrite Nat.sub_diag. reflexivity.
    + rewrite lookup_insert_eq, Harr0. reflexivity.
    + exact Hrecs.
    + exact Hlv.
Qed.

Lemma snapshot_kept_witness :
  let acts := [Add (numbered 1)] in
  let later := [Add (numbered 2); Get; WriteArray 1 []; Add (numbered 3)] in
  leaves 0 later
  /\ exists l,
       (session (acts ++ [Get])).2 !! 0%nat = Some l
       /\ records_at (session (acts ++ Get :: later)).1 l
          = records_at (session acts).1 requests.
Proof.
  intros acts later.
  assert (Hlv : leaves 0 later).
  { unfold leaves, later. repeat constructor. discriminate. }
  split; [exact Hlv|].
  exact (snapshot_kept acts later Hlv).
Defined.

(** * The service *)

Section ServiceFacts.
Context {NS : NumberSem} {T : Texts}.

(** Every request is answered through [addRequest], with the body it
    brought and under the context type of its branch. *)
Lemma post_edits_reply env gen req h :
  exists answer,
    post_edits env gen req h
    = reply req (body_of req) answer (if kit_request req then "kit" else "page") h.
Proof.
  unfold post_edits, kit_request, body_of. cbv zeta.
  destruct (str_is _ (lit "kit")).
  - destruct (get _ (lit "instruction")) as [| | | |s| |]; eauto.
    destruct (trim s); eauto.
    match goal with
    | |- context [match ?m with Ok _ => _ | Throw _ => _ end] => destruct m
    end; eauto.
  - destruct (get _ (lit "dictionary")) as [| | | | |dictionary|]; eauto.
    destruct (get _ (lit "instruction")) as [| | | |s| |]; eauto.
    destruct (trim s); eauto.
    match goal with
    | |- context [match ?m with Ok _ => _ | Throw _ => _ end] => destruct m
    end; eauto.
Qed.

Lemma parseEditsFromLLM_sound raw d slots caps out :
  parseEditsFromLLM raw d slots caps = Ok out ->
  Forall well_formed_edit out
  /\ Forall (fun e => incl (keys e) edit_fields) out.
Proof.
  unfold parseEditsFromLLM.
  destruct (JSON_parse (unfence raw)) as [[| | | | |arr|]|]; try discriminate.
  intros H. destruct (edits_of_Ok _ _ _ _ _ H) as [H2 Hw]. split; [exact Hw|].
  apply List.Forall_forall. intros e He.
  destruct (Forall2_In_r _ _ _ _ H2 He) as (item & _ & Hitem).
  destruct (to_edit_cases _ _ _ _ _ Hitem) as [->|(o & -> & _)].
  - intros k [].
  - apply (to_edit_reads _ _ _ _ _ Hitem).
Qed.

Lemma parseKitPatchFromLLM_sound raw patch :
  parseKitPatchFromLLM raw = Ok patch ->
  is_object patch = true /\ incl (keys patch) patch_fields.
Proof.
  intros H.
  destruct (JSON_parse (unfence raw)) as [obj|] eqn:Hp;
    [|rewrite parseKitPatchFromLLM_parts, Hp in H; discriminate].
  destruct (parseKitPatchFromLLM_returns _ _ _ Hp H) as (c & t & Hc & Ht & ->).
  split; [reflexivity|].
  apply colors_part_cases in Hc. apply typography_part_cases in Ht.
  unfold settings_part.
  destruct (negb _ && _);
    destruct Hc as [->|(x & ->)];
    destruct Ht as [[-> _]|(t0 & ts & ty & _ & _ & ->)];
    cbn [app keys List.map fst]; unfold patch_fields;
    intros k Hk; cbn [In] in *; tauto.
Qed.

Lemma callGemini_keyless env gen prompt :
  keyless env = true ->
  callGemini env gen prompt
  = Throw (Error (lit "GOOGLE_API_KEY or GEMINI_API_KEY is required")).
Proof.
  unfold keyless, callGemini. intros H. apply andb_prop in H as [H1 H2].
  apply negb_true_iff in H1, H2. rewrite H1.
  destruct (GEMINI_API_KEY env) as [[|c k]|]; try reflexivity. discriminate.
Qed.

Lemma callGemini_text env gen prompt t :
  callGemini env gen prompt = Ok t -> t <> [].
Proof.
  unfold callGemini.
  match goal with
  | |- match ?k with _ => _ end = _ -> _ => destruct k as [[|c k']|]; try discriminate
  end.
  cbv zeta. intros H. apply bind_Ok in H as (response & _ & H).
  destruct response as [text|]; [|discriminate].
  apply bind_Ok in H as (t' & _ & H). apply Ok_inj in H. subst t.
  destruct t'; discriminate.
Qed.

Lemma callGemini_empty env gen prompt :
  keyless env = false ->
  (forall k m p, gen k m p = Ok (Some (Ok []))) ->
  callGemini env gen prompt = Ok (lit "[]").
Proof.
  unfold keyless, callGemini. intros Hk Hgen.
  match goal with
  | |- match ?k with _ => _ end = _ => destruct k as [[|c k']|] eqn:E
  end.
  - exfalso. destruct (env_truthy (GOOGLE_API_KEY env)) eqn:E1.
    + rewrite E in E1. discriminate.
    + rewrite E in Hk. discriminate.
  - cbv zeta. rewrite Hgen. reflexivity.
  - exfalso. destruct (env_truthy (GOOGLE_API_KEY env)) eqn:E1.
    + rewrite E in E1. discriminate.
    + rewrite E in Hk. discriminate.
Qed.

(** X14. Every request to [POST /edits], whatever its body and whatever
    the model does, leaves exactly one record in front of the audit
    buffer: it holds the request's identifier, the body, the very payload
    that is sent as the answer, and the context type ['kit'] exactly when
    the body's [context_type] is the string ['kit']; the oldest record
    goes when that makes 51. *)
Theorem post_edits_recorded
    (env : Env) (gen : provider) (req : request) (h : heap)
    (recs : list AuditRecord) :
  holds h recs ->
  let '(answer, h') := post_edits env gen req h in
  records_at h' requests
  = take MAX_REQUESTS
      ({| id_ := VStr (requestId req); timestamp := now req;
          body := body_of req; response := answer;
          contextType := if kit_request req then lit "kit" else lit "page" |}
       :: recs).
Proof.
  intros Hh. destruct (post_edits_reply env gen req h) as [answer ->].
  unfold reply.
  pose proof (holds_add h recs
    {| c_id := VStr (requestId req); c_body := body_of req;
       c_response := answer;
       c_contextType := VStr (lit (if kit_request req then "kit" else "page"));
       c_now := now req |} Hh) as Ha.
  apply holds_records in Ha. unfold add in Ha. cbn [c_id c_body c_response
    c_contextType c_now] in Ha. rewrite Ha. f_equal. f_equal.
  unfold record_of, new_record. cbn [c_id c_body c_response c_contextType c_now].
  destruct (kit_request req); reflexivity.
Qed.

(** X15. A request that fails the validation of its branch is answered
    with the error of that branch whatever the environment and the
    provider are, which are not consulted: a kit request without an
    instruction that is a string with something other than white space in
    it; a page request without such an instruction or whose dictionary is
    not an array. *)
Theorem invalid_requests_rejected
    (env : Env) (gen : provider) (req : request) (h : heap) :
  valid_request req = false ->
  post_edits env gen req h
  = reply req (body_of req)
      (error_answer (if kit_request req
                     then lit "Missing instruction for kit edit"
                     else lit "Missing dictionary or instruction"))
      (if kit_request req then "kit" else "page") h.
Proof.
  unfold valid_request, post_edits, kit_request, body_of, has_instruction, is_array.
  cbv zeta.
  destruct (str_is _ (lit "kit")).
  - destruct (get _ (lit "instruction")) as [| | | |s| |]; try reflexivity.
    destruct (trim s); [reflexivity|discriminate].
  - destruct (get _ (lit "dictionary")) as [| | | | |dictionary|]; try reflexivity.
    destruct (get _ (lit "instruction")) as [| | | |s| |]; try reflexivity.
    destruct (trim s); [reflexivity|discriminate].
Qed.

(** X16. The answer to [POST /edits] has one of three shapes: an error
    with its text; for a kit request, a [kit_patch] that is an object with
    no property other than [colors], [typography] and [settings]; for a
    page request, [edits], an array of records each of which has a
    non-empty id or path and a payload field, and no property beyond the
    ten an edit can have. *)
Theorem post_edits_answers
    (env : Env) (gen : provider) (req : request) (h : heap) :
  let answer := (post_edits env gen req h).1 in
  (exists m, answer = error_answer m)
  \/ (kit_request req = true
      /\ exists patch,
           answer = VObj [ (lit "kit_patch", patch) ]
           /\ is_object patch = true /\ incl (keys patch) patch_fields)
  \/ (kit_request req = false
      /\ exists edits,
           answer = VObj [ (lit "edits", VArr edits) ]
           /\ Forall well_formed_edit edits
           /\ Forall (fun e => incl (keys e) edit_fields) edits).
Proof.
  unfold post_edits, kit_request, body_of, error_answer, failure, reply. cbv zeta.
  destruct (str_is _ (lit "kit")).
  - destruct (get _ (lit "instruction")) as [| | | |s| |]; cbn [fst]; eauto.
    destruct (trim s); cbn [fst]; eauto.
    match goal with
    | |- context [match ?m with Ok _ => _ | Throw _ => _ end] =>
        destruct m as [patch|e] eqn:Em
    end; cbn [fst]; eauto.
    right. left. split; [reflexivity|]. exists patch. split; [reflexivity|].
    cbv zeta in Em. apply bind_Ok in Em as (raw & _ & Em).
    exact (parseKitPatchFromLLM_sound _ _ Em).
  - destruct (get _ (lit "dictionary")) as [| | | | |dictionary|]; cbn [fst]; eauto.
    destruct (get _ (lit "instruction")) as [| | | |s| |]; cbn [fst]; eauto.
    destruct (trim s); cbn [fst]; eauto.
    match goal with
    | |- context [match ?m with Ok _ => _ | Throw _ => _ end] =>
        destruct m as [edits|e] eqn:Em
    end; cbn [fst]; eauto.
    right. right. split; [reflexivity|]. exists edits. split; [reflexivity|].
    cbv zeta in Em. apply bind_Ok in Em as (raw & _ & Em).
    exact (parseEditsFromLLM_sound _ _ _ _ _ Em).
Qed.

(** X17. Without an API key in the environment, every request that
    passes validation is answered with the error that names the two
    variables, whatever the provider would do. *)
Theorem missing_api_key
    (env : Env) (gen : provider) (req : request) (h : heap) :
  keyless env = true -> valid_request req = true ->
  (post_edits env gen req h).1
  = error_answer (lit "GOOGLE_API_KEY or GEMINI_API_KEY is required").
Proof.
  intros Hk. unfold valid_request, post_edits, kit_request, body_of,
    has_instruction, is_array. cbv zeta.
  destruct (str_is _ (lit "kit")).
  - destruct (get _ (lit "instruction")) as [| | | |s| |]; try discriminate.
    destruct (trim s); [discriminate|]. intros _.
    rewrite (callGemini_keyless _ _ _ Hk). reflexivity.
  - destruct (get _ (lit "dictionary")) as [| | | | |dictionary|]; try discriminate.
    destruct (get _ (lit "instruction")) as [| | | |s| |]; try discriminate.
    destruct (trim s); [discriminate|]. intros _.
    rewrite (callGemini_keyless _ _ _ Hk). reflexivity.
Qed.

Lemma parseEditsFromLLM_empty_array d slots caps :
  parseEditsFromLLM (lit "[]") d slots caps = Ok [].
Proof.
  unfold parseEditsFromLLM.
  assert (H : JSON_parse (unfence (lit "[]")) = Some (VArr []))
    by (vm_compute; reflexivity).
  rewrite H. reflexivity.
Qed.

Lemma parseKitPatchFromLLM_empty_array :
  parseKitPatchFromLLM (lit "[]") = Ok (VObj []).
Proof.
  unfold parseKitPatchFromLLM.
  assert (H : JSON_parse (unfence (lit "[]")) = Some (VArr []))
    by (vm_compute; reflexivity).
  rewrite H. reflexivity.
Qed.

(** X18. [callGemini] never returns the empty string: an empty text from
    the model is replaced by [[]]. With an API key set, a request that
    passes validation and meets an empty model text is therefore
    answered with no edits, and in the kit branch with the empty patch,
    not with an error. *)
Theorem empty_model_text
    (env : Env) (gen : provider) (req : request) (h : heap) :
  keyless env = false -> valid_request req = true ->
  (forall k m p, gen k m p = Ok (Some (Ok []))) ->
  (forall prompt t gen', callGemini env gen' prompt = Ok t -> t <> [])
  /\ (post_edits env gen req h).1
     = if kit_request req then VObj [ (lit "kit_patch", VObj []) ]
       else VObj [ (lit "edits", VArr []) ].
Proof.
  intros Hk Hv Hgen. split.
  { intros prompt t gen'. apply callGemini_text. }
  revert Hv. unfold valid_request, post_edits, kit_request, body_of,
    has_instruction, is_array. cbv zeta.
  destruct (str_is _ (lit "kit")).
  - destruct (get _ (lit "instruction")) as [| | | |s| |]; try discriminate.
    destruct (trim s); [discriminate|]. intros _.
    rewrite (callGemini_empty _ _ _ Hk Hgen). cbn [bind].
    rewrite parseKitPatchFromLLM_empty_array. reflexivity.
  - destruct (get _ (lit "dictionary")) as [| | | | |dictionary|]; try discriminate.
    destruct (get _ (lit "instruction")) as [| | | |s| |]; try discriminate.
    destruct (trim s); [discriminate|]. intros _.
    rewrite (callGemini_empty _ _ _ Hk Hgen). cbn [bind].
    rewrite parseEditsFromLLM_empty_array. reflexivity.
Qed.

Lemma requireAuth_secret env key secret :
  SERVICE_SECRET env = Some secret -> secret <> [] ->
  env_truthy (SERVICE_SECRET env) = true
  /\ (requireAuth env key = true <-> key = VStr secret).
Proof.
  intros Hs Hne. unfold requireAuth. rewrite Hs.
  destruct secret as [|c s]; [congruence|]. split; [reflexivity|].
  destruct key; cbn [str_is]; try (split; [discriminate|intros [=]]).
  rewrite str_eqb_eq. split; [intros ->; reflexivity|intros [= ->]; reflexivity].
Qed.

(** X19. With [SERVICE_SECRET] set, a request to [POST /edits] whose
    [x-service-key] header is not that very string is answered
    [Unauthorized] and goes no further: nothing is recorded and neither
    the body nor the provider is looked at. A request with the right key
    is handled as if there were no middleware, and so is every request
    when the secret is unset or empty. *)
Theorem edits_route_guarded
    (env : Env) (gen : provider) (key : value) (req : request) (h : heap) :
  (env_truthy (SERVICE_SECRET env) = false ->
   edits_route env gen key req h = post_edits env gen req h)
  /\ (forall secret, SERVICE_SECRET env = Some secret -> secret <> [] ->
      (key = VStr secret ->
       edits_route env gen key req h = post_edits env gen req h)
      /\ (key <> VStr secret ->
          edits_route env gen key req h = (error_answer (lit "Unauthorized"), h))).
Proof.
  unfold edits_route. split.
  - intros ->. reflexivity.
  - intros secret Hs Hne.
    destruct (requireAuth_secret env key secret Hs Hne) as [Ht Hiff].
    rewrite Ht. cbn [andb]. split.
    + intros Hk. apply Hiff in Hk. rewrite Hk. reflexivity.
    + intros Hk. destruct (requireAuth env key) eqn:E; [|reflexivity].
      exfalso. apply Hk, Hiff. reflexivity.
Qed.

Lemma post_edits_answer_heap env gen req h h' :
  (post_edits env gen req h).1 = (post_edits env gen req h').1.
Proof.
  destruct (post_edits_reply env gen req h) as [answer Ha].
  unfold post_edits, reply. cbv zeta.
  destruct (str_is _ (lit "kit")).
  - destruct (get _ (lit "instruction")) as [| | | |s| |]; try reflexivity.
    destruct (trim s); try reflexivity.
    match goal with
    | |- context [match ?m with Ok _ => _ | Throw _ => _ end] => destruct m
    end; reflexivity.
  - destruct (get _ (lit "dictionary")) as [| | | | |dictionary|]; try reflexivity.
    destruct (get _ (lit "instruction")) as [| | | |s| |]; try reflexivity.
    destruct (trim s); try reflexivity.
    match goal with
    | |- context [match ?m with Ok _ => _ | Throw _ => _ end] => destruct m
    end; reflexivity.
Qed.

Lemma edits_route_holds env a h recs :
  holds h recs ->
  holds (edits_route env (a_provider a) (a_key a) (a_request a) h).2
    (if admitted env a then take MAX_REQUESTS (record_for env a :: recs) else recs).
Proof.
  intros Hh. unfold edits_route, admitted.
  destruct (env_truthy (SERVICE_SECRET env)); cbn [negb andb orb].
  - destruct (requireAuth env (a_key a)); cbn [negb snd]; [|exact Hh].
    destruct (post_edits_reply env (a_provider a) (a_request a) h) as [answer Ha].
    unfold record_for. rewrite (post_edits_answer_heap _ _ _ init h), Ha.
    unfold reply. cbn [fst snd].
    pose proof (holds_add h recs
      {| c_id := VStr (requestId (a_request a)); c_body := body_of (a_request a);
         c_response := answer;
         c_contextType :=
           VStr (lit (if kit_request (a_request a) then "kit" else "page"));
         c_now := now (a_request a) |} Hh) as Hadd.
    unfold add, record_of, new_record in Hadd.
    cbn [c_id c_body c_response c_contextType c_now] in Hadd.
    destruct (kit_request (a_request a)); exact Hadd.
  - destruct (post_edits_reply env (a_provider a) (a_request a) h) as [answer Ha].
    unfold record_for. rewrite (post_edits_answer_heap _ _ _ init h), Ha.
    unfold reply. cbn [fst snd].
    pose proof (holds_add h recs
      {| c_id := VStr (requestId (a_request a)); c_body := body_of (a_request a);
         c_response := answer;
         c_contextType :=
           VStr (lit (if kit_request (a_request a) then "kit" else "page"));
         c_now := now (a_request a) |} Hh) as Hadd.
    unfold add, record_of, new_record in Hadd.
    cbn [c_id c_body c_response c_contextType c_now] in Hadd.
    destruct (kit_request (a_request a)); exact Hadd.
Qed.

(** X20. After any traffic on [POST /edits] the audit buffer lists, newest
    first and at most 50, one record for each arrival that passed the
    middleware, with the answer that arrival was given; the arrivals that
    were turned away leave no trace. What [GET /api/requests] sends is
    that list. *)
Theorem audit_log_of_traffic (env : Env) (arrivals : list arrival) :
  let h := serve env arrivals in
  let log := take MAX_REQUESTS
               (rev (List.map (record_for env)
                       (List.filter (admitted env) arrivals))) in
  records_at h requests = log /\ (api_requests h).1 = log.
Proof.
  intros h log.
  assert (Hgen : forall hs recs,
    holds hs recs ->
    holds (fold_left
             (fun h a => (edits_route env (a_provider a) (a_key a) (a_request a) h).2)
             arrivals hs)
      (take MAX_REQUESTS
         (rev (List.map (record_for env) (List.filter (admitted env) arrivals))
          ++ recs))).
  { induction arrivals as [|a arrivals IH]; intros hs recs Hh.
    - cbn. rewrite take_ge; [exact Hh|].
      destruct Hh as (_ & _ & _ & Hlen). exact Hlen.
    - cbn [fold_left List.filter].
      pose proof (edits_route_holds env a hs recs Hh) as Ha.
      destruct (admitted env a).
      + cbn [List.map rev]. rewrite <- app_assoc. cbn [app].
        rewrite <- take_app_take. apply IH, Ha.
      + apply IH, Ha. }
  specialize (Hgen init [] holds_init). rewrite app_nil_r in Hgen.
  fold (serve env arrivals) in Hgen. fold h in Hgen. fold log in Hgen.
  split; [exact (holds_records _ _ Hgen)|].
  unfold api_requests.
  pose proof (getRequests_copy h log Hgen) as Hc.
  destruct (getRequests h) as [l h']. cbn [fst].
  destruct Hc as (_ & _ & Hl & _). exact Hl.
Qed.

End ServiceFacts.

Lemma post_edits_recorded_witness :
  let env := {| GOOGLE_API_KEY := None; GEMINI_API_KEY := None;
                GEMINI_MODEL := None; SERVICE_SECRET := None |} in
  let gen : provider := fun _ _ _ => Ok None in
  let req := sample_request (VObj [ (lit "context_type", VStr (lit "kit")) ]) in
  let '(answer, h') :=
    post_edits (NS:=integer_literals) (T:=blank_texts) env gen req init in
  records_at h' requests
  = take MAX_REQUESTS
      ({| id_ := VStr (requestId req); timestamp := now req;
          body := body_of (NS:=integer_literals) req; response := answer;
          contextType := if kit_request (NS:=integer_literals) req
                         then lit "kit" else lit "page" |} :: []).
Proof.
  intros env gen req.
  exact (post_edits_recorded (NS:=integer_literals) (T:=blank_texts)
           env gen req init [] holds_init).
Defined.

Lemma invalid_requests_rejected_witness :
  let env := {| GOOGLE_API_KEY := Some (lit "key"); GEMINI_API_KEY := None;
                GEMINI_MODEL := None; SERVICE_SECRET := None |} in
  let gen : provider := fun _ _ _ => Ok (Some (Ok (lit "[]"))) in
  let req := sample_request
               (VObj [ (lit "dictionary", VObj []);
                       (lit "instruction", VStr (lit "Shorten the title")) ]) in
  valid_request (NS:=integer_literals) req = false
  /\ post_edits (NS:=integer_literals) (T:=blank_texts) env gen req init
     = reply req (body_of (NS:=integer_literals) req)
         (error_answer (lit "Missing dictionary or instruction")) "page" init.
Proof.
  intros env gen req.
  assert (Hv : valid_request (NS:=integer_literals) req = false)
    by (vm_compute; reflexivity).
  split; [exact Hv|].
  exact (invalid_requests_rejected (NS:=integer_literals) (T:=blank_texts)
           env gen req init Hv).
Defined.

Lemma missing_api_key_witness :
  let env := {| GOOGLE_API_KEY := Some []; GEMINI_API_KEY := None;
                GEMINI_MODEL := None; SERVICE_SECRET := None |} in
  let gen : provider := fun _ _ _ => Ok (Some (Ok (lit "[]"))) in
  let req := sample_request
               (VObj [ (lit "dictionary", VArr []);
                       (lit "instruction", VStr (lit "Shorten the title")) ]) in
  keyless env = true
  /\ valid_request (NS:=integer_literals) req = true
  /\ (post_edits (NS:=integer_literals) (T:=blank_texts) env gen req init).1
     = error_answer (lit "GOOGLE_API_KEY or GEMINI_API_KEY is required").
Proof.
  intros env gen req.
  assert (Hk : keyless env = true) by reflexivity.
  assert (Hv : valid_request (NS:=integer_literals) req = true)
    by (vm_compute; reflexivity).
  split; [exact Hk|]. split; [exact Hv|].
  exact (missing_api_key (NS:=integer_literals) (T:=blank_texts)
           env gen req init Hk Hv).
Defined.

Lemma empty_model_text_witness :
  let env := {| GOOGLE_API_KEY := None; GEMINI_API_KEY := Some (lit "key");
                GEMINI_MODEL := None; SERVICE_SECRET := None |} in
  let gen : provider := fun _ _ _ => Ok (Some (Ok [])) in
  let req := sample_request
               (VObj [ (lit "context_type", VStr (lit "kit"));
                       (lit "instruction", VStr (lit "Darker primary")) ]) in
  keyless env = false
  /\ valid_request (NS:=integer_literals) req = true
  /\ (post_edits (NS:=integer_literals) (T:=blank_texts) env gen req init).1
     = VObj [ (lit "kit_patch", VObj []) ].
Proof.
  intros env gen req.
  assert (Hk : keyless env = false) by reflexivity.
  assert (Hv : valid_request (NS:=integer_literals) req = true)
    by (vm_compute; reflexivity).
  split; [exact Hk|]. split; [exact Hv|].
  exact (proj2 (empty_model_text (NS:=integer_literals) (T:=blank_texts)
                  env gen req init Hk Hv (fun _ _ _ => eq_refl))).
Defined.

(** * The first version of the edit normalizer *)

Lemma find_ext_Forall {A} (p q : A -> bool) l :
  Forall (fun x => p x = q x) l -> List.find p l = List.find q l.
Proof.
  induction 1 as [|x l Hx _ IH]; cbn; [reflexivity|].
  rewrite Hx, IH. reflexivity.
Qed.

Section Versions.
Context {NS : NumberSem}.

Lemma findM_same_field k item l :
  entries_defined l ->
  findM (Initial.same_field k item) l =
  Ok (match List.find (fun d => strict_eq (get d k) (get item k)) l with
      | Some d => d
      | None => VUndefined
      end).
Proof.
  induction 1 as [|d l Hd _ IH]; cbn; [reflexivity|].
  unfold Initial.same_field at 1, getM. rewrite Hd. cbn [bind].
  destruct (strict_eq (get d k) (get item k)); [reflexivity|exact IH].
Qed.

Lemma typed_defined l : Forall typed_entry l -> entries_defined l.
Proof.
  intros H. eapply Forall_impl; [exact H|]. intros d [Hd _].
  apply is_object_defined, Hd.
Qed.

Lemma strict_eq_nullish_r a b :
  nullish a = false -> nullish b = true -> strict_eq a b = false.
Proof. destruct a, b; try discriminate; reflexivity. Qed.

Lemma find_truthy (p : value -> bool) l :
  Forall typed_entry l ->
  truthy (match List.find p l with Some d => d | None => VUndefined end)
  = match List.find p l with Some _ => true | None => false end.
Proof.
  intros H. destruct (List.find p l) as [d|] eqn:E; [|reflexivity].
  apply find_some in E as [Hin _].
  rewrite List.Forall_forall in H. destruct (H d Hin) as [Hd _].
  apply is_object_truthy, Hd.
Qed.

Lemma filterByCapabilities_text_plain edit a b t :
  get edit (lit "id") = a -> get edit (lit "path") = b ->
  get edit (lit "new_text") = VStr t ->
  nullish (get edit (lit "field")) = true ->
  nullish (get edit (lit "item_index")) = true ->
  filterByCapabilities edit [VStr (lit "text")]
  = VObj [ (lit "id", a); (lit "path", b); (lit "new_text", VStr t) ].
Proof.
  intros Ha Hb Ht Hf Hi. unfold filterByCapabilities, copy_prop.
  cbn [includes existsb str_is]. eval_names. cbn [orb andb].
  rewrite Ha, Hb, Ht, Hf, Hi. cbn [nullish negb].
  cbn [obj_set]. eval_names. unfold has_key. cbn [lookup_prop]. eval_names.
  reflexivity.
Qed.

Lemma source_of_find (p : value -> bool) l :
  Forall typed_entry l ->
  let src := match List.find p l with Some d => d | None => VUndefined end in
  (if truthy src then src else VUndefined) = src.
Proof.
  intros H src. subst src. rewrite (find_truthy p l H).
  destruct (List.find p l); reflexivity.
Qed.

Lemma matches_by_path item l :
  Forall typed_entry l -> nullish (get item (lit "id")) = true ->
  List.find (matches item) l
  = List.find (fun d => strict_eq (get d (lit "path")) (get item (lit "path"))) l.
Proof.
  intros H Hn. apply find_ext_Forall.
  eapply Forall_impl; [exact H|]. intros d (_ & [i Hi] & _). cbn beta.
  unfold matches. rewrite Hi, (strict_eq_nullish_r (VStr i) _ eq_refl Hn).
  apply orb_false_r.
Qed.

Lemma matches_by_id item l :
  Forall typed_entry l -> nullish (get item (lit "path")) = true ->
  List.find (matches item) l
  = List.find (fun d => strict_eq (get d (lit "id")) (get item (lit "id"))) l.
Proof.
  intros H Hn. apply find_ext_Forall.
  eapply Forall_impl; [exact H|]. intros d (_ & _ & [p Hp]). cbn beta.
  unfold matches. rewrite Hp, (strict_eq_nullish_r (VStr p) _ eq_refl Hn).
  reflexivity.
Qed.

Lemma to_edit_initial d item :
  Forall typed_entry d -> plain_item item ->
  Initial.is_candidate item = true ->
  to_edit d [] [VStr (lit "text")] item = Initial.to_edit d item.
Proof.
  intros Hd [Hf Hi] Hc. unfold Initial.is_candidate in Hc.
  apply andb_prop in Hc as [Hc Hnt]. apply andb_prop in Hc as [_ Hip].
  apply negb_true_iff in Hnt.
  unfold to_edit, resolveIdPath, Initial.to_edit.
  rewrite (findM_find _ _ (typed_defined _ Hd)). cbn [findM bind].
  rewrite (source_of_find _ _ Hd).
  rewrite !(findM_same_field _ _ _ (typed_defined _ Hd)).
  rewrite Hnt. cbn [negb].
  destruct (nullish (get item (lit "id"))) eqn:Eid;
    destruct (nullish (get item (lit "path"))) eqn:Epath;
    try discriminate; cbn [bind].
  all: destruct (ToString (get item (lit "new_text"))) as [t|e]; cbn [bind];
    [|reflexivity].
  all: erewrite filterByCapabilities_text_plain;
    [ | reflexivity | reflexivity
      | read_fields; reflexivity
      | read_fields; rewrite Hf; reflexivity
      | read_fields; rewrite Hi; reflexivity ].
  all: read_fields; unfold coalesce; rewrite ?Eid, ?Epath.
  - rewrite (matches_by_path _ _ Hd Eid). reflexivity.
  - rewrite (matches_by_id _ _ Hd Epath). reflexivity.
  - reflexivity.
Qed.

Lemma to_edit_without_text d item :
  Forall typed_entry d ->
  is_candidate item = true -> Initial.is_candidate item = false ->
  to_edit d [] [VStr (lit "text")] item = Ok VNull.
Proof.
  intros Hd Hc Hc1.
  assert (Hnt : nullish (get item (lit "new_text")) = true).
  { unfold is_candidate in Hc. unfold Initial.is_candidate in Hc1.
    apply andb_prop in Hc as [Hc _]. rewrite Hc in Hc1. cbn [andb] in Hc1.
    apply negb_false_iff, Hc1. }
  destruct (to_edit_total d [] [VStr (lit "text")] item) as [e He].
  - apply typed_defined, Hd.
  - constructor.
  - destruct (get item (lit "new_text")); try discriminate;
      eexists; reflexivity.
  - rewrite He. f_equal. exact (to_edit_text_only _ _ _ _ Hnt He).
Qed.

Lemma initial_candidates item :
  Initial.is_candidate item = true -> is_candidate item = true.
Proof.
  unfold Initial.is_candidate, is_candidate, hasEditPayload. intros H.
  apply andb_prop in H as [-> ->]. reflexivity.
Qed.

Lemma initial_to_edit_object d item e :
  Initial.to_edit d item = Ok e -> nullish e = false.
Proof.
  unfold Initial.to_edit. intros H.
  apply bind_Ok in H as (i & _ & H). apply bind_Ok in H as (p & _ & H).
  apply bind_Ok in H as (t & _ & H). apply Ok_inj in H. subst e. reflexivity.
Qed.

Lemma edits_of_agree d arr :
  Forall typed_entry d -> Forall plain_item arr ->
  (let* edits := mapM (Initial.to_edit d) (List.filter Initial.is_candidate arr) in
   Ok (List.filter identified edits))
  = edits_of arr d [] [VStr (lit "text")].
Proof.
  intros Hd Harr. unfold edits_of.
  induction Harr as [|item arr Hitem _ IH]; [reflexivity|].
  cbn [List.filter].
  destruct (Initial.is_candidate item) eqn:Hc1.
  - rewrite (initial_candidates _ Hc1). cbn [mapM].
    rewrite (to_edit_initial d item Hd Hitem Hc1).
    destruct (Initial.to_edit d item) as [e|] eqn:He; cbn [bind]; [|reflexivity].
    pose proof (initial_to_edit_object _ _ _ He) as Hn.
    destruct (mapM (Initial.to_edit d) (List.filter Initial.is_candidate arr))
      as [es|]; cbn [bind] in *;
      destruct (mapM (to_edit d [] [VStr (lit "text")]) (List.filter is_candidate arr))
        as [es'|]; cbn [bind] in *; try discriminate; try exact IH.
    apply Ok_inj in IH. cbn [List.filter]. rewrite Hn. cbn [negb List.filter].
    rewrite IH. reflexivity.
  - destruct (is_candidate item) eqn:Hc; [|exact IH].
    cbn [mapM]. rewrite (to_edit_without_text d item Hd Hc Hc1). cbn [bind].
    destruct (mapM (Initial.to_edit d) (List.filter Initial.is_candidate arr))
      as [es|]; cbn [bind] in *;
      destruct (mapM (to_edit d [] [VStr (lit "text")]) (List.filter is_candidate arr))
        as [es'|]; cbn [bind] in *; try discriminate; exact IH.
Qed.

(** X21. The first version of the edit normalizer agrees with the present
    one called without image slots and capabilities, exceptions included,
    when the entries of the dictionary are objects whose id and path are
    strings and no element of the model output names a [field] or an
    [item_index]: the later additions leave the text-only behaviour as it
    was. *)
Theorem first_version_agrees (raw : jsstring) (dictionary : list value) :
  Forall typed_entry dictionary ->
  (forall arr, JSON_parse (unfence raw) = Some (VArr arr) -> Forall plain_item arr) ->
  Initial.parseEditsFromLLM raw dictionary
  = parseEditsFromLLM raw dictionary VUndefined VUndefined.
Proof.
  intros Hd Harr. unfold Initial.parseEditsFromLLM, parseEditsFromLLM. cbv zeta.
  destruct (JSON_parse (unfence raw)) as [[| | | | |arr|]|]; try reflexivity.
  cbn [array_or]. apply edits_of_agree; [exact Hd|]. apply Harr. reflexivity.
Qed.

End Versions.

Lemma first_version_agrees_witness :
  let raw := json "[{'path':'/h','new_text':'Hi'},{'id':'b','new_url':'u'}]" in
  let dictionary :=
    [ VObj [ (lit "id", VStr (lit "a")); (lit "path", VStr (lit "/h"));
             (lit "text", VStr (lit "Hello")) ] ] in
  Forall typed_entry dictionary
  /\ Initial.parseEditsFromLLM (NS:=integer_literals) raw dictionary
     = parseEditsFromLLM (NS:=integer_literals) raw dictionary VUndefined VUndefined.
Proof.
  intros raw dictionary.
  assert (Hd : Forall typed_entry dictionary).
  { repeat constructor; eexists; reflexivity. }
  split; [exact Hd|].
  apply (first_version_agrees (NS:=integer_literals) raw dictionary Hd).
  intros arr Harr.
  assert (Hp : JSON_parse (unfence raw)
               = Some (VArr [ VObj [ (lit "path", VStr (lit "/h"));
                                     (lit "new_text", VStr (lit "Hi")) ];
                              VObj [ (lit "id", VStr (lit "b"));
                                     (lit "new_url", VStr (lit "u")) ] ]))
    by (vm_compute; reflexivity).
  rewrite Hp in Harr. apply (f_equal (fun o => match o with
                                               | Some (VArr l) => l
                                               | _ => []
                                               end)) in Harr.
  cbn beta iota in Harr. subst arr. repeat constructor.
Defined.

(** * The service, when the request leaves the capabilities out *)

Section Defaults.
Context {NS : NumberSem} {T : Texts}.

Lemma parseEditsFromLLM_granted raw d slots caps out e k tag :
  parseEditsFromLLM raw d slots (VArr caps) = Ok out ->
  In e out -> In (k, tag) field_capability -> has_prop e k = true ->
  grants caps tag = true.
Proof.
  unfold parseEditsFromLLM.
  destruct (JSON_parse (unfence raw)) as [[| | | | |arr|]|]; try discriminate.
  cbn [array_or]. intros H He Hk Hhas.
  destruct (edits_of_Ok _ _ _ _ _ H) as [H2 _].
  destruct (Forall2_In_r _ _ _ _ H2 He) as (item & _ & Hitem).
  destruct (to_edit_filtered _ _ _ _ _ Hitem) as [edit Hedit].
  destruct e as [| | | | | |o]; try discriminate.
  exact (filterByCapabilities_keys _ _ _ _ _ (eq_sym Hedit) Hk Hhas).
Qed.

(** X22. A page request whose body has no [edit_capabilities], or has one
    that is not an array, is served with the capability list [["text"]]:
    whatever the model returns, every edit of the answer has, besides its
    id and path, text fields only. *)
Theorem default_capabilities_text_only
    (env : Env) (gen : provider) (req : request) (h : heap) (edits : list value) :
  kit_request req = false ->
  is_array (get (body_of req) (lit "edit_capabilities")) = false ->
  (post_edits env gen req h).1 = VObj [ (lit "edits", VArr edits) ] ->
  forall e k tag,
    In e edits -> In (k, tag) field_capability -> has_prop e k = true ->
    tag = "text"%string.
Proof.
  unfold kit_request, body_of, post_edits, reply, failure. cbv zeta.
  intros Hkit Hcaps. rewrite Hkit.
  destruct (get _ (lit "dictionary")) as [| | | | |dictionary|];
    cbn [fst]; try discriminate.
  destruct (get _ (lit "instruction")) as [| | | |s| |]; cbn [fst]; try discriminate.
  destruct (trim s); cbn [fst]; [discriminate|].
  match goal with
  | |- context [match ?m with Ok _ => _ | Throw _ => _ end] =>
      destruct m as [out|e0] eqn:Em
  end; cbn [fst]; [|discriminate].
  intros Hans e k tag He Hk Hhas.
  apply VObj_inj in Hans.
  assert (Hout : out = edits) by congruence. subst out.
  cbv zeta in Em. apply bind_Ok in Em as (raw & _ & Em).
  assert (Hdef : array_or (get_default (if truthy (req_body req) then req_body req
                                        else VObj [])
                             (lit "edit_capabilities") (VArr [VStr (lit "text")]))
                   [VStr (lit "text")] = [VStr (lit "text")]).
  { unfold get_default, is_array in *.
    destruct (get _ (lit "edit_capabilities")); try reflexivity. discriminate. }
  rewrite Hdef in Em.
  pose proof (parseEditsFromLLM_granted _ _ _ _ _ _ _ _ Em He Hk Hhas) as Hg.
  unfold field_capability in Hk. cbn [In] in Hk.
  repeat (destruct Hk as [Hk|Hk];
          [apply pair_equal_spec in Hk as [_ <-];
           first [reflexivity | vm_compute in Hg; discriminate]|]).
  destruct Hk.
Qed.

End Defaults.

Lemma default_capabilities_text_only_witness :
  let env := {| GOOGLE_API_KEY := Some (lit "key"); GEMINI_API_KEY := None;
                GEMINI_MODEL := None; SERVICE_SECRET := None |} in
  let gen : provider :=
    fun _ _ _ => Ok (Some (Ok (json "[{'id':'a','new_text':'Hi','new_url':'u'}]"))) in
  let req := sample_request
               (VObj [ (lit "dictionary", VArr []);
                       (lit "instruction", VStr (lit "Shorten the title")) ]) in
  let e := VObj [ (lit "id", VStr (lit "a")); (lit "path", VStr []);
                  (lit "new_text", VStr (lit "Hi")) ] in
  (post_edits (NS:=integer_literals) (T:=blank_texts) env gen req init).1
  = VObj [ (lit "edits", VArr [e]) ]
  /\ forall k tag,
       In (k, tag) field_capability -> has_prop e k = true -> tag = "text"%string.
Proof.
  intros env gen req e.
  assert (Hans : (post_edits (NS:=integer_literals) (T:=blank_texts)
                    env gen req init).1 = VObj [ (lit "edits", VArr [e]) ])
    by (vm_compute; reflexivity).
  split; [exact Hans|].
  intros k tag.
  refine (default_capabilities_text_only (NS:=integer_literals) (T:=blank_texts)
            env gen req init [e] _ _ Hans e k tag _).
  - vm_compute. reflexivity.
  - vm_compute. reflexivity.
  - left. reflexivity.
Defined.

(** * The search when a field is absent on both sides *)

Lemma findM_first (p : value -> result bool) (pre : list value) d post :
  Forall (fun x => p x = Ok false) pre -> p d = Ok true ->
  findM p (pre ++ d :: post) = Ok d.
Proof.
  induction 1 as [|x pre Hx _ IH]; cbn; intros Hd.
  - rewrite Hd. reflexivity.
  - rewrite Hx. cbn. auto.
Qed.

Section AbsentFields.
Context {NS : NumberSem}.

(** Both searches use the one test
    [d.path === item.path || d.id === item.id], under which two absent
    fields, or two null ones, are equal. A candidate without a path is
    therefore matched by the earliest entry that has no path either,
    whatever the id of that entry, and its path resolves to the empty
    string whatever the later entries hold. *)
Lemma resolveIdPath_absent_path item pre d post image_slots :
  Forall (fun x => is_object x = true) pre ->
  Forall (fun x => matches item x = false) pre ->
  is_object d = true ->
  Forall (fun x => is_object x = true) image_slots ->
  nullish (get item (lit "path")) = true ->
  strict_eq (get d (lit "path")) (get item (lit "path")) = true ->
  exists r, resolveIdPath item (pre ++ d :: post) image_slots = Ok r
            /\ get r (lit "path") = VStr []
            /\ get r (lit "id")
               = coalesce (coalesce (get item (lit "id")) (get d (lit "id")))
                          (VStr []).
Proof.
  intros Hpre Hno Hd Hs Hn Heq. unfold resolveIdPath.
  rewrite (findM_first (same_slot item) pre d post).
  - rewrite (findM_find _ _ (objects_defined _ Hs)). cbn [bind].
    rewrite (is_object_truthy _ Hd).
    eexists. split; [reflexivity|]. rewrite !get_ids. eval_names.
    unfold get_opt. rewrite (is_object_defined _ Hd).
    split; [|reflexivity].
    destruct (get item (lit "path")), (get d (lit "path")); try discriminate;
      reflexivity.
  - apply List.Forall_forall. intros x Hx.
    rewrite List.Forall_forall in Hpre, Hno.
    rewrite (same_slot_defined _ _ (is_object_defined _ (Hpre x Hx))).
    rewrite (Hno x Hx). reflexivity.
  - rewrite (same_slot_defined _ _ (is_object_defined _ Hd)).
    unfold matches. rewrite Heq. reflexivity.
Qed.

(** C5 fails on the code. For the candidate [{id:'a', new_text:'Hi'}] and
    the dictionary [[{id:'b'}, {id:'a', path:'/a'}]], the first entry, which
    has neither the candidate's id nor a path, wins the search over the
    second, whose id is the candidate's: the path resolves to the empty
    string and not to ['/a'], which is what the first version of the
    function gives. *)
Theorem resolveIdPath_absent_fields_equal :
  let raw := json "[{'id':'a','new_text':'Hi'}]" in
  let item := VObj [ (lit "id", VStr (lit "a")); (lit "new_text", VStr (lit "Hi")) ] in
  let dictionary :=
    [ VObj [ (lit "id", VStr (lit "b")) ];
      VObj [ (lit "id", VStr (lit "a")); (lit "path", VStr (lit "/a")) ] ] in
  JSON_parse (unfence raw) = Some (VArr [item])
  /\ is_candidate item = true
  /\ resolveIdPath item dictionary []
     = Ok (VObj [ (lit "id", VStr (lit "a")); (lit "path", VStr []) ])
  /\ parseEditsFromLLM raw dictionary VUndefined VUndefined
     = Ok [ VObj [ (lit "id", VStr (lit "a")); (lit "path", VStr []);
                   (lit "new_text", VStr (lit "Hi")) ] ]
  /\ Initial.parseEditsFromLLM raw dictionary
     = Ok [ VObj [ (lit "id", VStr (lit "a")); (lit "path", VStr (lit "/a"));
                   (lit "new_text", VStr (lit "Hi")) ] ].
Proof. repeat split; vm_compute; reflexivity. Qed.

End AbsentFields.
